(** * spotify-art-getter: a shallow embedding of [server.mjs]

    The server resolves a Spotify link or URI to its 640x640 cover art and
    optionally sends a cover through an enhancement service.  This file
    embeds the four components of [server.mjs] (token cache, link parser,
    resource fetcher, enhance pipeline) together with the two route
    handlers, and states the properties of the specification over them.
    The script of the page that calls the two handlers is embedded in
    section 7c; sections 15 to 19 hold further properties of the code.

    Conventions.
    - A JavaScript string is a [string]; each character stands for one code
      unit in the range 0..255.
    - A JavaScript number that the server reads from JSON or from the clock
      is an integer [Z]; [NaN] is a separate constructor where coercions
      can produce it.
    - Effects (the token cache, the clock, [process.env], [fetch], [sharp])
      are threaded through an explicit [World]; a thrown [Error] is the
      [Throw] result of the monad [M]. *)

From Stdlib Require Import String Ascii List ZArith NArith Lia Bool DecimalString.
Import ListNotations.

Local Open Scope string_scope.
Local Open Scope bool_scope.

(** The elements of a list when none is missing. *)
Fixpoint all_some {A : Type} (l : list (option A)) : option (list A) :=
  match l with
  | [] => Some []
  | None :: _ => None
  | Some x :: r =>
      match all_some r with Some xs => Some (x :: xs) | None => None end
  end.

(* ================================================================== *)
(** * 1. JavaScript strings                                            *)
(* ================================================================== *)

Module JS.

Definition code (c : ascii) : N := N_of_ascii c.

Definition in_range (lo hi : N) (c : ascii) : bool :=
  (lo <=? code c)%N && (code c <=? hi)%N.

Definition is_digit (c : ascii) : bool := in_range 48 57 c.
Definition is_upper (c : ascii) : bool := in_range 65 90 c.
Definition is_lower (c : ascii) : bool := in_range 97 122 c.
Definition is_alpha (c : ascii) : bool := is_upper c || is_lower c.
Definition is_alnum (c : ascii) : bool := is_alpha c || is_digit c.

(** [String.prototype.toLowerCase] on one code unit below 256: the ASCII
    capitals and the Latin-1 capitals U+00C0..U+00DE (U+00D7 is the
    multiplication sign). *)
Definition lower_char (c : ascii) : ascii :=
  if is_upper c then ascii_of_N (code c + 32)
  else if in_range 192 222 c && negb (code c =? 215)%N then ascii_of_N (code c + 32)
  else c.

Fixpoint toLowerCase (s : string) : string :=
  match s with
  | EmptyString => EmptyString
  | String c s' => String (lower_char c) (toLowerCase s')
  end.

(** ASCII lowercase, as the URL Standard uses it. *)
Definition ascii_lower_char (c : ascii) : ascii :=
  if is_upper c then ascii_of_N (code c + 32) else c.

Fixpoint ascii_lowercase (s : string) : string :=
  match s with
  | EmptyString => EmptyString
  | String c s' => String (ascii_lower_char c) (ascii_lowercase s')
  end.

Fixpoint all (p : ascii -> bool) (s : string) : bool :=
  match s with
  | EmptyString => true
  | String c s' => p c && all p s'
  end.

Fixpoint any (p : ascii -> bool) (s : string) : bool :=
  match s with
  | EmptyString => false
  | String c s' => p c || any p s'
  end.

Definition is_empty (s : string) : bool :=
  match s with EmptyString => true | _ => false end.

(** JavaScript truthiness of a string: every string but the empty one. *)
Definition truthy (s : string) : bool := negb (is_empty s).

(** WhiteSpace and LineTerminator code units below 256, the ones
    [String.prototype.trim] removes: TAB, LF, VT, FF, CR, SP, NBSP. *)
Definition is_white_space (c : ascii) : bool :=
  in_range 9 13 c || (code c =? 32)%N || (code c =? 160)%N.

Fixpoint drop_while (p : ascii -> bool) (s : string) : string :=
  match s with
  | EmptyString => EmptyString
  | String c s' => if p c then drop_while p s' else s
  end.

Fixpoint drop_while_end (p : ascii -> bool) (s : string) : string :=
  match s with
  | EmptyString => EmptyString
  | String c s' =>
      let r := drop_while_end p s' in
      if p c && is_empty r then EmptyString else String c r
  end.

Definition trim (s : string) : string :=
  drop_while_end is_white_space (drop_while is_white_space s).

Fixpoint starts_with (p s : string) : bool :=
  match p, s with
  | EmptyString, _ => true
  | String a p', String b s' => Ascii.eqb a b && starts_with p' s'
  | String _ _, EmptyString => false
  end.

(** [s] without its first [n] characters. *)
Fixpoint drop (n : nat) (s : string) : string :=
  match n, s with
  | O, _ => s
  | S k, String _ s' => drop k s'
  | S _, EmptyString => EmptyString
  end.

(** [s.split(sep)] for a one-character separator.  The result is never
    empty: the empty string splits into one empty piece. *)
Fixpoint split (sep : ascii) (s : string) : list string :=
  match s with
  | EmptyString => [EmptyString]
  | String c s' =>
      if Ascii.eqb c sep then EmptyString :: split sep s'
      else match split sep s' with
           | [] => [String c EmptyString]
           | p :: ps => String c p :: ps
           end
  end.

(** [arr.filter(Boolean)] on an array of strings. *)
Definition filter_Boolean (l : list string) : list string :=
  filter truthy l.

(** [arr.join(sep)] on an array of strings. *)
Fixpoint join (sep : string) (l : list string) : string :=
  match l with
  | [] => EmptyString
  | [x] => x
  | x :: xs => x ++ sep ++ join sep xs
  end.

(** [String(n)] for an integer. *)
Definition string_of_Z (n : Z) : string :=
  NilZero.string_of_int (Z.to_int n).

Definition string_of_N (n : N) : string :=
  NilZero.string_of_uint (N.to_uint n).

End JS.

(* ================================================================== *)
(** * 2. Regular expressions                                           *)
(* ================================================================== *)

(** The fragment of ECMAScript regular expressions that [server.mjs]
    uses: literal characters, character classes given by ranges, the
    capturing group [(atom+)], the anchors [^] and [$] and the flag [i].
    Matching is the backtracking semantics of the language
    specification: a [+] is greedy and gives characters back while the
    rest of the pattern fails. *)
Module RegExp.

Inductive atom : Type :=
| Lit (c : ascii)
| Class (ranges : list (ascii * ascii)).

Inductive item : Type :=
| One (a : atom)
| GroupPlus (a : atom).

Record regex : Type := mkRegex {
  anchor_start : bool;
  items : list item;
  anchor_end : bool;
  ignore_case : bool
}.

(** [Canonicalize] of the language specification without the [u] flag:
    the upper-case form of the code unit, unless that form is longer than
    one unit or would move a non-ASCII unit into ASCII. Code units are
    below 256 here; two of them have capitals outside that range. *)
Definition Canonicalize (ic : bool) (c : ascii) : N :=
  let n := JS.code c in
  if negb ic then n
  else if JS.is_lower c then (n - 32)%N
  else if JS.in_range 224 254 c && negb (n =? 247)%N then (n - 32)%N
  else if (n =? 181)%N then 924%N
  else if (n =? 255)%N then 376%N
  else n.

Fixpoint chars_between (lo : N) (count : nat) : list ascii :=
  match count with
  | O => []
  | S k => ascii_of_N lo :: chars_between (lo + 1) k
  end.

Definition range_chars (r : ascii * ascii) : list ascii :=
  let lo := JS.code (fst r) in
  let hi := JS.code (snd r) in
  chars_between lo (N.to_nat (hi + 1 - lo)).

Definition atom_chars (a : atom) : list ascii :=
  match a with
  | Lit c => [c]
  | Class rs => flat_map range_chars rs
  end.

(** A character matches an atom when its canonical form is the canonical
    form of a member of the atom's character set. *)
Definition atom_match (ic : bool) (a : atom) (c : ascii) : bool :=
  existsb (fun m => (Canonicalize ic m =? Canonicalize ic c)%N) (atom_chars a).

(** Greedy [(a+)] followed by the continuation [k]: the longest run is
    tried first. [acc] is the text the group has consumed so far. A
    successful match gives the captures and the text left after it. *)
Fixpoint plus_match (ic : bool) (a : atom)
    (k : string -> option (list string * string)) (acc : string) (s : string)
  : option (list string * string) :=
  match s with
  | EmptyString => None
  | String c s' =>
      if atom_match ic a c then
        let acc' := acc ++ String c EmptyString in
        match plus_match ic a k acc' s' with
        | Some m => Some m
        | None =>
            match k s' with
            | Some (caps, rest) => Some (acc' :: caps, rest)
            | None => None
            end
        end
      else None
  end.

(** Match the items at the start of [s]. *)
Fixpoint match_items (ic at_end : bool) (its : list item)
  : string -> option (list string * string) :=
  match its with
  | [] => fun s => if at_end && negb (JS.is_empty s) then None else Some ([], s)
  | One a :: rest => fun s =>
      match s with
      | EmptyString => None
      | String c s' =>
          if atom_match ic a c then match_items ic at_end rest s' else None
      end
  | GroupPlus a :: rest => plus_match ic a (match_items ic at_end rest) EmptyString
  end.

(** The match array: the matched text at index 0, then the captures. *)
Definition match_array (s : string) (m : list string * string) : list string :=
  substring 0 (String.length s - String.length (snd m)) s :: fst m.

Definition match_here (r : regex) (s : string) : option (list string) :=
  option_map (match_array s)
    (match_items (ignore_case r) (anchor_end r) (items r) s).

Fixpoint search (r : regex) (s : string) : option (list string) :=
  match match_here r s with
  | Some arr => Some arr
  | None =>
      match s with
      | EmptyString => None
      | String _ s' => search r s'
      end
  end.

(** [RegExp.prototype.exec] without the [g] flag, which is also
    [String.prototype.match]: the match array of the leftmost match. *)
Definition exec (r : regex) (s : string) : option (list string) :=
  if anchor_start r then match_here r s else search r s.

(** [RegExp.prototype.test]. *)
Definition test (r : regex) (s : string) : bool :=
  match exec r s with Some _ => true | None => false end.

Fixpoint lits (s : string) : list item :=
  match s with
  | EmptyString => []
  | String c s' => One (Lit c) :: lits s'
  end.

End RegExp.

(* ================================================================== *)
(** * 3. The platform's [URL] constructor                              *)
(* ================================================================== *)

(** [new URL(input)] without a base, after the basic URL parser of the
    URL Standard, as far as [url.hostname] and [url.pathname] depend on
    it (user info, port value, query and fragment are parsed for their
    failures and dropped).  [None] is the [TypeError] the constructor
    throws.  The state machine of the standard is written as one function
    per state.

    One part is a parameter, [host_ext]: the host parser on the hosts
    that need tables this file does not carry, which are IPv6 literals
    (a leading bracket) and, for special schemes, domains with a non-ASCII
    code unit, a percent sign or a Punycode label ([xn--]).  Every other
    host is parsed here. *)
Module WHATWG.

Import JS.

Record URL : Type := mkURL { hostname : string; pathname : string }.

Definition is_char (x : string) (c : ascii) : bool :=
  match x with
  | String d EmptyString => Ascii.eqb c d
  | _ => false
  end.

Definition is_c0_control_or_space (c : ascii) : bool := (code c <=? 32)%N.

Definition is_tab_or_newline (c : ascii) : bool :=
  (code c =? 9)%N || (code c =? 10)%N || (code c =? 13)%N.

Fixpoint remove (p : ascii -> bool) (s : string) : string :=
  match s with
  | EmptyString => EmptyString
  | String c s' => if p c then remove p s' else String c (remove p s')
  end.

Definition preprocess (input : string) : string :=
  remove is_tab_or_newline
    (drop_while_end is_c0_control_or_space
       (drop_while is_c0_control_or_space input)).

(** ** Scheme *)

Definition is_scheme_char (c : ascii) : bool :=
  is_alnum c || is_char "+" c || is_char "-" c || is_char "." c.

Fixpoint scheme_state (s : string) : option (string * string) :=
  match s with
  | EmptyString => None
  | String c s' =>
      if is_scheme_char c then
        match scheme_state s' with
        | Some (sch, rest) => Some (String (ascii_lower_char c) sch, rest)
        | None => None
        end
      else if is_char ":" c then Some (EmptyString, s')
      else None
  end.

Definition scheme_start_state (s : string) : option (string * string) :=
  match s with
  | EmptyString => None
  | String c s' =>
      if is_alpha c then
        match scheme_state s' with
        | Some (sch, rest) => Some (String (ascii_lower_char c) sch, rest)
        | None => None
        end
      else None
  end.

Definition special_schemes : list string :=
  ["ftp"; "file"; "http"; "https"; "ws"; "wss"].

Definition is_special (scheme : string) : bool :=
  existsb (String.eqb scheme) special_schemes.

(** ** Percent-encoding *)

(** The percent-encode sets are those of the current URL Standard; the
    caret is in the path set. In an opaque path a space is kept as it
    is. *)

Definition hex_digit (n : N) : ascii :=
  if (n <? 10)%N then ascii_of_N (48 + n) else ascii_of_N (55 + n).

Definition percent_byte (n : N) : string :=
  String "%" (String (hex_digit (n / 16)) (String (hex_digit (n mod 16)) EmptyString)).

Definition c0_control_set (c : ascii) : bool :=
  (code c <=? 31)%N || (126 <? code c)%N.

Definition query_set (c : ascii) : bool :=
  c0_control_set c || is_char " " c || (code c =? 34)%N || is_char "#" c
  || is_char "<" c || is_char ">" c.

Definition path_set (c : ascii) : bool :=
  query_set c || is_char "?" c || is_char "^" c || is_char "`" c
  || is_char "{" c || is_char "}" c.

(** UTF-8 percent-encode one code point below 256. *)
Definition percent_encode_char (in_set : ascii -> bool) (c : ascii) : string :=
  if in_set c then
    let n := code c in
    if (n <? 128)%N then percent_byte n
    else percent_byte (192 + n / 64) ++ percent_byte (128 + n mod 64)
  else String c EmptyString.

Fixpoint percent_encode (in_set : ascii -> bool) (s : string) : string :=
  match s with
  | EmptyString => EmptyString
  | String c s' => percent_encode_char in_set c ++ percent_encode in_set s'
  end.

(** ** Hosts *)

Definition forbidden_host_code_point (c : ascii) : bool :=
  existsb (N.eqb (code c))
    [0; 9; 10; 13; 32; 35; 47; 58; 60; 62; 63; 64; 91; 92; 93; 94; 124]%N.

Definition forbidden_domain_code_point (c : ascii) : bool :=
  forbidden_host_code_point c || (code c <=? 31)%N
  || is_char "%" c || (code c =? 127)%N.

Definition digit_value (radix : N) (c : ascii) : option N :=
  let v :=
    if is_digit c then Some (code c - 48)%N
    else if in_range 65 70 c then Some (code c - 55)%N
    else if in_range 97 102 c then Some (code c - 87)%N
    else None in
  match v with
  | Some n => if (n <? radix)%N then Some n else None
  | None => None
  end.

Fixpoint parse_radix (radix acc : N) (s : string) : option N :=
  match s with
  | EmptyString => Some acc
  | String c s' =>
      match digit_value radix c with
      | Some v => parse_radix radix (acc * radix + v) s'
      | None => None
      end
  end.

Definition ipv4_number (s : string) : option N :=
  match s with
  | EmptyString => None
  | String c1 (String c2 rest) =>
      if is_char "0" c1 && (is_char "x" c2 || is_char "X" c2)
      then parse_radix 16 0 rest
      else if is_char "0" c1 then parse_radix 8 0 (String c2 rest)
      else parse_radix 10 0 s
  | _ => parse_radix 10 0 s
  end.

(** The parts of a dotted host with one empty last part dropped. *)
Definition dotted_parts (always_keep_one : bool) (s : string) : option (list string) :=
  let parts := split "." s in
  if is_empty (List.last parts EmptyString) then
    if (Nat.eqb (List.length parts) 1) then
      if always_keep_one then Some parts else None
    else Some (List.removelast parts)
  else Some parts.

Definition ends_in_a_number (s : string) : bool :=
  match dotted_parts false s with
  | None => false
  | Some parts =>
      let l := List.last parts EmptyString in
      (negb (is_empty l) && all is_digit l)
      || match ipv4_number l with Some _ => true | None => false end
  end.

Fixpoint ipv4_sum (numbers : list N) (counter : nat) : N :=
  match numbers with
  | [] => 0
  | n :: r => (n * 256 ^ (3 - N.of_nat counter) + ipv4_sum r (S counter))%N
  end.

Definition ipv4_parse (s : string) : option N :=
  match dotted_parts true s with
  | None => None
  | Some parts =>
      if (4 <? List.length parts)%nat then None
      else
        match all_some (map ipv4_number parts) with
        | None => None
        | Some numbers =>
            let lst := List.last numbers 0%N in
            let init := List.removelast numbers in
            if existsb (fun n => (255 <? n)%N) init then None
            else if (256 ^ (5 - N.of_nat (List.length numbers)) <=? lst)%N then None
            else Some (lst + ipv4_sum init 0)%N
        end
  end.

Definition ipv4_serialize (n : N) : string :=
  string_of_N (n / 16777216) ++ "." ++ string_of_N ((n / 65536) mod 256)
  ++ "." ++ string_of_N ((n / 256) mod 256) ++ "." ++ string_of_N (n mod 256).

Definition starts_with_xn (label : string) : bool :=
  String.eqb (ascii_lowercase (substring 0 4 label)) "xn--".

Definition plain_domain (s : string) : bool :=
  all (fun c => (code c <? 128)%N) s
  && negb (any (is_char "%") s)
  && negb (existsb starts_with_xn (split "." s)).

Definition domain_parse (s : string) : option string :=
  let d := ascii_lowercase s in
  if is_empty d then None
  else if any forbidden_domain_code_point d then None
  else if ends_in_a_number d then option_map ipv4_serialize (ipv4_parse d)
  else Some d.

Definition opaque_host_parse (s : string) : option string :=
  if any forbidden_host_code_point s then None
  else Some (percent_encode c0_control_set s).

Section Parser.

(** The host parser of the platform on the hosts described above; the
    flag is [isOpaque]. The result is the serialised host. *)
Variable host_ext : bool -> string -> option string.

Definition host_parse (isOpaque : bool) (input : string) : option string :=
  if starts_with "[" input then host_ext isOpaque input
  else if isOpaque then opaque_host_parse input
  else if plain_domain input then domain_parse input
  else host_ext false input.

(** ** Paths *)

Definition is_slash (special : bool) (c : ascii) : bool :=
  is_char "/" c || (special && is_char "\" c).

Definition is_authority_end (special : bool) (c : ascii) : bool :=
  is_slash special c || is_char "?" c || is_char "#" c.

Definition is_single_dot (buf : string) : bool :=
  existsb (String.eqb (ascii_lowercase buf)) ["."; "%2e"].

Definition is_double_dot (buf : string) : bool :=
  existsb (String.eqb (ascii_lowercase buf)) [".."; ".%2e"; "%2e."; "%2e%2e"].

Definition is_windows_drive_letter (buf : string) : bool :=
  match buf with
  | String a (String b EmptyString) => is_alpha a && (is_char ":" b || is_char "|" b)
  | _ => false
  end.

Definition is_normalized_drive_letter (buf : string) : bool :=
  match buf with
  | String a (String b EmptyString) => is_alpha a && is_char ":" b
  | _ => false
  end.

Definition normalize_drive_letter (buf : string) : string :=
  match buf with
  | String a _ => String a ":"
  | EmptyString => EmptyString
  end.

Definition shorten (file : bool) (path : list string) : list string :=
  match path with
  | [p] => if file && is_normalized_drive_letter p then path else []
  | _ => List.removelast path
  end.

(** What the path state does with [buf] when it meets the end of a
    segment; [at_slash] tells whether the segment ended at a slash. *)
Definition end_segment (file : bool) (path : list string) (buf : string)
    (at_slash : bool) : list string :=
  if is_double_dot buf then
    let p := shorten file path in
    if at_slash then p else p ++ [EmptyString]
  else if is_single_dot buf then
    if at_slash then path else path ++ [EmptyString]
  else
    let b := if file && Nat.eqb (List.length path) 0 && is_windows_drive_letter buf
             then normalize_drive_letter buf else buf in
    path ++ [b].

Fixpoint path_state (special file : bool) (path : list string) (buf : string)
    (s : string) : list string :=
  match s with
  | EmptyString => end_segment file path buf false
  | String c s' =>
      if is_slash special c
      then path_state special file (end_segment file path buf true) EmptyString s'
      else if is_char "?" c || is_char "#" c
      then end_segment file path buf false
      else path_state special file path (buf ++ percent_encode_char path_set c) s'
  end.

Definition path_start_state (special file : bool) (s : string) : list string :=
  match s with
  | EmptyString =>
      if special then path_state special file [] EmptyString EmptyString else []
  | String c s' =>
      if special then
        if is_slash true c then path_state special file [] EmptyString s'
        else path_state special file [] EmptyString s
      else if is_char "?" c || is_char "#" c then []
      else if is_char "/" c then path_state special file [] EmptyString s'
      else path_state special file [] EmptyString s
  end.

Fixpoint opaque_path_state (s : string) : string :=
  match s with
  | EmptyString => EmptyString
  | String c s' =>
      if is_char "?" c || is_char "#" c then EmptyString
      else percent_encode_char c0_control_set c ++ opaque_path_state s'
  end.

Fixpoint serialize_path (path : list string) : string :=
  match path with
  | [] => EmptyString
  | seg :: r => "/" ++ seg ++ serialize_path r
  end.

(** ** Authority *)

(** The text before the first character that satisfies [p], and the rest
    from that character on. *)
Fixpoint break_at (p : ascii -> bool) (s : string) : string * string :=
  match s with
  | EmptyString => (EmptyString, EmptyString)
  | String c s' =>
      if p c then (EmptyString, s)
      else let (a, b) := break_at p s' in (String c a, b)
  end.

(** The authority after its last [@], and whether there was one. *)
Fixpoint after_last_at (s : string) : bool * string :=
  match s with
  | EmptyString => (false, EmptyString)
  | String c s' =>
      let (seen, r) := after_last_at s' in
      if seen then (true, r)
      else if is_char "@" c then (true, s')
      else (false, String c r)
  end.

(** The host buffer up to the first colon outside brackets, and the port
    text after that colon when there is one. *)
Fixpoint host_scan (inside : bool) (s : string) : string * option string :=
  match s with
  | EmptyString => (EmptyString, None)
  | String c s' =>
      if is_char ":" c && negb inside then (EmptyString, Some s')
      else
        let inside' := if is_char "[" c then true
                       else if is_char "]" c then false else inside in
        let (h, p) := host_scan inside' s' in (String c h, p)
  end.

Definition port_ok (port : string) : bool :=
  all is_digit port
  && match parse_radix 10 0 port with
     | Some n => (n <=? 65535)%N
     | None => false
     end.

Definition host_state (special : bool) (hostport : string) : option string :=
  match host_scan false hostport with
  | (buf, Some port) =>
      if is_empty buf then None
      else match host_parse (negb special) buf with
           | Some h => if port_ok port then Some h else None
           | None => None
           end
  | (buf, None) =>
      if special && is_empty buf then None
      else host_parse (negb special) buf
  end.

Definition authority_state (special : bool) (s : string) : option URL :=
  let (auth, rest) := break_at (is_authority_end special) s in
  let (seen, hostport) := after_last_at auth in
  if seen && is_empty hostport then None
  else
    match host_state special hostport with
    | Some h => Some (mkURL h (serialize_path (path_start_state special false rest)))
    | None => None
    end.

(** ** The [file] scheme *)

Definition file_host_state (s : string) : option URL :=
  let (buf, rest) := break_at (is_authority_end true) s in
  if is_windows_drive_letter buf
  then Some (mkURL EmptyString (serialize_path (path_state true true [] buf rest)))
  else if is_empty buf
  then Some (mkURL EmptyString (serialize_path (path_start_state true true rest)))
  else
    match host_parse false buf with
    | Some h =>
        Some (mkURL (if String.eqb h "localhost" then EmptyString else h)
                    (serialize_path (path_start_state true true rest)))
    | None => None
    end.

Definition file_state (s : string) : option URL :=
  let path_only r :=
    Some (mkURL EmptyString (serialize_path (path_state true true [] EmptyString r))) in
  match s with
  | String c1 s1 =>
      if is_slash true c1 then
        match s1 with
        | String c2 s2 => if is_slash true c2 then file_host_state s2 else path_only s1
        | EmptyString => path_only s1
        end
      else path_only s
  | EmptyString => path_only s
  end.

(** ** The constructor *)

Definition URL_new (input : string) : option URL :=
  match scheme_start_state (preprocess input) with
  | None => None
  | Some (scheme, rest) =>
      if String.eqb scheme "file" then file_state rest
      else if is_special scheme
      then authority_state true (drop_while (is_slash true) rest)
      else if starts_with "//" rest
      then authority_state false (drop 2 rest)
      else if starts_with "/" rest
      then Some (mkURL EmptyString
                   (serialize_path
                      (path_state false false [] EmptyString (drop 1 rest))))
      else Some (mkURL EmptyString (opaque_path_state rest))
  end.

End Parser.

End WHATWG.

(* ================================================================== *)
(** * 4. Values, upstream data and the world                           *)
(* ================================================================== *)

Definition bytes : Type := list Byte.byte.

(** A JSON value where the server expects a number: the property is
    absent, [null], or an integer. *)
Inductive JSValue : Type :=
| Undefined
| Null
| Number (n : Z).

(** The result of the coercion [Number(v)]. *)
Inductive JSNumber : Type :=
| NaN
| Num (n : Z).

Definition ToNumber (v : JSValue) : JSNumber :=
  match v with
  | Undefined => NaN
  | Null => Num 0
  | Number n => Num n
  end.

(** [x === n] for a number [x] and an integer literal [n]. *)
Definition strict_equals (x : JSNumber) (n : Z) : bool :=
  match x with
  | NaN => false
  | Num m => (m =? n)%Z
  end.

(** [x || d] for a number [x]: [NaN] and [0] are falsy. *)
Definition number_or (x : JSNumber) (d : Z) : Z :=
  match x with
  | NaN => d
  | Num n => if (n =? 0)%Z then d else n
  end.

(** [v || d] for a JSON value [v] then used as a number. *)
Definition value_or (v : JSValue) (d : Z) : Z :=
  match v with
  | Number n => if (n =? 0)%Z then d else n
  | _ => d
  end.

(** Truthiness of a string that may be absent. *)
Definition truthy (o : option string) : bool :=
  match o with
  | Some s => JS.truthy s
  | None => false
  end.

(** A value inside a template literal. *)
Definition template (o : option string) : string :=
  match o with
  | Some s => s
  | None => "undefined"
  end.

Definition template_value (v : JSValue) : string :=
  match v with
  | Undefined => "undefined"
  | Null => "null"
  | Number n => JS.string_of_Z n
  end.

(** [a || b] on strings that may be absent. *)
Definition string_or (a : option string) (b : string) : string :=
  match a with
  | Some s => if JS.truthy s then s else b
  | None => b
  end.

(** [haystack.includes(needle)]. *)
Fixpoint includes (needle haystack : string) : bool :=
  JS.starts_with needle haystack
  || match haystack with
     | EmptyString => false
     | String _ h => includes needle h
     end.

(** [Buffer.from(s).toString('base64')]: the UTF-8 bytes of [s] in
    base 64. *)
Definition utf8_bytes (s : string) : list N :=
  flat_map (fun c => let n := JS.code c in
                     if (n <? 128)%N then [n]
                     else [192 + n / 64; 128 + n mod 64]%N)
           (list_ascii_of_string s).

Definition base64_char (n : N) : ascii :=
  if (n <? 26)%N then ascii_of_N (65 + n)
  else if (n <? 52)%N then ascii_of_N (71 + n)
  else if (n <? 62)%N then ascii_of_N (n - 4)
  else if (n =? 62)%N then "+"%char else "/"%char.

Fixpoint base64 (bs : list N) : string :=
  match bs with
  | [] => EmptyString
  | [a] =>
      String (base64_char (a / 4))
        (String (base64_char ((a mod 4) * 16)) "==")
  | [a; b] =>
      String (base64_char (a / 4))
        (String (base64_char ((a mod 4) * 16 + b / 16))
           (String (base64_char ((b mod 16) * 4)) "="))
  | a :: b :: c :: r =>
      String (base64_char (a / 4))
        (String (base64_char ((a mod 4) * 16 + b / 16))
           (String (base64_char ((b mod 16) * 4 + c / 64))
              (String (base64_char (c mod 64)) (base64 r))))
  end.

(** A thrown [Error] carries its message. *)
Inductive Result (A : Type) : Type :=
| Ok (a : A)
| Throw (message : string).

Arguments Ok {A} a.
Arguments Throw {A} message.

(** ** Upstream JSON *)

Module Image.
Record t : Type := mk { url : string; width : JSValue; height : JSValue }.
End Image.

Module Artist.
Record t : Type := mk { name : string }.
End Artist.

Module Album.
Record t : Type := mk { images : option (list (option Image.t)) }.
End Album.

Module Owner.
Record t : Type := mk { display_name : option string }.
End Owner.

Module Show.
Record t : Type := mk { name : option string }.
End Show.

(** The object [resp.json()] resolves to, with the properties the server
    reads; [None] and [Undefined] are absent properties. *)
Module Data.
Record t : Type := mk {
  access_token : option string;
  expires_in : JSValue;
  name : option string;
  artists : option (list Artist.t);
  album : option Album.t;
  images : option (list (option Image.t));
  owner : option Owner.t;
  show : option Show.t
}.
End Data.

(** ** [fetch] *)

Inductive RequestBody : Type :=
| NoBody
| TextBody (text : string)
| FormFile (field filename type : string) (content : bytes).

Module Request.
Record t : Type := mk {
  url : string;
  method : string;
  headers : list (string * string);
  body : RequestBody
}.
End Request.

(** A response: [ok] and [status], the [content-type] header, and what
    reading the body as text, as JSON and as an array buffer gives. A body
    that is not a JSON object makes [json], or the first property read
    after it, throw; [Throw] stands for both. *)
Module Response.
Record t : Type := mk {
  ok : bool;
  status : Z;
  content_type : option string;
  text : Result string;
  json : Result Data.t;
  arrayBuffer : Result bytes
}.
End Response.

(** What a call of [fetch] ends with, and the milliseconds it took. *)
Record Reply : Type := mkReply {
  outcome : Result Response.t;
  latency : N
}.

(** ** The process *)

Module Env.
Record t : Type := mk {
  SPOTIFY_CLIENT_ID : option string;
  SPOTIFY_CLIENT_SECRET : option string;
  CUTOUT_API_KEY : option string;
  CUTOUT_ENHANCE_ENDPOINT : option string
}.
End Env.

Module TokenCache.
Record t : Type := mk { accessToken : option string; expiresAt : Z }.
End TokenCache.

(** [let tokenCache = { accessToken: null, expiresAt: 0 }]. *)
Definition initial_tokenCache : TokenCache.t := TokenCache.mk None 0.

(** The state a handler runs in: [process.env], the token cache, the
    clock in milliseconds, the network and the image library as oracles,
    and the history of requests sent and lines logged. *)
Record World : Type := mkWorld {
  env : Env.t;
  tokenCache : TokenCache.t;
  Date_now : Z;
  network : Request.t -> Reply;
  sharp_resize_jpeg : bytes -> Z -> bool -> Result bytes;
  requests : list Request.t;
  console : list string
}.

Definition M (A : Type) : Type := World -> Result A * World.

Definition ret {A : Type} (a : A) : M A := fun w => (Ok a, w).

Definition throw {A : Type} (message : string) : M A := fun w => (Throw message, w).

Definition bind {A B : Type} (m : M A) (k : A -> M B) : M B :=
  fun w =>
    match m w with
    | (Ok a, w') => k a w'
    | (Throw e, w') => (Throw e, w')
    end.

Notation "x <- m ;; k" := (bind m (fun x => k))
  (at level 61, m at next level, right associativity).
Notation "m ;;; k" := (bind m (fun _ => k))
  (at level 61, right associativity).

(** [try { m } catch (e) { handler e.message }]. *)
Definition try_catch {A : Type} (m : M A) (handler : string -> M A) : M A :=
  fun w =>
    match m w with
    | (Ok a, w') => (Ok a, w')
    | (Throw e, w') => handler e w'
    end.

(** Awaiting a promise whose outcome is known. *)
Definition await {A : Type} (r : Result A) : M A := fun w => (r, w).

Definition get_env : M Env.t := fun w => (Ok (env w), w).

Definition get_tokenCache : M TokenCache.t := fun w => (Ok (tokenCache w), w).

Definition set_tokenCache (c : TokenCache.t) : M unit :=
  fun w => (Ok tt, mkWorld (env w) c (Date_now w) (network w)
                     (sharp_resize_jpeg w) (requests w) (console w)).

Definition get_Date_now : M Z := fun w => (Ok (Date_now w), w).

Definition console_log (line : string) : M unit :=
  fun w => (Ok tt, mkWorld (env w) (tokenCache w) (Date_now w) (network w)
                     (sharp_resize_jpeg w) (requests w) (console w ++ [line])).

Definition fetch (rq : Request.t) : M Response.t :=
  fun w =>
    let reply := network w rq in
    (outcome reply,
     mkWorld (env w) (tokenCache w) (Date_now w + Z.of_N (latency reply))
       (network w) (sharp_resize_jpeg w) (requests w ++ [rq]) (console w)).

Definition sharp (buf : bytes) (quality : Z) (progressive : bool) : M bytes :=
  fun w => (sharp_resize_jpeg w buf quality progressive, w).

(* ================================================================== *)
(** * 5. [server.mjs]                                                  *)
(* ================================================================== *)

Module Link.
Record t : Type := mk { type : string; id : string }.
End Link.

Module Resource.
Record t : Type := mk {
  title : option string;
  byline : option string;
  type : string;
  images : list (option Image.t)
}.
End Resource.

(** What a handler sends: a JSON error object, the JSON cover object, or
    the JPEG bytes. *)
Inductive Payload : Type :=
| ErrorJSON (error : string) (details : option string)
| CoverJSON (id type : string) (title byline : option string)
            (images : list (option Image.t))
| Binary (content : bytes).

(** The response of a handler; [headers] lists the ones the handler sets
    by name. *)
Record HttpResponse : Type := mkHttpResponse {
  statusCode : Z;
  headers : list (string * string);
  payload : Payload
}.

Definition json_response (code : Z) (p : Payload) : HttpResponse :=
  mkHttpResponse code [] p.

(** ** Token cache *)

Definition nowSeconds : M Z :=
  ms <- get_Date_now ;; ret (ms / 1000)%Z.

Definition token_request (client_id client_secret : string) : Request.t :=
  let body := "grant_type=client_credentials" in
  let basic := base64 (utf8_bytes (client_id ++ ":" ++ client_secret)) in
  Request.mk "https://accounts.spotify.com/api/token" "POST"
    [("Authorization", "Basic " ++ basic);
     ("Content-Type", "application/x-www-form-urlencoded")]
    (TextBody body).

Definition getAccessToken : M (option string) :=
  cache <- get_tokenCache ;;
  now <- nowSeconds ;;
  if truthy (TokenCache.accessToken cache)
     && (TokenCache.expiresAt cache - 30 >? now)%Z
  then ret (TokenCache.accessToken cache)
  else
    e <- get_env ;;
    if negb (truthy (Env.SPOTIFY_CLIENT_ID e))
       || negb (truthy (Env.SPOTIFY_CLIENT_SECRET e))
    then throw "Missing SPOTIFY_CLIENT_ID or SPOTIFY_CLIENT_SECRET in .env"
    else
      resp <- fetch (token_request (template (Env.SPOTIFY_CLIENT_ID e))
                                   (template (Env.SPOTIFY_CLIENT_SECRET e))) ;;
      if negb (Response.ok resp) then
        text <- await (Response.text resp) ;;
        throw ("Token request failed: " ++ JS.string_of_Z (Response.status resp)
               ++ " " ++ text)
      else
        data <- await (Response.json resp) ;;
        now' <- nowSeconds ;;
        set_tokenCache
          (TokenCache.mk (Data.access_token data)
                         (now' + value_or (Data.expires_in data) 3600)%Z) ;;;
        cache' <- get_tokenCache ;;
        ret (TokenCache.accessToken cache').

(** ** Resource fetcher *)

Definition fetchJSON (url : string) (accessToken : option string) : M Data.t :=
  r <- fetch (Request.mk url "GET"
                [("Authorization", "Bearer " ++ template accessToken)] NoBody) ;;
  if negb (Response.ok r) then
    txt <- await (Response.text r) ;;
    throw ("Spotify API error: " ++ JS.string_of_Z (Response.status r) ++ " " ++ txt)
  else await (Response.json r).

(** [img?.width] and [img?.height]. *)
Definition width_of (img : option Image.t) : JSValue :=
  match img with Some i => Image.width i | None => Undefined end.

Definition height_of (img : option Image.t) : JSValue :=
  match img with Some i => Image.height i | None => Undefined end.

Definition only640 (imgs : option (list (option Image.t))) : list (option Image.t) :=
  filter (fun img => strict_equals (ToNumber (width_of img)) 640
                     && strict_equals (ToNumber (height_of img)) 640)
         (match imgs with Some l => l | None => [] end).

(** [d.artists?.map(a => a.name).join(', ')]. *)
Definition artist_names (d : Data.t) : option string :=
  option_map (fun l => JS.join ", " (map Artist.name l)) (Data.artists d).

(** [d.album?.images]. *)
Definition album_images (d : Data.t) : option (list (option Image.t)) :=
  match Data.album d with
  | Some a => Album.images a
  | None => None
  end.

(** [d.owner?.display_name]. *)
Definition owner_display_name (d : Data.t) : option string :=
  match Data.owner d with
  | Some o => Owner.display_name o
  | None => None
  end.

(** [d.show?.name]. *)
Definition show_name (d : Data.t) : option string :=
  match Data.show d with
  | Some s => Show.name s
  | None => None
  end.

Definition api_base : string := "https://api.spotify.com/v1".

Definition getImagesFor (type id : string) : M Resource.t :=
  token <- getAccessToken ;;
  let base := api_base in
  if String.eqb type "track" then
    d <- fetchJSON (base ++ "/tracks/" ++ id) token ;;
    ret (Resource.mk (Data.name d) (artist_names d) "track"
           (only640 (album_images d)))
  else if String.eqb type "album" then
    d <- fetchJSON (base ++ "/albums/" ++ id) token ;;
    ret (Resource.mk (Data.name d) (artist_names d) "album"
           (only640 (Data.images d)))
  else if String.eqb type "artist" then
    d <- fetchJSON (base ++ "/artists/" ++ id) token ;;
    ret (Resource.mk (Data.name d) (Some "Artist") "artist"
           (only640 (Data.images d)))
  else if String.eqb type "playlist" then
    d <- fetchJSON (base ++ "/playlists/" ++ id) token ;;
    ret (Resource.mk (Data.name d)
           (Some (if truthy (owner_display_name d)
                  then "By " ++ template (owner_display_name d)
                  else "Playlist"))
           "playlist" (only640 (Data.images d)))
  else if String.eqb type "episode" then
    d <- fetchJSON (base ++ "/episodes/" ++ id) token ;;
    ret (Resource.mk (Data.name d)
           (Some (if truthy (show_name d)
                  then "From " ++ template (show_name d)
                  else "Episode"))
           "episode" (only640 (Data.images d)))
  else if String.eqb type "show" then
    d <- fetchJSON (base ++ "/shows/" ++ id) token ;;
    ret (Resource.mk (Data.name d) (Some "Podcast") "show"
           (only640 (Data.images d)))
  else throw ("Unsupported type: " ++ type).

(** ** Enhance pipeline: the encoding quality *)

(** [Math.max(1, Math.min(100, Number(quality) || 95))]. *)
Definition jpeg_quality (quality : JSValue) : Z :=
  Z.max 1 (Z.min 100 (number_or (ToNumber quality) 95)).

Section Server.

Variable host_ext : bool -> string -> option string.

(** ** Link parser *)

(** [/^spotify:([a-z_]+):([A-Za-z0-9]+)$/i]. *)
Definition uri_regex : RegExp.regex :=
  RegExp.mkRegex true
    (RegExp.lits "spotify:"
     ++ [RegExp.GroupPlus (RegExp.Class [("a", "z"); ("_", "_")]%char)]
     ++ RegExp.lits ":"
     ++ [RegExp.GroupPlus (RegExp.Class [("A", "Z"); ("a", "z"); ("0", "9")]%char)])%list
    true true.

(** [/\.spotify\./]. *)
Definition host_regex : RegExp.regex :=
  RegExp.mkRegex false (RegExp.lits ".spotify.") false false.

Definition parseSpotifyLink (input : string) : option Link.t :=
  if negb (JS.truthy input) then None
  else
    let trimmed := JS.trim input in
    match RegExp.exec uri_regex trimmed with
    | Some uriMatch =>
        Some (Link.mk (JS.toLowerCase (nth 1 uriMatch EmptyString))
                      (nth 2 uriMatch EmptyString))
    | None =>
        match WHATWG.URL_new host_ext trimmed with
        | None => None
        | Some url =>
            if negb (RegExp.test host_regex (WHATWG.hostname url)) then None
            else
              let parts := JS.filter_Boolean (JS.split "/" (WHATWG.pathname url)) in
              if (2 <=? List.length parts)%nat then
                let type := JS.toLowerCase (nth 0 parts EmptyString) in
                let id := nth 1 parts EmptyString in
                let id := nth 0 (JS.split "?" id) EmptyString in
                Some (Link.mk type id)
              else None
        end
    end.

(** ** [GET /api/cover] *)

(** The line the handler logs; a [null] entry in [images] makes the
    template throw, and the inner [catch] drops the line. *)
Definition log_cover (data : Resource.t) (id : string) : M unit :=
  match all_some (Resource.images data) with
  | Some imgs =>
      let sizes :=
        JS.join ", "
          (map (fun i => template_value (Image.width i) ++ "x"
                         ++ template_value (Image.height i)) imgs) in
      console_log ("[cover] type=" ++ Resource.type data ++ " id=" ++ id
                   ++ " sizes=[" ++ sizes ++ "]")
  | None => ret tt
  end.

(** [url] is [req.query.url]. *)
Definition api_cover (url : option string) : M HttpResponse :=
  try_catch
    (match parseSpotifyLink (string_or url EmptyString) with
     | None =>
         ret (json_response 400
                (ErrorJSON "Invalid or unsupported Spotify link/URI." None))
     | Some parsed =>
         data <- getImagesFor (Link.type parsed) (Link.id parsed) ;;
         log_cover data (Link.id parsed) ;;;
         ret (json_response 200
                (CoverJSON (Link.id parsed) (Resource.type data)
                   (Resource.title data) (Resource.byline data)
                   (Resource.images data)))
     end)
    (fun e => ret (json_response 500 (ErrorJSON e None))).

End Server.

(** ** [POST /api/enhance] *)

(** [req.body]: the properties the handler reads. *)
Module EnhanceBody.
Record t : Type := mk {
  imageUrl : option string;
  endpoint : option string;
  quality : JSValue;
  progressive : option bool
}.
End EnhanceBody.

Definition default_enhance_endpoint : string :=
  "https://www.cutout.pro/api/v1/photoEnhance".

Definition double_quote : string := String (ascii_of_N 34) EmptyString.

(** [x.catch(() => '')] on the text of a response. *)
Definition text_or_empty (r : Result string) : string :=
  match r with
  | Ok s => s
  | Throw _ => EmptyString
  end.

(** Step 1: the download of the source image. *)
Definition source_request (imageUrl : string) : Request.t :=
  Request.mk imageUrl "GET" [] NoBody.

(** Steps 2 and 3: the multipart form with its [file] part, posted to the
    enhancement endpoint with the API key. *)
Definition cutout_request (endpoint api_key contentTypeIn : string)
    (arrayBuf : bytes) : Request.t :=
  let ext := if includes "png" contentTypeIn then "png" else "jpg" in
  Request.mk endpoint "POST" [("APIKEY", api_key)]
    (FormFile "file" ("input." ++ ext) contentTypeIn arrayBuf).

Definition enhance_endpoint (body : EnhanceBody.t) (e : Env.t) : string :=
  string_or (EnhanceBody.endpoint body)
    (string_or (Env.CUTOUT_ENHANCE_ENDPOINT e) default_enhance_endpoint).

(** [Boolean(progressive)]. *)
Definition progressive_flag (body : EnhanceBody.t) : bool :=
  match EnhanceBody.progressive body with
  | Some b => b
  | None => false
  end.

Definition api_enhance (body : EnhanceBody.t) : M HttpResponse :=
  try_catch
    (if negb (truthy (EnhanceBody.imageUrl body))
     then ret (json_response 400 (ErrorJSON "Missing imageUrl" None))
     else
       e <- get_env ;;
       let CUTOUT_API_KEY := Env.CUTOUT_API_KEY e in
       if negb (truthy CUTOUT_API_KEY)
       then ret (json_response 400 (ErrorJSON "Missing CUTOUT_API_KEY in .env" None))
       else
         srcResp <- fetch (source_request (template (EnhanceBody.imageUrl body))) ;;
         if negb (Response.ok srcResp) then
           let txt := text_or_empty (Response.text srcResp) in
           ret (json_response 400
                  (ErrorJSON ("Failed to fetch source image ("
                              ++ JS.string_of_Z (Response.status srcResp) ++ ")")
                             (Some txt)))
         else
           arrayBuf <- await (Response.arrayBuffer srcResp) ;;
           let contentTypeIn := string_or (Response.content_type srcResp) "image/jpeg" in
           let endpoint := enhance_endpoint body e in
           r <- fetch (cutout_request endpoint (template CUTOUT_API_KEY)
                         contentTypeIn arrayBuf) ;;
           if negb (Response.ok r) then
             let txt := text_or_empty (Response.text r) in
             ret (json_response 502
                    (ErrorJSON ("Cutout.pro error: " ++ JS.string_of_Z (Response.status r))
                               (Some txt)))
           else
             buf <- await (Response.arrayBuffer r) ;;
             let q := jpeg_quality (EnhanceBody.quality body) in
             let prog := progressive_flag body in
             resized <- sharp buf q prog ;;
             now <- get_Date_now ;;
             ret (mkHttpResponse 200
                    [("Content-Type", "image/jpeg");
                     ("Content-Length", JS.string_of_Z (Z.of_nat (List.length resized)));
                     ("Content-Disposition",
                      "attachment; filename=" ++ double_quote
                      ++ "enhanced_3000x3000_" ++ JS.string_of_Z now ++ ".jpg"
                      ++ double_quote)]
                    (Binary resized)))
    (fun e => ret (json_response 500
                     (ErrorJSON (string_or (Some e) "Enhance failed") None))).

(* ================================================================== *)
(** * 6. The vocabulary of the specification                           *)
(* ================================================================== *)

(** ** Credential cache *)

(** The client id or the client secret is missing from the
    configuration. *)
Definition credentials_absent (e : Env.t) : Prop :=
  truthy (Env.SPOTIFY_CLIENT_ID e) = false
  \/ truthy (Env.SPOTIFY_CLIENT_SECRET e) = false.

(** The recorded expiry lies more than 30 seconds after the current
    time. *)
Definition safety_margin (w : World) : Prop :=
  (Date_now w / 1000 < TokenCache.expiresAt (tokenCache w) - 30)%Z.

(** The cache holds a token whose safety margin has not run out. *)
Definition cached_token_valid (w : World) : Prop :=
  truthy (TokenCache.accessToken (tokenCache w)) = true /\ safety_margin w.

(** The lifetime the token endpoint declares, 3600 seconds by default. *)
Definition declared_lifetime (data : Data.t) : Z :=
  value_or (Data.expires_in data) 3600.

(** ** Enhance pipeline *)

(** Clamping into a closed range. *)
Definition clamp (lo hi n : Z) : Z := Z.max lo (Z.min hi n).

(** Where a run of the pipeline ends. *)
Inductive EnhanceStage : Type :=
| MissingInput
| MissingConfig
| SourceRejected
| SourceNotOk
| SourceUnreadable
| TransformRejected
| TransformNotOk
| TransformUnreadable
| ReencodeFailed
| Enhanced.

(** The stage at which the pipeline ends for a request body in a world,
    read off the configuration and the answers of the two services and of
    the image library, in the order the pipeline consults them. *)
Definition enhance_stage (body : EnhanceBody.t) (w : World) : EnhanceStage :=
  if negb (truthy (EnhanceBody.imageUrl body)) then MissingInput
  else if negb (truthy (Env.CUTOUT_API_KEY (env w))) then MissingConfig
  else
    match outcome (network w (source_request (template (EnhanceBody.imageUrl body)))) with
    | Throw _ => SourceRejected
    | Ok src =>
        if negb (Response.ok src) then SourceNotOk
        else
          match Response.arrayBuffer src with
          | Throw _ => SourceUnreadable
          | Ok arrayBuf =>
              match outcome
                      (network w
                         (cutout_request (enhance_endpoint body (env w))
                            (template (Env.CUTOUT_API_KEY (env w)))
                            (string_or (Response.content_type src) "image/jpeg")
                            arrayBuf)) with
              | Throw _ => TransformRejected
              | Ok r =>
                  if negb (Response.ok r) then TransformNotOk
                  else
                    match Response.arrayBuffer r with
                    | Throw _ => TransformUnreadable
                    | Ok buf =>
                        match sharp_resize_jpeg w buf
                                (jpeg_quality (EnhanceBody.quality body))
                                (progressive_flag body) with
                        | Throw _ => ReencodeFailed
                        | Ok _ => Enhanced
                        end
                    end
              end
          end
    end.

(** The status of the response per stage. *)
Definition stage_status (s : EnhanceStage) : Z :=
  match s with
  | MissingInput | MissingConfig | SourceNotOk => 400
  | TransformNotOk => 502
  | SourceRejected | SourceUnreadable | TransformRejected
  | TransformUnreadable | ReencodeFailed => 500
  | Enhanced => 200
  end.

(** Fetching the source image fails: the call rejects or its response is
    not a success. *)
Definition source_fetch_fails (body : EnhanceBody.t) (w : World) : Prop :=
  match outcome (network w (source_request (template (EnhanceBody.imageUrl body)))) with
  | Throw _ => True
  | Ok src => Response.ok src = false
  end.

(** ** Resource fetcher *)

(** An entry whose width and height both equal 640. *)
Definition Is640Square (img : option Image.t) : Prop :=
  exists i, img = Some i
            /\ Image.width i = Number 640 /\ Image.height i = Number 640.

Definition is_640_square (img : option Image.t) : bool :=
  match img with
  | Some i =>
      match Image.width i, Image.height i with
      | Number w, Number h => (w =? 640)%Z && (h =? 640)%Z
      | _, _ => false
      end
  | None => false
  end.

Inductive ResourceType : Type :=
| track | album | artist | playlist | episode | show.

Definition type_name (t : ResourceType) : string :=
  match t with
  | track => "track"
  | album => "album"
  | artist => "artist"
  | playlist => "playlist"
  | episode => "episode"
  | show => "show"
  end.

(** The lookup a type is fetched from. *)
Definition lookup_url (t : ResourceType) (id : string) : string :=
  api_base ++ "/" ++ type_name t ++ "s/" ++ id.

(** The byline column of the table in section 4.3, read from the fields
    of the lookup's answer: the owner's display name and the show's name
    count when they are present and not empty. *)
Definition table_byline (t : ResourceType) (d : Data.t) : option string :=
  match t with
  | track | album =>
      option_map (fun l => JS.join ", " (map Artist.name l)) (Data.artists d)
  | artist => Some "Artist"
  | playlist =>
      match Data.owner d with
      | Some (Owner.mk (Some (String c n))) => Some ("By " ++ String c n)
      | _ => Some "Playlist"
      end
  | episode =>
      match Data.show d with
      | Some (Show.mk (Some (String c n))) => Some ("From " ++ String c n)
      | _ => Some "Episode"
      end
  | show => Some "Podcast"
  end.

(** The image-source column of the same table. *)
Definition table_image_source (t : ResourceType) (d : Data.t)
  : option (list (option Image.t)) :=
  match t with
  | track => match Data.album d with
             | Some a => Album.images a
             | None => None
             end
  | _ => Data.images d
  end.

Definition table_row (t : ResourceType) (d : Data.t) : Resource.t :=
  Resource.mk (Data.name d) (table_byline t d) (type_name t)
    (only640 (table_image_source t d)).

(** ** Link resolver *)

(** The characters of a type token and of an id. *)
Definition is_type_char (c : ascii) : bool := JS.is_alpha c || WHATWG.is_char "_" c.

Definition is_id_char (c : ascii) : bool := JS.is_alnum c.

(** The characters of a compact URI with any scheme token, and those of
    a lower-case type token. *)
Definition is_compact_char (c : ascii) : bool :=
  WHATWG.is_scheme_char c || WHATWG.is_char "_" c || WHATWG.is_char ":" c.

Definition is_lower_type_char (c : ascii) : bool :=
  JS.is_lower c || WHATWG.is_char "_" c.

(** The two character classes of the compact-URI pattern. *)
Definition type_class : RegExp.atom := RegExp.Class [("a", "z"); ("_", "_")]%char.

Definition id_class : RegExp.atom :=
  RegExp.Class [("A", "Z"); ("a", "z"); ("0", "9")]%char.

(** [s] contains [needle]. *)
Definition Contains (needle s : string) : Prop :=
  exists a b, s = a ++ needle ++ b.

(** [id] is [segment] without its [?...] suffix. *)
Definition StrippedOfQuery (segment id : string) : Prop :=
  JS.any (WHATWG.is_char "?") id = false
  /\ (segment = id \/ exists q, segment = id ++ "?" ++ q).

(* ================================================================== *)
(** * 7. Sample runs                                                   *)
(* ================================================================== *)

(** A platform whose host parser rejects what the plain fragment of
    section 3 leaves to it. None of the sample links reaches it. *)
Definition host_ext_none : bool -> string -> option string := fun _ _ => None.

Definition no_network : Request.t -> Reply :=
  fun _ => mkReply (Throw "fetch failed") 0.

Definition identity_sharp : bytes -> Z -> bool -> Result bytes :=
  fun buf _ _ => Ok buf.

Definition ok_json (d : Data.t) : Response.t :=
  Response.mk true 200 (Some "application/json") (Ok EmptyString) (Ok d) (Ok []).

Definition not_found : Response.t :=
  Response.mk false 404 (Some "text/plain") (Ok "Not Found")
    (Throw "Unexpected token N in JSON") (Ok []).

(** No credentials, empty cache. *)
Definition world_no_credentials : World :=
  mkWorld (Env.mk None None None None) initial_tokenCache 1700000000123
    no_network identity_sharp [] [].

(** Credentials present, empty cache, and a token endpoint that declares
    a lifetime of ten seconds and answers after 250 ms. *)
Definition short_lived_token : Data.t :=
  Data.mk (Some "BQDshort") (Number 10) None None None None None None.

Definition world_short_lifetime : World :=
  mkWorld (Env.mk (Some "client") (Some "secret") None None) initial_tokenCache
    1700000000123
    (fun _ => mkReply (Ok (ok_json short_lived_token)) 250)
    identity_sharp [] [].

(** The same with a token endpoint that declares no lifetime. *)
Definition default_lived_token : Data.t :=
  Data.mk (Some "BQDdefault") Undefined None None None None None None.

Definition world_default_lifetime : World :=
  mkWorld (Env.mk (Some "client") (Some "secret") None None) initial_tokenCache
    1700000000123
    (fun _ => mkReply (Ok (ok_json default_lived_token)) 250)
    identity_sharp [] [].

(** A token cached with an hour to go, and a catalogue that knows one
    track. *)
Definition sample_images : list (option Image.t) :=
  [Some (Image.mk "https://i.scdn.co/image/large" (Number 640) (Number 640));
   Some (Image.mk "https://i.scdn.co/image/medium" (Number 300) (Number 300));
   Some (Image.mk "https://i.scdn.co/image/wide" (Number 640) (Number 639));
   Some (Image.mk "https://i.scdn.co/image/unsized" Null Undefined);
   None].

Definition sample_track : Data.t :=
  Data.mk None Undefined (Some "Never Gonna Give You Up")
    (Some [Artist.mk "Rick Astley"; Artist.mk "Guest"])
    (Some (Album.mk (Some sample_images))) None None None.

Definition world_cached : World :=
  mkWorld (Env.mk (Some "client") (Some "secret") None None)
    (TokenCache.mk (Some "BQDcached") 1700003600) 1700000000123
    (fun _ => mkReply (Ok (ok_json sample_track)) 80)
    identity_sharp [] [].

(** The same cache and a catalogue whose track has no 640x640 image. *)
Definition sample_track_small : Data.t :=
  Data.mk None Undefined (Some "Demo") (Some [Artist.mk "Nobody"])
    (Some (Album.mk (Some
       [Some (Image.mk "https://i.scdn.co/image/small" (Number 64) (Number 64));
        Some (Image.mk "https://i.scdn.co/image/tall" (Number 640) (Number 641))])))
    None None None.

Definition world_cached_small : World :=
  mkWorld (Env.mk (Some "client") (Some "secret") None None)
    (TokenCache.mk (Some "BQDcached") 1700003600) 1700000000123
    (fun _ => mkReply (Ok (ok_json sample_track_small)) 80)
    identity_sharp [] [].

(** An enhance request whose source image is answered with 404. *)
Definition enhance_body : EnhanceBody.t :=
  EnhanceBody.mk (Some "https://i.scdn.co/image/gone") None (Number 0) None.

Definition world_source_404 : World :=
  mkWorld (Env.mk None None (Some "cutout-key") None) initial_tokenCache
    1700000000123 (fun _ => mkReply (Ok not_found) 40) identity_sharp [] [].

(** An enhance request with the quality 0, in a world where both services
    answer and the image library returns the quality it was called with
    as its one byte. *)
Definition ok_image : Response.t :=
  Response.mk true 200 (Some "image/jpeg") (Ok EmptyString)
    (Throw "Unexpected token in JSON") (Ok []).

Definition quality_probe : bytes -> Z -> bool -> Result bytes :=
  fun _ q _ =>
    match Byte.of_N (Z.to_N q) with
    | Some b => Ok [b]
    | None => Throw "quality out of range"
    end.

Definition world_quality_probe : World :=
  mkWorld (Env.mk None None (Some "cutout-key") None) initial_tokenCache
    1700000000123 (fun _ => mkReply (Ok ok_image) 40) quality_probe [] [].

(* ================================================================== *)
(** * 7b. Further vocabulary and sample runs                           *)
(* ================================================================== *)

(** The six types the fetcher knows. *)
Definition supported_types : list string :=
  ["track"; "album"; "artist"; "playlist"; "episode"; "show"].

Definition is_supported_type (type : string) : bool :=
  existsb (String.eqb type) supported_types.

(** The credential exchange as the configuration determines it. *)
Definition credentials_request (e : Env.t) : Request.t :=
  token_request (template (Env.SPOTIFY_CLIENT_ID e))
                (template (Env.SPOTIFY_CLIENT_SECRET e)).

Definition credentials_present (e : Env.t) : Prop :=
  truthy (Env.SPOTIFY_CLIENT_ID e) = true
  /\ truthy (Env.SPOTIFY_CLIENT_SECRET e) = true.

(** The lookup of a resource with a bearer token. *)
Definition lookup_request (t : ResourceType) (id : string)
    (token : option string) : Request.t :=
  Request.mk (lookup_url t id) "GET"
    [("Authorization", "Bearer " ++ template token)] NoBody.

(** The world after a call of [fetch] that took [ms] milliseconds. *)
Definition after_fetch (w : World) (rq : Request.t) : World :=
  mkWorld (env w) (tokenCache w)
    (Date_now w + Z.of_N (latency (network w rq)))%Z
    (network w) (sharp_resize_jpeg w) (requests w ++ [rq]) (console w).

Definition with_console_line (w : World) (line : string) : World :=
  mkWorld (env w) (tokenCache w) (Date_now w) (network w)
    (sharp_resize_jpeg w) (requests w) (console w ++ [line]).

(** The line [GET /api/cover] logs for a result with [n] images. *)
Definition cover_log_line (type id : string) (n : nat) : string :=
  "[cover] type=" ++ type ++ " id=" ++ id ++ " sizes=["
  ++ JS.join ", " (repeat "640x640" n) ++ "]".

(** A token endpoint that refuses the credentials. *)
Definition unauthorized : Response.t :=
  Response.mk false 401 (Some "application/json") (Ok "invalid_client")
    (Throw "Unexpected token i in JSON") (Ok []).

Definition world_bad_credentials : World :=
  mkWorld (Env.mk (Some "client") (Some "wrong") None None)
    (TokenCache.mk (Some "BQDold") 1700000010) 1700000000123
    (fun _ => mkReply (Ok unauthorized) 120) identity_sharp [] [].

(** A valid cached token and no credentials at all, with the catalogue
    of [world_cached]. *)
Definition world_cached_no_credentials : World :=
  mkWorld (Env.mk None None None None)
    (TokenCache.mk (Some "BQDcached") 1700003600) 1700000000123
    (fun _ => mkReply (Ok (ok_json sample_track)) 80)
    identity_sharp [] [].

(** A valid cached token and a catalogue that answers every lookup with
    404. *)
Definition world_cached_404 : World :=
  mkWorld (Env.mk (Some "client") (Some "secret") None None)
    (TokenCache.mk (Some "BQDcached") 1700003600) 1700000000123
    (fun _ => mkReply (Ok not_found) 80) identity_sharp [] [].



(** A link to a kind of resource the fetcher does not know. *)
Definition user_link : string := "spotify:user:spotify".

(** The request of step 1 and, for a source that answered with the bytes
    [buf], the request of step 3. *)
Definition enhance_source (body : EnhanceBody.t) : Request.t :=
  source_request (template (EnhanceBody.imageUrl body)).

Definition enhance_upload (body : EnhanceBody.t) (e : Env.t)
    (src : Response.t) (buf : bytes) : Request.t :=
  cutout_request (enhance_endpoint body e) (template (Env.CUTOUT_API_KEY e))
    (string_or (Response.content_type src) "image/jpeg") buf.

(** The error text of a payload, when it is an error. *)
Definition error_text (p : Payload) : option string :=
  match p with
  | ErrorJSON e _ => Some e
  | _ => None
  end.

(** An enhance request that names its own endpoint, in a world where
    every request is answered with an image. *)
Definition enhance_body_override : EnhanceBody.t :=
  EnhanceBody.mk (Some "https://i.scdn.co/image/large")
    (Some "https://collector.example/upload") (Number 80) (Some true).

Definition png_bytes : bytes := [Byte.x89; Byte.x50; Byte.x4e; Byte.x47].

Definition ok_png : Response.t :=
  Response.mk true 200 (Some "image/png") (Ok EmptyString)
    (Throw "Unexpected token in JSON") (Ok png_bytes).

Definition world_enhance_ok : World :=
  mkWorld (Env.mk None None (Some "cutout-key") None) initial_tokenCache
    1700000000123 (fun _ => mkReply (Ok ok_png) 40) identity_sharp [] [].

(** The characters [/], [?] and [#]. *)
Definition is_url_delimiter (c : ascii) : bool :=
  WHATWG.is_char "/" c || WHATWG.is_char "?" c || WHATWG.is_char "#" c.

Definition is_query_or_fragment (c : ascii) : bool :=
  WHATWG.is_char "?" c || WHATWG.is_char "#" c.

(** A text without [?] and [#]. *)
Definition clean (s : string) : Prop := JS.any is_query_or_fragment s = false.

(** A link with padding, and a link with a query. *)
Definition padded_link : string :=
  "   spotify:album:1ATL5GLyefJaxhQzSPVrLX   ".

Definition link_with_query : string :=
  "https://open.spotify.com/playlist/37i9dQZF1DXcBWIGoYBM5M?si=0123#frag".

(* ================================================================== *)
(** * 7c. The page script                                              *)
(* ================================================================== *)

(** The script of the page that calls the two endpoints.  The document
    is a store of element properties, addressed as the script writes them
    ([statusEl.textContent], [fetchBtn.disabled], ...); the closures the
    script installs as click handlers are kept as the values they capture;
    [fetch], [URL.createObjectURL] and the click on a download anchor are
    oracles and logs of the browser. *)
Module Page.

Inductive Value : Type :=
| Str (s : string)
| Flag (b : bool).

(** The object [res.json()] resolves to, with the properties the script
    reads. *)
Module Data.
Record t : Type := mk {
  error : option string;
  title : option string;
  byline : option string;
  type : option string;
  images : option (list (option Image.t))
}.
End Data.

(** The second argument of [fetch]: none, or a POST of the JSON object
    [{imageUrl}] with its content type. *)
Inductive Init : Type :=
| Get
| PostJSON (imageUrl : string).

Module Request.
Record t : Type := mk { url : string; init : Init }.
End Request.

Module Response.
Record t : Type := mk {
  ok : bool;
  status : Z;
  json : Result Data.t;
  blob : Result bytes
}.
End Response.

(** What a click handler installed by [renderResult] captures. *)
Record Capture : Type := mkCapture { img_url : string; safeName : string }.

Record Browser : Type := mkBrowser {
  dom : string -> Value;
  imgEl_handlers : bool;
  downloadOriginal_onclick : option Capture;
  enhanceBtn_onclick : option Capture;
  server : Request.t -> Result Response.t;
  createObjectURL : bytes -> string;
  sent : list Request.t;
  downloads : list (string * string);
  revoked : list string
}.

(** [element.property = v]. *)
Definition assign (key : string) (v : Value) (b : Browser) : Browser :=
  mkBrowser (fun k => if String.eqb k key then v else dom b k)
    (imgEl_handlers b) (downloadOriginal_onclick b) (enhanceBtn_onclick b)
    (server b) (createObjectURL b) (sent b) (downloads b) (revoked b).

Definition install (c : Capture) (b : Browser) : Browser :=
  mkBrowser (dom b) true (Some c) (Some c)
    (server b) (createObjectURL b) (sent b) (downloads b) (revoked b).

Definition record_sent (rq : Request.t) (b : Browser) : Browser :=
  mkBrowser (dom b) (imgEl_handlers b) (downloadOriginal_onclick b)
    (enhanceBtn_onclick b) (server b) (createObjectURL b)
    (sent b ++ [rq]) (downloads b) (revoked b).

Definition record_revoked (url : string) (b : Browser) : Browser :=
  mkBrowser (dom b) (imgEl_handlers b) (downloadOriginal_onclick b)
    (enhanceBtn_onclick b) (server b) (createObjectURL b)
    (sent b) (downloads b) (revoked b ++ [url]).

Definition setStatus (msg : string) (isError : bool) (b : Browser) : Browser :=
  assign "statusEl.className" (Str (if isError then "status error" else "status"))
    (assign "statusEl.textContent" (Str (string_or (Some msg) EmptyString)) b).

Definition showSkeleton (show : bool) (b : Browser) : Browser :=
  assign "imgEl.style.display" (Str (if show then "none" else "block"))
    (assign "skeletonEl.style.display" (Str (if show then "block" else "none")) b).

Definition showCard (show : bool) (b : Browser) : Browser :=
  assign "cardEl.style.display" (Str (if show then "block" else "none")) b.

(** The click on a temporary anchor: one download. *)
Definition downloadURL (url filename : string) (b : Browser) : Browser :=
  mkBrowser (dom b) (imgEl_handlers b) (downloadOriginal_onclick b)
    (enhanceBtn_onclick b) (server b) (createObjectURL b) (sent b)
    (downloads b ++ [(url, string_or (Some filename) EmptyString)]) (revoked b).

(** [.replace(/\s+/g, '_')]: every maximal run of white space becomes one
    underscore. [in_run] tells that the character before was white
    space. *)
Fixpoint underscore_runs (in_run : bool) (s : string) : string :=
  match s with
  | EmptyString => EmptyString
  | String c s' =>
      if JS.is_white_space c then
        if in_run then underscore_runs true s'
        else String "_" (underscore_runs true s')
      else String c (underscore_runs false s')
  end.

(** The class of [/[^a-z0-9_\-]/gi]. *)
Definition name_class : RegExp.atom :=
  RegExp.Class [("a", "z"); ("0", "9"); ("_", "_"); ("-", "-")]%char.

(** [.replace(/[^a-z0-9_\-]/gi, '')]: every character outside the class
    goes. *)
Definition strip_unsafe (s : string) : string :=
  WHATWG.remove (fun c => negb (RegExp.atom_match true name_class c)) s.

Definition safe_name (data : Data.t) : string :=
  strip_unsafe
    (underscore_runs false
       (string_or (Data.title data) (string_or (Data.type data) "cover"))).

(** ['No 640x640 cover found for this item.'], written with the
    multiplication sign U+00D7. *)
Definition no_cover_message : string :=
  "No 640" ++ String (ascii_of_N 215) "640 cover found for this item.".

(** [(data.images || [])[0]]. *)
Definition first_image (data : Data.t) : option Image.t :=
  match Data.images data with
  | Some (img :: _) => img
  | _ => None
  end.

Definition renderResult (data : Data.t) (b : Browser) : Browser :=
  let img := first_image data in
  let b := assign "titleEl.textContent" (Str (string_or (Data.title data) EmptyString)) b in
  let b := assign "bylineEl.textContent" (Str (string_or (Data.byline data) EmptyString)) b in
  match img with
  | None => setStatus no_cover_message true (showCard false b)
  | Some img =>
      let b := showCard true b in
      let b := showSkeleton true b in
      let b := assign "imgEl.src" (Str (Image.url img)) b in
      install (mkCapture (Image.url img) (safe_name data)) b
  end.

(** [imgEl.onload] and [imgEl.onerror], once [renderResult] has set
    them. *)
Definition imgEl_onload (b : Browser) : Browser :=
  if imgEl_handlers b then showSkeleton false b else b.

Definition imgEl_onerror (b : Browser) : Browser :=
  if imgEl_handlers b
  then setStatus "Failed to load cover preview" true (showSkeleton false b)
  else b.

(** [downloadOriginal.onclick]. *)
Definition downloadOriginal_click (b : Browser) : Browser :=
  match downloadOriginal_onclick b with
  | Some c =>
      setStatus "Original image downloaded!" false
        (downloadURL (img_url c) (safeName c ++ "_640x640.jpg") b)
  | None => b
  end.

(** [enhanceBtn.onclick]. *)
Definition enhanceBtn_click (b : Browser) : Browser :=
  match enhanceBtn_onclick b with
  | None => b
  | Some c =>
      let b := setStatus "Enhancing image..." false b in
      let b := assign "enhanceBtn.disabled" (Flag true) b in
      let b := assign "enhanceBtn.textContent" (Str "Enhancing...") b in
      let rq := Request.mk "/api/enhance" (PostJSON (img_url c)) in
      let b := record_sent rq b in
      let tried : Result unit * Browser :=
        match server b rq with
        | Throw e => (Throw e, b)
        | Ok r =>
            if negb (Response.ok r) then
              let err := match Response.json r with
                         | Ok d => Data.error d
                         | Throw _ => None
                         end in
              (Throw (string_or err
                        ("Enhance failed (" ++ JS.string_of_Z (Response.status r) ++ ")")),
               b)
            else
              match Response.blob r with
              | Throw e => (Throw e, b)
              | Ok blob =>
                  let url := createObjectURL b blob in
                  let b := downloadURL url (safeName c ++ "_enhanced_3000x3000.jpg") b in
                  let b := record_revoked url b in
                  (Ok tt, setStatus "Enhanced image downloaded successfully!" false b)
              end
        end in
      let b := match fst tried with
               | Ok _ => snd tried
               | Throw e =>
                   setStatus (string_or (Some e) "Enhance failed") true (snd tried)
               end in
      assign "enhanceBtn.textContent" (Str "Enhance & Download")
        (assign "enhanceBtn.disabled" (Flag false) b)
  end.

(** [new URLSearchParams({ url: link }).toString()]: the form-urlencoded
    serialisation of the one pair. *)
Definition urlencoded_byte (n : N) : string :=
  let c := ascii_of_N n in
  if (n <? 128)%N
     && (JS.is_alnum c || WHATWG.is_char "*" c || WHATWG.is_char "-" c
         || WHATWG.is_char "." c || WHATWG.is_char "_" c)
  then String c EmptyString
  else if (n =? 32)%N then "+"
  else WHATWG.percent_byte n.

Definition urlencoded (s : string) : string :=
  String.concat EmptyString (map urlencoded_byte (utf8_bytes s)).

Definition cover_request (link : string) : Request.t :=
  Request.mk ("/api/cover?" ++ "url=" ++ urlencoded link) Get.

(** [!data.images || data.images.length === 0]. *)
Definition no_images (data : Data.t) : bool :=
  match Data.images data with
  | Some (_ :: _) => false
  | _ => true
  end.

Definition fetchCover (link : string) (b : Browser) : Browser :=
  let b := setStatus "Fetching cover..." false b in
  let b := showCard false b in
  let b := assign "fetchBtn.disabled" (Flag true) b in
  let b := assign "fetchBtn.textContent" (Str "Fetching...") b in
  let rq := cover_request link in
  let b := record_sent rq b in
  let tried : Result unit * Browser :=
    match server b rq with
    | Throw e => (Throw e, b)
    | Ok res =>
        match Response.json res with
        | Throw e => (Throw e, b)
        | Ok data =>
            if negb (Response.ok res)
            then (Throw (string_or (Data.error data) "Request failed"), b)
            else if no_images data
            then (Ok tt, setStatus "No images available for this item." true b)
            else (Ok tt, setStatus EmptyString false (renderResult data b))
        end
    end in
  let b := match fst tried with
           | Ok _ => snd tried
           | Throw e =>
               setStatus (string_or (Some e) "Error fetching images") true
                 (showCard false (snd tried))
           end in
  assign "fetchBtn.textContent" (Str "Get Cover")
    (assign "fetchBtn.disabled" (Flag false) b).

(** The value of the input box. *)
Definition urlInput_value (b : Browser) : string :=
  match dom b "urlInput.value" with
  | Str s => s
  | Flag _ => EmptyString
  end.

(** The click listener of [fetchBtn]. *)
Definition fetchBtn_click (b : Browser) : Browser :=
  let link := JS.trim (urlInput_value b) in
  if negb (JS.truthy link)
  then setStatus "Please paste a Spotify link or URI." true b
  else fetchCover link b.

(** [fetchBtn.disabled], a boolean property. *)
Definition fetchBtn_disabled (b : Browser) : bool :=
  match dom b "fetchBtn.disabled" with
  | Flag f => f
  | Str s => JS.truthy s
  end.

(** [fetchBtn.click()]: the click event is dispatched, and the listener
    runs, unless the button is disabled. *)
Definition fetchBtn_click_method (b : Browser) : Browser :=
  if fetchBtn_disabled b then b else fetchBtn_click b.

(** The [keydown] listener of the input box: Enter calls
    [fetchBtn.click()]. *)
Definition urlInput_keydown (key : string) (b : Browser) : Browser :=
  if String.eqb key "Enter" then fetchBtn_click_method b else b.

(** The [paste] listener of the input box, at the time its timer of
    50 ms fires. *)
Definition urlInput_paste (b : Browser) : Browser :=
  let value := JS.trim (urlInput_value b) in
  if JS.truthy value
     && (includes "spotify.com" value || JS.starts_with "spotify:" value)
  then fetchCover value b
  else b.

End Page.

(** The characters of a download name. *)
Definition is_name_char (c : ascii) : bool :=
  JS.is_alnum c || WHATWG.is_char "_" c || WHATWG.is_char "-" c.

(** A page with empty elements whose server answers every request with
    a cover of one image. *)
Definition sample_page_data : Page.Data.t :=
  Page.Data.mk None (Some "Never Gonna  Give You Up (2022)") (Some "Rick Astley")
    (Some "track")
    (Some [Some (Image.mk "https://i.scdn.co/image/large" (Number 640) (Number 640))]).

Definition sample_page : Page.Browser :=
  Page.mkBrowser (fun k => if String.eqb k "urlInput.value"
                           then Page.Str "  spotify:track:4PTG3Z6ehGkBFwjybzWkR8  "
                           else Page.Str EmptyString)
    false None None
    (fun _ => Ok (Page.Response.mk true 200 (Ok sample_page_data) (Ok [])))
    (fun _ => "blob:cover") [] [] [].

(** The object [await res.json()] gives the page for a body the server
    wrote with [res.json(...)]: properties that are [undefined] on the
    server are absent. A binary body is not JSON. *)
Definition cover_json (p : Payload) : option Page.Data.t :=
  match p with
  | ErrorJSON e _ => Some (Page.Data.mk (Some e) None None None None)
  | CoverJSON _ type title byline images =>
      Some (Page.Data.mk None title byline (Some type) (Some images))
  | Binary _ => None
  end.

(** Pages whose server rejects the call, refuses the link, and answers
    with a list whose first entry is [null]. *)
Definition page_served (answer : Result Page.Response.t) : Page.Browser :=
  Page.mkBrowser (Page.dom sample_page) false None None (fun _ => answer)
    (fun _ => "blob:cover") [] [] [].

Definition page_offline : Page.Browser :=
  page_served (Throw "Failed to fetch").

Definition null_first_data : Page.Data.t :=
  Page.Data.mk None (Some "Demo") None (Some "track")
    (Some [None; Some (Image.mk "https://i.scdn.co/image/large" (Number 640) (Number 640))]).

Definition page_null_first : Page.Browser :=
  page_served (Ok (Page.Response.mk true 200 (Ok null_first_data) (Ok []))).

(* ================================================================== *)
(** * 8. Credential cache                                              *)
(* ================================================================== *)

Lemma truthy_Some (s : string) : s <> EmptyString -> truthy (Some s) = true.
Proof. destruct s; [congruence | reflexivity]. Qed.

Lemma cached_token_valid_test (w : World) :
  cached_token_valid w <->
  truthy (TokenCache.accessToken (tokenCache w))
  && (TokenCache.expiresAt (tokenCache w) - 30 >? Date_now w / 1000)%Z = true.
Proof.
  unfold cached_token_valid, safety_margin.
  rewrite andb_true_iff, Z.gtb_ltb, Z.ltb_lt. reflexivity.
Qed.

(** A valid cached token is the whole run: nothing is read but the cache
    and the clock, and the world is the one the call started in. *)
Lemma getAccessToken_cached (w : World) :
  cached_token_valid w ->
  getAccessToken w = (Ok (TokenCache.accessToken (tokenCache w)), w).
Proof.
  intros H. apply cached_token_valid_test in H.
  unfold getAccessToken, bind, get_tokenCache, nowSeconds, get_Date_now, ret.
  simpl. rewrite H. reflexivity.
Qed.

(** Without a valid cached token and without credentials the call throws
    before any effect. *)
Lemma getAccessToken_missing_credentials (w : World) :
  ~ cached_token_valid w ->
  credentials_absent (env w) ->
  getAccessToken w
  = (Throw "Missing SPOTIFY_CLIENT_ID or SPOTIFY_CLIENT_SECRET in .env", w).
Proof.
  intros Hc Ha. rewrite cached_token_valid_test in Hc.
  apply not_true_is_false in Hc.
  unfold getAccessToken, bind, get_tokenCache, nowSeconds, get_Date_now, ret,
    get_env, throw.
  simpl. rewrite Hc.
  destruct Ha as [Ha | Ha]; rewrite Ha; simpl;
    [reflexivity | rewrite orb_true_r; reflexivity].
Qed.

(** C9. Whenever a cached token exists and the current time is before its
    expiry minus the 30-second buffer, [getAccessToken] returns that
    token, and the world after the call is the world before it: no
    request was sent and the cache was not touched. *)
Theorem getAccessToken_reuses_valid_token :
  forall (w : World) (token : string),
    TokenCache.accessToken (tokenCache w) = Some token ->
    token <> EmptyString ->
    (Date_now w / 1000 < TokenCache.expiresAt (tokenCache w) - 30)%Z ->
    getAccessToken w = (Ok (Some token), w)
    /\ requests (snd (getAccessToken w)) = requests w
    /\ tokenCache (snd (getAccessToken w)) = tokenCache w.
Proof.
  intros w token Htok Hne Hlt.
  assert (H : getAccessToken w = (Ok (Some token), w)).
  { rewrite getAccessToken_cached, Htok; [reflexivity |].
    split; [rewrite Htok; apply truthy_Some; exact Hne | exact Hlt]. }
  rewrite H. repeat split.
Qed.

Lemma getAccessToken_reuses_valid_token_witness :
  getAccessToken world_cached = (Ok (Some "BQDcached"), world_cached)
  /\ requests (snd (getAccessToken world_cached)) = []
  /\ tokenCache (snd (getAccessToken world_cached))
     = TokenCache.mk (Some "BQDcached") 1700003600.
Proof.
  apply (getAccessToken_reuses_valid_token world_cached "BQDcached").
  - reflexivity.
  - discriminate.
  - vm_compute. reflexivity.
Defined.

(** What a fresh exchange leaves behind. *)
Lemma getAccessToken_fresh (w : World) (tok : option string) (w' : World) :
  ~ cached_token_valid w ->
  getAccessToken w = (Ok tok, w') ->
  exists resp data,
    outcome (network w (credentials_request (env w))) = Ok resp
    /\ Response.ok resp = true
    /\ Response.json resp = Ok data
    /\ requests w' = (requests w ++ [credentials_request (env w)])%list
    /\ tok = Data.access_token data
    /\ tokenCache w'
       = TokenCache.mk (Data.access_token data)
           (Date_now w' / 1000 + declared_lifetime data)%Z.
Proof.
  intros Hc. rewrite cached_token_valid_test in Hc. apply not_true_is_false in Hc.
  unfold credentials_request.
  unfold getAccessToken, bind, get_tokenCache, nowSeconds, get_Date_now, ret,
    get_env, throw, fetch, await, set_tokenCache.
  simpl. rewrite Hc.
  destruct (negb (truthy (Env.SPOTIFY_CLIENT_ID (env w)))
            || negb (truthy (Env.SPOTIFY_CLIENT_SECRET (env w)))); [discriminate |].
  destruct (outcome (network w _)) as [resp | e] eqn:Hout; [| discriminate].
  destruct (Response.ok resp) eqn:Hok; simpl.
  - destruct (Response.json resp) as [data | e] eqn:Hjson; [| discriminate].
    intros H. inversion H; subst; clear H. simpl.
    exists resp, data. repeat split; assumption.
  - destruct (Response.text resp); discriminate.
Qed.

(** C3, as amended. A call of [getAccessToken] that returns a token
    either found a valid token in the cache, returns that one and changes
    nothing, and then the recorded expiry is more than 30 seconds after
    the current time; or it found none, sent the credential exchange, and
    returns the token of the answer the network gave to it, recorded with
    the expiry "now + declared lifetime" of that answer (3600 when none is
    declared), so that the expiry is more than 30 seconds ahead exactly
    when that lifetime exceeds 30 seconds. *)
Theorem token_safety_margin :
  forall (w : World) (tok : option string) (w' : World),
    getAccessToken w = (Ok tok, w') ->
    (cached_token_valid w
     /\ w' = w /\ tok = TokenCache.accessToken (tokenCache w) /\ safety_margin w')
    \/ (~ cached_token_valid w
        /\ exists resp data,
             outcome (network w (credentials_request (env w))) = Ok resp
             /\ Response.ok resp = true
             /\ Response.json resp = Ok data
             /\ requests w' = (requests w ++ [credentials_request (env w)])%list
             /\ tok = Data.access_token data
             /\ tokenCache w'
                = TokenCache.mk (Data.access_token data)
                    (Date_now w' / 1000 + declared_lifetime data)%Z
             /\ (safety_margin w' <-> (30 < declared_lifetime data)%Z)).
Proof.
  intros w tok w' H.
  assert (Hfresh : ~ cached_token_valid w ->
            ~ cached_token_valid w
            /\ exists resp data,
                 outcome (network w (credentials_request (env w))) = Ok resp
                 /\ Response.ok resp = true
                 /\ Response.json resp = Ok data
                 /\ requests w' = (requests w ++ [credentials_request (env w)])%list
                 /\ tok = Data.access_token data
                 /\ tokenCache w'
                    = TokenCache.mk (Data.access_token data)
                        (Date_now w' / 1000 + declared_lifetime data)%Z
                 /\ (safety_margin w' <-> (30 < declared_lifetime data)%Z)).
  { intros Hn. split; [exact Hn |].
    destruct (getAccessToken_fresh w tok w' Hn H)
      as (resp & data & Hout & Hok & Hjson & Hreq & Htok & Hc).
    exists resp, data.
    repeat (split; [assumption |]).
    unfold safety_margin. rewrite Hc. simpl. lia. }
  destruct (Z.ltb_spec (Date_now w / 1000)
              (TokenCache.expiresAt (tokenCache w) - 30)) as [Hlt | Hge];
    [destruct (truthy (TokenCache.accessToken (tokenCache w))) eqn:Ht |].
  - left. rewrite getAccessToken_cached in H by (split; assumption).
    inversion H; subst. repeat split; assumption.
  - right. apply Hfresh. intros [Hv _]. congruence.
  - right. apply Hfresh. intros [_ Hv]. unfold safety_margin in Hv. lia.
Qed.

Lemma token_safety_margin_witness :
  exists resp data,
    outcome (network world_default_lifetime
               (credentials_request (env world_default_lifetime))) = Ok resp
    /\ Response.ok resp = true
    /\ Response.json resp = Ok data
    /\ requests (snd (getAccessToken world_default_lifetime))
       = [credentials_request (env world_default_lifetime)]
    /\ Some "BQDdefault" = Data.access_token data
    /\ tokenCache (snd (getAccessToken world_default_lifetime))
       = TokenCache.mk (Data.access_token data)
           (Date_now (snd (getAccessToken world_default_lifetime)) / 1000
            + declared_lifetime data)%Z
    /\ (safety_margin (snd (getAccessToken world_default_lifetime))
        <-> (30 < declared_lifetime data)%Z).
Proof.
  destruct (token_safety_margin world_default_lifetime (Some "BQDdefault")
              (snd (getAccessToken world_default_lifetime)))
    as [(_ & Heq & _) | (_ & H)].
  - reflexivity.
  - apply (f_equal requests) in Heq. vm_compute in Heq. discriminate Heq.
  - exact H.
Defined.

(** C3, as stated, fails after a fresh exchange that declares a lifetime
    of ten seconds: the token is returned with a recorded expiry ten
    seconds ahead. *)
Lemma token_safety_margin_counterexample :
  fst (getAccessToken world_short_lifetime) = Ok (Some "BQDshort")
  /\ ~ safety_margin (snd (getAccessToken world_short_lifetime)).
Proof.
  split; [reflexivity |].
  unfold safety_margin. vm_compute. discriminate.
Qed.

(* ================================================================== *)
(** * 9. Resource fetcher                                              *)
(* ================================================================== *)

Lemma only640_test (img : option Image.t) :
  strict_equals (ToNumber (width_of img)) 640
  && strict_equals (ToNumber (height_of img)) 640
  = is_640_square img.
Proof.
  destruct img as [[u wd ht] |]; simpl; [| reflexivity].
  destruct wd, ht; simpl; try reflexivity; rewrite ?andb_false_r; reflexivity.
Qed.

Lemma is_640_square_spec (img : option Image.t) :
  is_640_square img = true <-> Is640Square img.
Proof.
  unfold Is640Square. split.
  - destruct img as [[u wd ht] |]; simpl; [| discriminate].
    destruct wd, ht; try discriminate.
    rewrite andb_true_iff, !Z.eqb_eq. intros [-> ->].
    eexists. repeat split.
  - intros (i & -> & Hw & Hh). simpl. rewrite Hw, Hh. reflexivity.
Qed.

Lemma filter_none (l : list (option Image.t)) :
  (forall img, In img l -> ~ Is640Square img) -> filter is_640_square l = [].
Proof.
  induction l as [| a l IH]; intros Hnone; [reflexivity |]. simpl.
  destruct (is_640_square a) eqn:Ha.
  - exfalso. apply (Hnone a); [left; reflexivity |].
    apply is_640_square_spec. exact Ha.
  - apply IH. intros img Hin. apply Hnone. right. exact Hin.
Qed.

Lemma fetchJSON_world (url : string) (tok : option string) (w : World)
    (d : Data.t) (w' : World) :
  fetchJSON url tok w = (Ok d, w') ->
  forall (A : Type) (k : Data.t -> M A),
    bind (fetchJSON url tok) k w = k d w'.
Proof. intros H A k. unfold bind. rewrite H. reflexivity. Qed.

Lemma byline_playlist (d : Data.t) :
  Some (if truthy (owner_display_name d)
        then "By " ++ template (owner_display_name d) else "Playlist")
  = table_byline playlist d.
Proof.
  unfold table_byline, owner_display_name.
  destruct (Data.owner d) as [[[[| c n] |]] |]; reflexivity.
Qed.

Lemma byline_episode (d : Data.t) :
  Some (if truthy (show_name d)
        then "From " ++ template (show_name d) else "Episode")
  = table_byline episode d.
Proof.
  unfold table_byline, show_name.
  destruct (Data.show d) as [[[[| c n] |]] |]; reflexivity.
Qed.

(** Once the token is there and the lookup has answered, the fetcher
    returns the row of the table. *)
Lemma getImagesFor_table_row (t : ResourceType) (id : string) (w w1 w2 : World)
    (token : option string) (d : Data.t) :
  getAccessToken w = (Ok token, w1) ->
  fetchJSON (lookup_url t id) token w1 = (Ok d, w2) ->
  getImagesFor (type_name t) id w = (Ok (table_row t d), w2).
Proof.
  intros Htok Hfetch.
  unfold getImagesFor. unfold bind at 1. rewrite Htok.
  destruct t; unfold type_name; simpl (String.eqb _ _); cbv iota;
    change (api_base ++ "/tracks/" ++ id) with (lookup_url track id);
    change (api_base ++ "/albums/" ++ id) with (lookup_url album id);
    change (api_base ++ "/artists/" ++ id) with (lookup_url artist id);
    change (api_base ++ "/playlists/" ++ id) with (lookup_url playlist id);
    change (api_base ++ "/episodes/" ++ id) with (lookup_url episode id);
    change (api_base ++ "/shows/" ++ id) with (lookup_url show id);
    rewrite (fetchJSON_world _ _ _ _ _ Hfetch); unfold ret, table_row;
    rewrite <- ?byline_playlist, <- ?byline_episode; reflexivity.
Qed.

(** C7. For every raw image list the filter keeps exactly the entries
    whose width and height both equal 640, in their order; entries of
    another size, near-square entries, entries without dimensions and
    [null] entries go. When no entry of the image set qualifies, the
    fetcher still returns its result, with an empty image sequence. *)
Theorem only640_keeps_exactly_640_squares :
  (forall (imgs : option (list (option Image.t))),
      let raw := match imgs with Some l => l | None => [] end in
      only640 imgs = filter is_640_square raw
      /\ (forall img, In img (only640 imgs) <-> In img raw /\ Is640Square img))
  /\ (forall (t : ResourceType) (id : string) (w w1 w2 : World)
             (token : option string) (d : Data.t),
        getAccessToken w = (Ok token, w1) ->
        fetchJSON (lookup_url t id) token w1 = (Ok d, w2) ->
        (forall img,
            In img (match table_image_source t d with Some l => l | None => [] end) ->
            ~ Is640Square img) ->
        exists r,
          getImagesFor (type_name t) id w = (Ok r, w2) /\ Resource.images r = []).
Proof.
  assert (E : forall imgs,
             only640 imgs
             = filter is_640_square (match imgs with Some l => l | None => [] end)).
  { intros imgs. unfold only640. apply filter_ext. intros a. apply only640_test. }
  split.
  - intros imgs raw. split; [apply E |].
    intros img. rewrite E, filter_In, is_640_square_spec. reflexivity.
  - intros t id w w1 w2 token d Htok Hfetch Hnone.
    exists (table_row t d). split.
    + apply (getImagesFor_table_row t id w w1 w2 token d Htok Hfetch).
    + unfold table_row. cbn [Resource.images]. rewrite E. apply filter_none. exact Hnone.
Qed.

Lemma only640_keeps_exactly_640_squares_witness :
  exists r,
    getImagesFor "track" "0000000000000000000000" world_cached_small
    = (Ok r, snd (getImagesFor "track" "0000000000000000000000" world_cached_small))
    /\ Resource.images r = [].
Proof.
  apply (proj2 only640_keeps_exactly_640_squares track "0000000000000000000000"
           world_cached_small world_cached_small
           (snd (getImagesFor "track" "0000000000000000000000" world_cached_small))
           (Some "BQDcached") sample_track_small).
  - reflexivity.
  - reflexivity.
  - intros img Hin (i & -> & Hw & Hh). simpl in Hin.
    destruct Hin as [Hin | [Hin | []]]; inversion Hin; subst i;
      simpl in Hw, Hh; discriminate.
Defined.



(* ================================================================== *)
(** * 10. Enhance pipeline                                             *)
(* ================================================================== *)

(** The quality of a number other than zero is the number clamped into
    [1,100]; an absent or [null] quality gives 95. *)
Lemma jpeg_quality_cases (v : JSValue) :
  jpeg_quality v
  = match v with
    | Number 0 => 95
    | Number n => clamp 1 100 n
    | Undefined | Null => 95
    end%Z.
Proof. destruct v as [| | [| p | p]]; reflexivity. Qed.

(** C4 at the quality 0: the handler encodes at 95, where clamping into
    [1,100] gives 1. The run of the handler shows the quality that
    reaches the image library. *)
Theorem jpeg_quality_zero_is_not_clamped :
  jpeg_quality (Number 0) = 95%Z
  /\ clamp 1 100 0 = 1%Z
  /\ match fst (api_enhance enhance_body world_quality_probe) with
     | Ok r => statusCode r = 200%Z /\ payload r = Binary [Byte.x5f]
     | Throw _ => False
     end.
Proof. repeat split. Qed.

(** C2, as amended. A request to [POST /api/enhance] is always answered,
    and the status tells where the pipeline ended: 400 for a missing
    [imageUrl], a missing API key, or a source image whose download is
    answered with a non-success response; 502 when the enhancement
    service answers with a non-success response; 500 when a call rejects,
    a body cannot be read or the image cannot be re-encoded; 200
    otherwise. The 502 and the source-image 400 carry [error] and
    [details]. *)
Theorem api_enhance_status :
  forall (body : EnhanceBody.t) (w : World),
    exists (r : HttpResponse) (w' : World),
      api_enhance body w = (Ok r, w')
      /\ statusCode r = stage_status (enhance_stage body w)
      /\ (enhance_stage body w = TransformNotOk \/ enhance_stage body w = SourceNotOk ->
          exists e d, payload r = ErrorJSON e (Some d))
      /\ (enhance_stage body w = Enhanced ->
          exists jpeg, payload r = Binary jpeg).
Proof.
  intros body w.
  unfold api_enhance, enhance_stage, try_catch, bind, get_env, fetch, await,
    sharp, get_Date_now, ret.
  destruct (negb (truthy (EnhanceBody.imageUrl body))).
  { do 2 eexists. repeat split; intros; intuition discriminate. }
  destruct (negb (truthy (Env.CUTOUT_API_KEY (env w)))).
  { do 2 eexists. repeat split; intros; intuition discriminate. }
  destruct (outcome (network w (source_request _))) as [src | e]; simpl.
  2:{ do 2 eexists. repeat split; intros; intuition discriminate. }
  destruct (negb (Response.ok src)).
  { do 2 eexists. repeat split; intros; try discriminate.
    do 2 eexists. reflexivity. }
  destruct (Response.arrayBuffer src) as [arrayBuf | e]; simpl.
  2:{ do 2 eexists. repeat split; intros; intuition discriminate. }
  destruct (outcome (network w (cutout_request _ _ _ _))) as [r | e]; simpl.
  2:{ do 2 eexists. repeat split; intros; intuition discriminate. }
  destruct (negb (Response.ok r)).
  { do 2 eexists. repeat split; intros; try discriminate.
    do 2 eexists. reflexivity. }
  destruct (Response.arrayBuffer r) as [buf | e]; simpl.
  2:{ do 2 eexists. repeat split; intros; intuition discriminate. }
  destruct (sharp_resize_jpeg w buf _ _) as [resized | e]; simpl.
  2:{ do 2 eexists. repeat split; intros; intuition discriminate. }
  do 2 eexists. repeat split; intros; try intuition discriminate.
  eexists. reflexivity.
Qed.

(** C2, as stated, fails when the download of the source image is
    answered with 404: the source fetch has failed and the status is 400,
    not 500. *)
Lemma api_enhance_status_counterexample :
  source_fetch_fails enhance_body world_source_404
  /\ fst (api_enhance enhance_body world_source_404)
     = Ok (json_response 400
             (ErrorJSON "Failed to fetch source image (404)" (Some "Not Found"))).
Proof. split; reflexivity. Qed.


(* ================================================================== *)
(** * 11. Strings                                                      *)
(* ================================================================== *)

(** Case analysis over the 256 code units. *)
Ltac ascii_cases c :=
  destruct c as [[] [] [] [] [] [] [] []]; vm_compute;
  try reflexivity; try discriminate; auto.

Lemma append_assoc (a b c : string) : (a ++ b) ++ c = a ++ (b ++ c).
Proof. induction a as [| x a IH]; simpl; [reflexivity | rewrite IH; reflexivity]. Qed.

Lemma append_empty_r (a : string) : a ++ EmptyString = a.
Proof. induction a as [| x a IH]; simpl; [reflexivity | rewrite IH; reflexivity]. Qed.

Lemma all_append (p : ascii -> bool) (a b : string) :
  JS.all p (a ++ b) = JS.all p a && JS.all p b.
Proof.
  induction a as [| x a IH]; simpl; [reflexivity |].
  rewrite IH, andb_assoc. reflexivity.
Qed.

Lemma any_append (p : ascii -> bool) (a b : string) :
  JS.any p (a ++ b) = JS.any p a || JS.any p b.
Proof.
  induction a as [| x a IH]; simpl; [reflexivity |].
  rewrite IH, orb_assoc. reflexivity.
Qed.

Lemma all_impl (p q : ascii -> bool) (s : string) :
  (forall c, p c = true -> q c = true) ->
  JS.all p s = true -> JS.all q s = true.
Proof.
  intros Hpq. induction s as [| x s IH]; simpl; [reflexivity |].
  rewrite !andb_true_iff. intros [Hx Hs]. split; auto.
Qed.

Lemma all_excludes (p q : ascii -> bool) (s : string) :
  (forall c, p c = true -> q c = false) ->
  JS.all p s = true -> JS.any q s = false.
Proof.
  intros Hpq. induction s as [| x s IH]; simpl; [reflexivity |].
  rewrite andb_true_iff. intros [Hx Hs]. rewrite (Hpq x Hx), (IH Hs). reflexivity.
Qed.

Lemma all_lowercase (p q : ascii -> bool) (s : string) :
  (forall c, p c = true -> q (JS.ascii_lower_char c) = true) ->
  JS.all p s = true -> JS.all q (JS.ascii_lowercase s) = true.
Proof.
  intros Hpq. induction s as [| x s IH]; simpl; [reflexivity |].
  rewrite !andb_true_iff. intros [Hx Hs]. split; auto.
Qed.

Lemma drop_while_none (q : ascii -> bool) (s : string) :
  JS.any q s = false -> JS.drop_while q s = s.
Proof.
  destruct s as [| x s]; simpl; [reflexivity |].
  intros H. apply orb_false_elim in H. destruct H as [-> _]. reflexivity.
Qed.

Lemma drop_while_end_none (q : ascii -> bool) (s : string) :
  JS.any q s = false -> JS.drop_while_end q s = s.
Proof.
  induction s as [| x s IH]; simpl; [reflexivity |].
  intros H. apply orb_false_elim in H. destruct H as [Hx Hs].
  rewrite Hx, (IH Hs). reflexivity.
Qed.

Lemma remove_none (q : ascii -> bool) (s : string) :
  JS.any q s = false -> WHATWG.remove q s = s.
Proof.
  induction s as [| x s IH]; simpl; [reflexivity |].
  intros H. apply orb_false_elim in H. destruct H as [Hx Hs].
  rewrite Hx, (IH Hs). reflexivity.
Qed.

Lemma any_weaken (p q : ascii -> bool) (s : string) :
  (forall c, p c = true -> q c = true) ->
  JS.any q s = false -> JS.any p s = false.
Proof.
  intros Hpq. induction s as [| x s IH]; simpl; [reflexivity |].
  intros H. apply orb_false_elim in H. destruct H as [Hx Hs].
  rewrite (IH Hs), orb_false_r.
  destruct (p x) eqn:Hp; [rewrite (Hpq x Hp) in Hx; discriminate | reflexivity].
Qed.

Lemma trim_none (s : string) :
  JS.any JS.is_white_space s = false -> JS.trim s = s.
Proof.
  intros H. unfold JS.trim.
  rewrite (drop_while_none _ _ H). apply drop_while_end_none. exact H.
Qed.

Lemma tab_or_newline_is_c0 (c : ascii) :
  WHATWG.is_tab_or_newline c = true -> WHATWG.is_c0_control_or_space c = true.
Proof. ascii_cases c. Qed.

Lemma preprocess_none (s : string) :
  JS.any WHATWG.is_c0_control_or_space s = false -> WHATWG.preprocess s = s.
Proof.
  intros H. unfold WHATWG.preprocess.
  rewrite (drop_while_none _ _ H), (drop_while_end_none _ _ H).
  apply remove_none. exact (any_weaken _ _ _ tab_or_newline_is_c0 H).
Qed.

Lemma is_empty_true (s : string) : JS.is_empty s = true -> s = EmptyString.
Proof. destruct s; [reflexivity | discriminate]. Qed.

Lemma is_char_eq (x c : ascii) :
  WHATWG.is_char (String x EmptyString) c = true -> c = x.
Proof. simpl. apply Ascii.eqb_eq. Qed.

Lemma neq_eqb_false (x sep : ascii) : x <> sep -> Ascii.eqb x sep = false.
Proof. intros H. apply Ascii.eqb_neq. exact H. Qed.

(** The first piece of a split holds no separator, and the string is
    that piece, or that piece, a separator and more. *)
Lemma split_first (sep : ascii) (s : string) :
  let h := nth 0 (JS.split sep s) EmptyString in
  JS.any (fun c => Ascii.eqb c sep) h = false
  /\ (s = h \/ exists q, s = h ++ String sep q).
Proof.
  induction s as [| x s IH]; simpl.
  - split; [reflexivity | left; reflexivity].
  - destruct (Ascii.eqb_spec x sep) as [-> | Hne].
    + simpl. split; [reflexivity | right; exists s; reflexivity].
    + apply neq_eqb_false in Hne.
      destruct (JS.split sep s) as [| p ps] eqn:Hs; simpl in *.
      * destruct IH as [_ [-> | [q ->]]].
        -- split; [| left; reflexivity]. rewrite Hne. reflexivity.
        -- split; [| right; exists q; reflexivity]. rewrite Hne. reflexivity.
      * destruct IH as [Hp Hq]. split.
        -- rewrite Hp, Hne. reflexivity.
        -- destruct Hq as [-> | [q ->]]; [left; reflexivity |].
           right. exists q. reflexivity.
Qed.

Lemma split_none (sep : ascii) (s : string) :
  JS.any (fun c => Ascii.eqb c sep) s = false -> JS.split sep s = [s].
Proof.
  induction s as [| x s IH]; simpl; [reflexivity |].
  intros H. apply orb_false_elim in H. destruct H as [Hx Hs].
  rewrite Hx, (IH Hs). reflexivity.
Qed.

Lemma substring_full (s : string) : substring 0 (String.length s) s = s.
Proof. induction s as [| x s IH]; simpl; [reflexivity | rewrite IH; reflexivity]. Qed.

(* ================================================================== *)
(** * 12. Regular expressions                                          *)
(* ================================================================== *)

Lemma atom_match_exact (x c : ascii) :
  RegExp.atom_match false (RegExp.Lit x) c = Ascii.eqb x c.
Proof.
  unfold RegExp.atom_match, RegExp.Canonicalize, JS.code. simpl.
  rewrite orb_false_r.
  destruct (Ascii.eqb_spec x c) as [-> | Hne]; [apply N.eqb_refl |].
  apply N.eqb_neq. intros H. apply Hne.
  rewrite <- (ascii_N_embedding x), <- (ascii_N_embedding c), H. reflexivity.
Qed.

Lemma atom_match_letter (x c : ascii) :
  In x ["s"; "p"; "o"; "t"; "i"; "f"; "y"]%char ->
  RegExp.atom_match true (RegExp.Lit x) c = Ascii.eqb (JS.ascii_lower_char c) x.
Proof.
  intros H. simpl in H.
  repeat (destruct H as [<- | H]; [ascii_cases c |]). contradiction.
Qed.

Lemma atom_match_colon (c : ascii) :
  RegExp.atom_match true (RegExp.Lit ":") c = Ascii.eqb c ":".
Proof. ascii_cases c. Qed.

Lemma atom_match_type_class (c : ascii) :
  RegExp.atom_match true (RegExp.Class [("a", "z"); ("_", "_")]%char) c
  = is_type_char c.
Proof. ascii_cases c. Qed.

Lemma atom_match_id_class (c : ascii) :
  RegExp.atom_match true
    (RegExp.Class [("A", "Z"); ("a", "z"); ("0", "9")]%char) c
  = is_id_char c.
Proof. ascii_cases c. Qed.

Section Plus.

Variables (ic : bool) (a : RegExp.atom).
Variable k : string -> option (list string * string).

(** A successful [(a+)] has consumed a non-empty run of matching
    characters and handed the rest to the continuation. *)
Lemma plus_match_sound (s acc : string) (caps : list string) (rest : string) :
  RegExp.plus_match ic a k acc s = Some (caps, rest) ->
  exists t s' caps',
    s = t ++ s' /\ t <> EmptyString
    /\ JS.all (RegExp.atom_match ic a) t = true
    /\ k s' = Some (caps', rest) /\ caps = (acc ++ t) :: caps'.
Proof.
  revert acc. induction s as [| c s IH]; intros acc; simpl; [discriminate |].
  destruct (RegExp.atom_match ic a c) eqn:Hc; [| discriminate].
  destruct (RegExp.plus_match ic a k (acc ++ String c EmptyString) s)
    as [m |] eqn:Hrec.
  - intros H. inversion H; subst m; clear H.
    destruct (IH _ Hrec) as (t & s' & caps' & -> & Hne & Hall & Hk & ->).
    exists (String c t), s', caps'. repeat split; try assumption.
    + discriminate.
    + simpl. rewrite Hc. exact Hall.
    + rewrite append_assoc. reflexivity.
  - destruct (k s) as [[caps' rest'] |] eqn:Hk; [| discriminate].
    intros H. inversion H; subst; clear H.
    exists (String c EmptyString), s, caps'. repeat split; try assumption.
    + discriminate.
    + simpl. rewrite Hc. reflexivity.
Qed.

Lemma plus_match_stop (s acc : string) :
  match s with
  | EmptyString => True
  | String c _ => RegExp.atom_match ic a c = false
  end ->
  RegExp.plus_match ic a k acc s = None.
Proof. destruct s as [| c s]; simpl; [reflexivity |]. intros ->. reflexivity. Qed.

(** A run of matching characters that stops at the end of the text or at
    a character outside the atom is what [(a+)] captures. *)
Lemma plus_match_complete (t s' acc : string) (caps : list string) (rest : string) :
  t <> EmptyString ->
  JS.all (RegExp.atom_match ic a) t = true ->
  match s' with
  | EmptyString => True
  | String c _ => RegExp.atom_match ic a c = false
  end ->
  k s' = Some (caps, rest) ->
  RegExp.plus_match ic a k acc (t ++ s') = Some ((acc ++ t) :: caps, rest).
Proof.
  intros Hne Hall Hstop Hk. revert acc.
  induction t as [| c t IH]; intros acc; [congruence |].
  simpl in Hall. apply andb_true_iff in Hall. destruct Hall as [Hc Hall].
  simpl. rewrite Hc.
  destruct t as [| c' t].
  - simpl. rewrite (plus_match_stop _ _ Hstop), Hk. reflexivity.
  - rewrite (IH ltac:(discriminate) Hall). rewrite append_assoc. reflexivity.
Qed.

End Plus.

(** ** Literal patterns *)

Lemma lits_match_sound (p s : string) (at_end : bool) (m : list string * string) :
  RegExp.match_items false at_end (RegExp.lits p) s = Some m ->
  exists rest, s = p ++ rest.
Proof.
  revert s. induction p as [| x p IH]; intros s; simpl.
  - intros _. exists s. reflexivity.
  - destruct s as [| c s]; [discriminate |].
    rewrite atom_match_exact. destruct (Ascii.eqb_spec x c) as [-> | _]; [| discriminate].
    intros H. destruct (IH _ H) as [rest ->]. exists rest. reflexivity.
Qed.

Lemma lits_match_complete (p rest : string) :
  RegExp.match_items false false (RegExp.lits p) (p ++ rest) = Some ([], rest).
Proof.
  induction p as [| x p IH]; simpl; [reflexivity |].
  rewrite atom_match_exact, Ascii.eqb_refl. exact IH.
Qed.

Lemma test_literal_sound (p s : string) :
  RegExp.test (RegExp.mkRegex false (RegExp.lits p) false false) s = true ->
  Contains p s.
Proof.
  unfold RegExp.test, RegExp.exec. simpl.
  induction s as [| c s IH]; simpl; unfold RegExp.match_here; simpl.
  - destruct (RegExp.match_items false false (RegExp.lits p) EmptyString) eqn:H;
      simpl; [| discriminate].
    intros _. destruct (lits_match_sound _ _ _ _ H) as [rest Hr].
    exists EmptyString, rest. exact Hr.
  - destruct (RegExp.match_items false false (RegExp.lits p) (String c s)) eqn:H;
      simpl.
    + intros _. destruct (lits_match_sound _ _ _ _ H) as [rest Hr].
      exists EmptyString, rest. exact Hr.
    + intros Hs. destruct (IH Hs) as (a & b & ->).
      exists (String c a), b. reflexivity.
Qed.

Lemma test_literal_complete (p s : string) :
  Contains p s ->
  RegExp.test (RegExp.mkRegex false (RegExp.lits p) false false) s = true.
Proof.
  intros (a & b & ->). unfold RegExp.test, RegExp.exec. simpl.
  induction a as [| c a IH].
  - simpl append.
    destruct (p ++ b) eqn:E; simpl; unfold RegExp.match_here; simpl;
      rewrite <- E, lits_match_complete; reflexivity.
  - simpl. unfold RegExp.match_here at 1. simpl.
    destruct (RegExp.match_items false false (RegExp.lits p) (String c (a ++ p ++ b)));
      simpl; [reflexivity | exact IH].
Qed.

Lemma contains_char (x : ascii) (p1 p2 s : string) :
  Contains (p1 ++ String x p2) s -> JS.any (fun c => Ascii.eqb c x) s = true.
Proof.
  intros (a & b & ->). rewrite any_append, append_assoc, any_append, any_append.
  simpl. rewrite Ascii.eqb_refl. rewrite !orb_true_r. reflexivity.
Qed.

(** ** The compact-URI pattern *)

Lemma match_one (ic at_end : bool) (a : RegExp.atom) (rest : list RegExp.item)
    (c : ascii) (s : string) :
  RegExp.match_items ic at_end (RegExp.One a :: rest) (String c s)
  = if RegExp.atom_match ic a c then RegExp.match_items ic at_end rest s else None.
Proof. reflexivity. Qed.

Lemma lower_char_eqb (c x : ascii) :
  Ascii.eqb (JS.ascii_lower_char c) x = true -> JS.ascii_lower_char c = x.
Proof. apply Ascii.eqb_eq. Qed.

(** The literal prefix [spotify:] under the flag [i]. *)
Lemma scheme_literal_sound (at_end : bool) (rest : list RegExp.item)
    (s : string) (m : list string * string) :
  RegExp.match_items true at_end (RegExp.lits "spotify:" ++ rest) s = Some m ->
  exists p s',
    s = p ++ ":" ++ s' /\ JS.ascii_lowercase p = "spotify"
    /\ RegExp.match_items true at_end rest s' = Some m.
Proof.
  change (RegExp.lits "spotify:" ++ rest)%list with
    (RegExp.One (RegExp.Lit "s") :: RegExp.One (RegExp.Lit "p")
     :: RegExp.One (RegExp.Lit "o") :: RegExp.One (RegExp.Lit "t")
     :: RegExp.One (RegExp.Lit "i") :: RegExp.One (RegExp.Lit "f")
     :: RegExp.One (RegExp.Lit "y") :: RegExp.One (RegExp.Lit ":") :: rest).
  destruct s as [| c1 s]; [discriminate |].
  rewrite match_one, atom_match_letter by (simpl; tauto).
  destruct (Ascii.eqb_spec (JS.ascii_lower_char c1) "s") as [E1 | _]; [| discriminate].
  destruct s as [| c2 s]; [discriminate |].
  rewrite match_one, atom_match_letter by (simpl; tauto).
  destruct (Ascii.eqb_spec (JS.ascii_lower_char c2) "p") as [E2 | _]; [| discriminate].
  destruct s as [| c3 s]; [discriminate |].
  rewrite match_one, atom_match_letter by (simpl; tauto).
  destruct (Ascii.eqb_spec (JS.ascii_lower_char c3) "o") as [E3 | _]; [| discriminate].
  destruct s as [| c4 s]; [discriminate |].
  rewrite match_one, atom_match_letter by (simpl; tauto).
  destruct (Ascii.eqb_spec (JS.ascii_lower_char c4) "t") as [E4 | _]; [| discriminate].
  destruct s as [| c5 s]; [discriminate |].
  rewrite match_one, atom_match_letter by (simpl; tauto).
  destruct (Ascii.eqb_spec (JS.ascii_lower_char c5) "i") as [E5 | _]; [| discriminate].
  destruct s as [| c6 s]; [discriminate |].
  rewrite match_one, atom_match_letter by (simpl; tauto).
  destruct (Ascii.eqb_spec (JS.ascii_lower_char c6) "f") as [E6 | _]; [| discriminate].
  destruct s as [| c7 s]; [discriminate |].
  rewrite match_one, atom_match_letter by (simpl; tauto).
  destruct (Ascii.eqb_spec (JS.ascii_lower_char c7) "y") as [E7 | _]; [| discriminate].
  destruct s as [| c8 s]; [discriminate |].
  rewrite match_one, atom_match_colon.
  destruct (Ascii.eqb_spec c8 ":") as [-> | _]; [| discriminate].
  intros H.
  exists (String c1 (String c2 (String c3 (String c4 (String c5 (String c6
            (String c7 EmptyString))))))), s.
  split; [reflexivity |]. split; [| exact H].
  simpl. rewrite E1, E2, E3, E4, E5, E6, E7. reflexivity.
Qed.

Lemma String_inj (c c' : ascii) (s s' : string) :
  String c s = String c' s' -> c = c' /\ s = s'.
Proof. intros H. injection H as -> ->. split; reflexivity. Qed.

Lemma scheme_literal_complete (at_end : bool) (rest : list RegExp.item)
    (p s' : string) :
  JS.ascii_lowercase p = "spotify" ->
  RegExp.match_items true at_end (RegExp.lits "spotify:" ++ rest) (p ++ ":" ++ s')
  = RegExp.match_items true at_end rest s'.
Proof.
  intros H.
  destruct p as [| c1 [| c2 [| c3 [| c4 [| c5 [| c6 [| c7 [| c8 p]]]]]]]];
    simpl in H; try discriminate.
  apply String_inj in H. destruct H as [E1 H].
  apply String_inj in H. destruct H as [E2 H].
  apply String_inj in H. destruct H as [E3 H].
  apply String_inj in H. destruct H as [E4 H].
  apply String_inj in H. destruct H as [E5 H].
  apply String_inj in H. destruct H as [E6 H].
  apply String_inj in H. destruct H as [E7 _].
  change (RegExp.lits "spotify:" ++ rest)%list with
    (RegExp.One (RegExp.Lit "s") :: RegExp.One (RegExp.Lit "p")
     :: RegExp.One (RegExp.Lit "o") :: RegExp.One (RegExp.Lit "t")
     :: RegExp.One (RegExp.Lit "i") :: RegExp.One (RegExp.Lit "f")
     :: RegExp.One (RegExp.Lit "y") :: RegExp.One (RegExp.Lit ":") :: rest).
  cbn [append].
  rewrite !match_one, !atom_match_letter by (simpl; tauto).
  rewrite atom_match_colon.
  rewrite E1, E2, E3, E4, E5, E6, E7. reflexivity.
Qed.

Lemma all_type_class (t : string) :
  JS.all (RegExp.atom_match true type_class) t = JS.all is_type_char t.
Proof.
  induction t as [| c t IH]; simpl; [reflexivity |].
  unfold type_class at 1. rewrite atom_match_type_class, IH. reflexivity.
Qed.

Lemma all_id_class (t : string) :
  JS.all (RegExp.atom_match true id_class) t = JS.all is_id_char t.
Proof.
  induction t as [| c t IH]; simpl; [reflexivity |].
  unfold id_class at 1. rewrite atom_match_id_class, IH. reflexivity.
Qed.

Lemma uri_regex_items :
  RegExp.items uri_regex
  = (RegExp.lits "spotify:"
     ++ [RegExp.GroupPlus type_class; RegExp.One (RegExp.Lit ":");
         RegExp.GroupPlus id_class])%list.
Proof. reflexivity. Qed.

(** What the pattern accepts, and what it captures. *)
Lemma uri_regex_sound (s : string) (arr : list string) :
  RegExp.exec uri_regex s = Some arr ->
  exists p t i,
    s = p ++ ":" ++ t ++ ":" ++ i
    /\ JS.ascii_lowercase p = "spotify"
    /\ t <> EmptyString /\ JS.all is_type_char t = true
    /\ i <> EmptyString /\ JS.all is_id_char i = true
    /\ nth 1 arr EmptyString = t /\ nth 2 arr EmptyString = i.
Proof.
  unfold RegExp.exec, RegExp.match_here.
  change (RegExp.anchor_start uri_regex) with true.
  change (RegExp.ignore_case uri_regex) with true.
  change (RegExp.anchor_end uri_regex) with true.
  rewrite uri_regex_items. cbv iota.
  destruct (RegExp.match_items true true _ s) as [m |] eqn:Hm; [| discriminate].
  simpl. intros H. inversion H; subst arr; clear H.
  apply scheme_literal_sound in Hm. destruct Hm as (p & s1 & -> & Hp & Hm).
  cbn [RegExp.match_items] in Hm. destruct m as [caps rest].
  apply plus_match_sound in Hm.
  destruct Hm as (t & s2 & caps1 & -> & Ht & Htall & Hk & ->).
  rewrite all_type_class in Htall.
  destruct s2 as [| c s2]; [discriminate |].
  rewrite atom_match_colon in Hk.
  destruct (Ascii.eqb_spec c ":") as [-> | _]; [| discriminate].
  apply plus_match_sound in Hk.
  destruct Hk as (i & s3 & caps2 & -> & Hi & Hiall & Hk & ->).
  rewrite all_id_class in Hiall.
  destruct s3 as [| c s3]; simpl in Hk; [| discriminate].
  inversion Hk; subst; clear Hk.
  exists p, t, i. rewrite append_empty_r. simpl. repeat split; assumption.
Qed.

Lemma uri_regex_complete (p t i : string) :
  JS.ascii_lowercase p = "spotify" ->
  t <> EmptyString -> JS.all is_type_char t = true ->
  i <> EmptyString -> JS.all is_id_char i = true ->
  RegExp.exec uri_regex (p ++ ":" ++ t ++ ":" ++ i)
  = Some [p ++ ":" ++ t ++ ":" ++ i; t; i].
Proof.
  intros Hp Ht Htall Hi Hiall.
  unfold RegExp.exec, RegExp.match_here.
  change (RegExp.anchor_start uri_regex) with true.
  change (RegExp.ignore_case uri_regex) with true.
  change (RegExp.anchor_end uri_regex) with true.
  rewrite uri_regex_items. cbv iota.
  rewrite (scheme_literal_complete _ _ _ _ Hp).
  cbn [RegExp.match_items].
  rewrite (plus_match_complete true type_class _ t (":" ++ i) EmptyString
             [EmptyString ++ i] EmptyString).
  - unfold RegExp.match_array. cbn [option_map fst snd String.length append].
    rewrite Nat.sub_0_r, substring_full. reflexivity.
  - exact Ht.
  - rewrite all_type_class. exact Htall.
  - reflexivity.
  - cbn [append]. rewrite atom_match_colon. simpl (Ascii.eqb _ _). cbv iota.
    rewrite <- (append_empty_r i) at 1.
    rewrite (plus_match_complete true id_class _ i EmptyString EmptyString
               [] EmptyString); try assumption; try reflexivity.
    rewrite all_id_class. exact Hiall.
Qed.

(* ================================================================== *)
(** * 13. Compact URIs in the URL parser                               *)
(* ================================================================== *)

(** ** Character facts *)

Lemma type_char_compact (c : ascii) : is_type_char c = true -> is_compact_char c = true.
Proof. ascii_cases c. Qed.

Lemma id_char_compact (c : ascii) : is_id_char c = true -> is_compact_char c = true.
Proof. ascii_cases c. Qed.

Lemma scheme_char_compact (c : ascii) :
  WHATWG.is_scheme_char c = true -> is_compact_char c = true.
Proof. ascii_cases c. Qed.

Lemma alpha_scheme_char (c : ascii) :
  JS.is_alpha c = true -> WHATWG.is_scheme_char c = true.
Proof. ascii_cases c. Qed.

Lemma lower_alpha (c : ascii) :
  JS.is_lower (JS.ascii_lower_char c) = true -> JS.is_alpha c = true.
Proof. ascii_cases c. Qed.

Lemma compact_not_white_space (c : ascii) :
  is_compact_char c = true -> JS.is_white_space c = false.
Proof. ascii_cases c. Qed.

Lemma compact_not_c0 (c : ascii) :
  is_compact_char c = true -> WHATWG.is_c0_control_or_space c = false.
Proof. ascii_cases c. Qed.

Lemma compact_not_authority_end (c : ascii) :
  is_compact_char c = true -> WHATWG.is_authority_end true c = false.
Proof. ascii_cases c. Qed.

Lemma compact_not_at (c : ascii) :
  is_compact_char c = true -> WHATWG.is_char "@" c = false.
Proof. ascii_cases c. Qed.

Lemma scheme_char_not_colon (c : ascii) :
  WHATWG.is_scheme_char c = true -> WHATWG.is_char ":" c = false.
Proof. ascii_cases c. Qed.

Lemma type_char_not_slash (c : ascii) :
  is_type_char c = true -> WHATWG.is_slash true c = false.
Proof. ascii_cases c. Qed.

Lemma type_char_not_host_delimiter (c : ascii) :
  is_type_char c = true ->
  WHATWG.is_char ":" c || WHATWG.is_char "[" c || WHATWG.is_char "]" c = false.
Proof. ascii_cases c. Qed.

Lemma type_char_ascii (c : ascii) :
  is_type_char c = true -> (JS.code c <? 128)%N = true.
Proof. ascii_cases c. Qed.

Lemma type_char_not_percent (c : ascii) :
  is_type_char c = true -> WHATWG.is_char "%" c = false.
Proof. ascii_cases c. Qed.

Lemma type_char_not_dot (c : ascii) :
  is_type_char c = true -> Ascii.eqb c "." = false.
Proof. ascii_cases c. Qed.

Lemma type_char_not_hyphen (c : ascii) :
  is_type_char c = true -> Ascii.eqb (JS.ascii_lower_char c) "-" = false.
Proof. ascii_cases c. Qed.

Lemma type_char_lower (c : ascii) :
  is_type_char c = true -> is_lower_type_char (JS.ascii_lower_char c) = true.
Proof. ascii_cases c. Qed.

Lemma lower_type_char_not_forbidden (c : ascii) :
  is_lower_type_char c = true -> WHATWG.forbidden_domain_code_point c = false.
Proof. ascii_cases c. Qed.

Lemma lower_type_char_not_dot (c : ascii) :
  is_lower_type_char c = true -> Ascii.eqb c "." = false.
Proof. ascii_cases c. Qed.

Lemma lower_type_char_not_digit (c : ascii) :
  is_lower_type_char c = true -> JS.is_digit c = false.
Proof. ascii_cases c. Qed.

Lemma lower_type_char_not_zero (c : ascii) :
  is_lower_type_char c = true -> WHATWG.is_char "0" c = false.
Proof. ascii_cases c. Qed.

Lemma lower_type_char_no_decimal (c : ascii) :
  is_lower_type_char c = true -> WHATWG.digit_value 10 c = None.
Proof. ascii_cases c. Qed.

(** ** Parser states on strings without delimiters *)

Lemma break_at_none (q : ascii -> bool) (s : string) :
  JS.any q s = false -> WHATWG.break_at q s = (s, EmptyString).
Proof.
  induction s as [| x s IH]; simpl; [reflexivity |].
  intros H. apply orb_false_elim in H. destruct H as [Hx Hs].
  rewrite Hx, (IH Hs). reflexivity.
Qed.

Lemma after_last_at_none (s : string) :
  JS.any (WHATWG.is_char "@") s = false -> WHATWG.after_last_at s = (false, s).
Proof.
  induction s as [| x s IH]; [reflexivity |].
  intros H. apply orb_false_elim in H. destruct H as [Hx Hs].
  cbn [WHATWG.after_last_at]. rewrite (IH Hs), Hx. reflexivity.
Qed.

Lemma host_scan_colon (t r : string) :
  JS.all is_type_char t = true ->
  WHATWG.host_scan false (t ++ ":" ++ r) = (t, Some r).
Proof.
  induction t as [| c t IH]; [reflexivity |].
  cbn [JS.all append]. rewrite andb_true_iff. intros [Hc Ht].
  cbn [WHATWG.host_scan].
  pose proof (type_char_not_host_delimiter c Hc) as Hd.
  apply orb_false_elim in Hd. destruct Hd as [Hd Hd3].
  apply orb_false_elim in Hd. destruct Hd as [Hd1 Hd2].
  rewrite Hd1, Hd2, Hd3. cbn [andb append] in *. rewrite (IH Ht). reflexivity.
Qed.

Lemma scheme_state_token (p rest : string) :
  JS.all WHATWG.is_scheme_char p = true ->
  WHATWG.scheme_state (p ++ ":" ++ rest) = Some (JS.ascii_lowercase p, rest).
Proof.
  induction p as [| c p IH]; [reflexivity |].
  cbn [JS.all append]. rewrite andb_true_iff. intros [Hc Hp].
  cbn [WHATWG.scheme_state JS.ascii_lowercase append] in *.
  rewrite Hc, (IH Hp). reflexivity.
Qed.

(** The scheme start state on a scheme token followed by a colon. *)
Lemma scheme_start_state_token (s rest : string) :
  JS.all WHATWG.is_scheme_char s = true ->
  WHATWG.scheme_start_state (s ++ ":" ++ rest) = None
  \/ WHATWG.scheme_start_state (s ++ ":" ++ rest) = Some (JS.ascii_lowercase s, rest).
Proof.
  destruct s as [| c s]; [left; reflexivity |].
  cbn [JS.all append]. rewrite andb_true_iff. intros [Hc Hs].
  cbn [WHATWG.scheme_start_state JS.ascii_lowercase].
  destruct (JS.is_alpha c); [| left; reflexivity].
  right. pose proof (scheme_state_token s rest Hs) as E.
  cbn [append] in E. rewrite E. reflexivity.
Qed.

Lemma lowercase_spotify_alpha (p : string) :
  JS.ascii_lowercase p = "spotify" ->
  JS.all JS.is_alpha p = true /\ p <> EmptyString.
Proof.
  intros H.
  destruct p as [| c1 [| c2 [| c3 [| c4 [| c5 [| c6 [| c7 [| c8 p]]]]]]]];
    simpl in H; try discriminate.
  apply String_inj in H. destruct H as [E1 H].
  apply String_inj in H. destruct H as [E2 H].
  apply String_inj in H. destruct H as [E3 H].
  apply String_inj in H. destruct H as [E4 H].
  apply String_inj in H. destruct H as [E5 H].
  apply String_inj in H. destruct H as [E6 H].
  apply String_inj in H. destruct H as [E7 _].
  split; [| discriminate]. simpl.
  rewrite (lower_alpha c1), (lower_alpha c2), (lower_alpha c3), (lower_alpha c4),
    (lower_alpha c5), (lower_alpha c6), (lower_alpha c7);
    [reflexivity | rewrite E7 | rewrite E6 | rewrite E5 | rewrite E4
     | rewrite E3 | rewrite E2 | rewrite E1]; reflexivity.
Qed.

(** ** A type token as a host *)

Lemma starts_with_xn_type (t : string) :
  JS.all is_type_char t = true -> WHATWG.starts_with_xn t = false.
Proof.
  unfold WHATWG.starts_with_xn.
  destruct t as [| c1 [| c2 [| c3 t]]]; try reflexivity.
  - intros _. simpl. destruct (Ascii.eqb _ _); reflexivity.
  - intros _. simpl. do 2 (destruct (Ascii.eqb _ _); try reflexivity).
  - cbn [JS.all]. rewrite !andb_true_iff. intros (_ & _ & H3 & _).
    destruct t as [| c4 t]; simpl;
      rewrite (type_char_not_hyphen c3 H3);
      do 2 (destruct (Ascii.eqb _ _); try reflexivity).
Qed.

Lemma plain_domain_type (t : string) :
  JS.all is_type_char t = true -> WHATWG.plain_domain t = true.
Proof.
  intros H. unfold WHATWG.plain_domain.
  rewrite (all_impl _ _ _ type_char_ascii H).
  rewrite (all_excludes _ _ _ type_char_not_percent H).
  rewrite (split_none "." t (all_excludes _ _ _ type_char_not_dot H)).
  simpl. rewrite (starts_with_xn_type t H). reflexivity.
Qed.

Lemma ends_in_a_number_type (d : string) :
  d <> EmptyString -> JS.all is_lower_type_char d = true ->
  WHATWG.ends_in_a_number d = false.
Proof.
  intros Hne H. unfold WHATWG.ends_in_a_number, WHATWG.dotted_parts.
  rewrite (split_none "." d (all_excludes _ _ _ lower_type_char_not_dot H)).
  destruct d as [| c1 d]; [congruence |].
  cbn [JS.all] in H. apply andb_true_iff in H. destruct H as [H1 H].
  cbn [List.last JS.is_empty List.length Nat.eqb negb JS.all andb].
  rewrite (lower_type_char_not_digit c1 H1). cbn [andb orb].
  unfold WHATWG.ipv4_number.
  destruct d as [| c2 d]; cbn [WHATWG.parse_radix];
    rewrite ?(lower_type_char_not_zero c1 H1); cbn [andb];
    cbn [WHATWG.parse_radix]; rewrite (lower_type_char_no_decimal c1 H1);
    reflexivity.
Qed.

(** A type token is a plain domain: the host parser returns it in lower
    case. *)
Lemma host_parse_type (host_ext : bool -> string -> option string) (t : string) :
  t <> EmptyString -> JS.all is_type_char t = true ->
  WHATWG.host_parse host_ext false t = Some (JS.ascii_lowercase t).
Proof.
  intros Hne H. unfold WHATWG.host_parse.
  assert (Hsw : JS.starts_with "[" t = false).
  { destruct t as [| c t]; [reflexivity |].
    cbn [JS.all] in H. apply andb_true_iff in H. destruct H as [H1 _].
    pose proof (type_char_not_host_delimiter c H1) as Hd.
    apply orb_false_elim in Hd. destruct Hd as [Hd _].
    apply orb_false_elim in Hd. destruct Hd as [_ Hd].
    unfold WHATWG.is_char in Hd. cbn [JS.starts_with].
    rewrite Ascii.eqb_sym, Hd. reflexivity. }
  rewrite Hsw, (plain_domain_type t H).
  unfold WHATWG.domain_parse.
  pose proof (all_lowercase _ _ _ type_char_lower H) as Hl.
  assert (Hd : JS.ascii_lowercase t <> EmptyString)
    by (destruct t; [congruence | discriminate]).
  destruct (JS.is_empty (JS.ascii_lowercase t)) eqn:He;
    [apply is_empty_true in He; congruence |].
  rewrite (all_excludes _ _ _ lower_type_char_not_forbidden Hl).
  rewrite (ends_in_a_number_type _ Hd Hl). reflexivity.
Qed.

Lemma compact_not_slash (c : ascii) :
  is_compact_char c = true -> WHATWG.is_slash true c = false.
Proof. ascii_cases c. Qed.

Lemma type_char_not_solidus (c : ascii) :
  is_type_char c = true -> Ascii.eqb "/" c = false.
Proof. ascii_cases c. Qed.

Lemma colon_compact : is_compact_char ":" = true.
Proof. reflexivity. Qed.

Lemma compact_chars (s t i : string) :
  JS.all WHATWG.is_scheme_char s = true ->
  JS.all is_type_char t = true ->
  JS.all is_id_char i = true ->
  JS.all is_compact_char (s ++ ":" ++ t ++ ":" ++ i) = true.
Proof.
  intros Hs Ht Hi.
  rewrite all_append, (all_impl _ _ _ scheme_char_compact Hs).
  cbn [append JS.all]. rewrite colon_compact.
  rewrite all_append, (all_impl _ _ _ type_char_compact Ht).
  cbn [append JS.all]. rewrite colon_compact.
  rewrite (all_impl _ _ _ id_char_compact Hi). reflexivity.
Qed.

Lemma tail_chars (t i : string) :
  JS.all is_type_char t = true ->
  JS.all is_id_char i = true ->
  JS.all is_compact_char (t ++ ":" ++ i) = true.
Proof.
  intros Ht Hi. rewrite all_append, (all_impl _ _ _ type_char_compact Ht).
  cbn [append JS.all]. rewrite colon_compact.
  rewrite (all_impl _ _ _ id_char_compact Hi). reflexivity.
Qed.

(** Two scheme tokens that are followed by a colon in the same text are
    the same token. *)
Lemma scheme_token_unique (s p x y : string) :
  JS.all WHATWG.is_scheme_char s = true ->
  JS.all WHATWG.is_scheme_char p = true ->
  s ++ ":" ++ x = p ++ ":" ++ y -> s = p.
Proof.
  revert p. induction s as [| c s IH]; intros [| d p]; cbn [JS.all append];
    rewrite ?andb_true_iff; intros Hs Hp H.
  - reflexivity.
  - apply String_inj in H. destruct H as [<- _]. destruct Hp as [Hd _].
    apply scheme_char_not_colon in Hd. discriminate Hd.
  - apply String_inj in H. destruct H as [-> _]. destruct Hs as [Hc _].
    apply scheme_char_not_colon in Hc. discriminate Hc.
  - apply String_inj in H. destruct H as [-> H].
    destruct Hs as [_ Hs]. destruct Hp as [_ Hp].
    rewrite (IH p Hs Hp H). reflexivity.
Qed.

Section Links.

Variable host_ext : bool -> string -> option string.

(** After a scheme that is not special the rest of a compact URI is an
    opaque path, and there is no host. *)
Lemma not_special_opaque (t i : string) :
  t <> EmptyString -> JS.all is_type_char t = true ->
  JS.starts_with "//" (t ++ ":" ++ i) = false
  /\ JS.starts_with "/" (t ++ ":" ++ i) = false.
Proof.
  intros Hne Ht. destruct t as [| c t]; [congruence |].
  cbn [JS.all] in Ht. apply andb_true_iff in Ht. destruct Ht as [Hc _].
  cbn [append JS.starts_with]. rewrite (type_char_not_solidus c Hc). split; reflexivity.
Qed.

(** Where [new URL] accepts a compact URI with any scheme token, the host
    it finds has no dot. *)
Lemma compact_url_host (s t i : string) :
  JS.all WHATWG.is_scheme_char s = true ->
  t <> EmptyString -> JS.all is_type_char t = true ->
  i <> EmptyString -> JS.all is_id_char i = true ->
  match WHATWG.URL_new host_ext (s ++ ":" ++ t ++ ":" ++ i) with
  | None => True
  | Some u => JS.any (fun c => Ascii.eqb c ".") (WHATWG.hostname u) = false
  end.
Proof.
  intros Hs Hne Ht Hi Hiall. unfold WHATWG.URL_new.
  rewrite (preprocess_none _
             (all_excludes _ _ _ compact_not_c0 (compact_chars s t i Hs Ht Hiall))).
  destruct (scheme_start_state_token s (t ++ ":" ++ i) Hs) as [E | E]; rewrite E;
    [exact I |].
  pose proof (tail_chars t i Ht Hiall) as Htail.
  destruct (String.eqb (JS.ascii_lowercase s) "file").
  { destruct t as [| c t]; [congruence |].
    cbn [JS.all] in Ht. apply andb_true_iff in Ht. destruct Ht as [Hc _].
    cbn [append]. unfold WHATWG.file_state.
    rewrite (type_char_not_slash c Hc). reflexivity. }
  destruct (WHATWG.is_special (JS.ascii_lowercase s)).
  - rewrite (drop_while_none _ _ (all_excludes _ _ _ compact_not_slash Htail)).
    unfold WHATWG.authority_state.
    rewrite (break_at_none _ _ (all_excludes _ _ _ compact_not_authority_end Htail)).
    rewrite (after_last_at_none _ (all_excludes _ _ _ compact_not_at Htail)).
    cbn [andb]. unfold WHATWG.host_state.
    rewrite (host_scan_colon t i Ht).
    destruct (JS.is_empty t) eqn:He; [apply is_empty_true in He; congruence |].
    cbn [negb]. rewrite (host_parse_type host_ext t Hne Ht).
    destruct (WHATWG.port_ok i); [| exact I].
    cbn [WHATWG.hostname].
    apply (all_excludes _ _ _ lower_type_char_not_dot).
    apply (all_lowercase _ _ _ type_char_lower Ht).
  - destruct (not_special_opaque t i Hne Ht) as [-> ->]. reflexivity.
Qed.

(** [new URL] accepts every compact Spotify URI, as a URL without a
    host. *)
Lemma spotify_uri_is_a_url (p t i : string) :
  JS.ascii_lowercase p = "spotify" ->
  t <> EmptyString -> JS.all is_type_char t = true ->
  i <> EmptyString -> JS.all is_id_char i = true ->
  exists path,
    WHATWG.URL_new host_ext (p ++ ":" ++ t ++ ":" ++ i)
    = Some (WHATWG.mkURL EmptyString path).
Proof.
  intros Hp Hne Ht Hi Hiall.
  destruct (lowercase_spotify_alpha p Hp) as [Halpha Hpne].
  pose proof (all_impl _ _ _ alpha_scheme_char Halpha) as Hs.
  unfold WHATWG.URL_new.
  rewrite (preprocess_none _
             (all_excludes _ _ _ compact_not_c0 (compact_chars p t i Hs Ht Hiall))).
  destruct p as [| c p]; [congruence |].
  cbn [JS.all] in Halpha, Hs. apply andb_true_iff in Halpha, Hs.
  destruct Halpha as [Hc _]. destruct Hs as [_ Hs].
  cbn [append WHATWG.scheme_start_state]. rewrite Hc.
  pose proof (scheme_state_token p (t ++ ":" ++ i) Hs) as E.
  cbn [append] in E. rewrite E. cbn [JS.ascii_lowercase] in Hp. rewrite Hp.
  change (String.eqb "spotify" "file") with false.
  change (WHATWG.is_special "spotify") with false. cbv iota.
  destruct (not_special_opaque t i Hne Ht) as [E1 E2].
  cbn [append] in E1, E2. rewrite E1, E2. eexists. reflexivity.
Qed.

Lemma uri_match_is_a_url (trimmed : string) (arr : list string) :
  RegExp.exec uri_regex trimmed = Some arr ->
  exists path,
    WHATWG.URL_new host_ext trimmed = Some (WHATWG.mkURL EmptyString path).
Proof.
  intros H. apply uri_regex_sound in H.
  destruct H as (p & t & i & -> & Hp & Hne & Ht & Hi & Hiall & _).
  apply spotify_uri_is_a_url; assumption.
Qed.

(** The provider check is the search for [.spotify.] in the host. *)
Lemma host_regex_spec (h : string) :
  RegExp.test host_regex h = true <-> Contains ".spotify." h.
Proof. split; [apply test_literal_sound | apply test_literal_complete]. Qed.

Lemma not_contains_empty (needle : string) :
  needle <> EmptyString -> ~ Contains needle EmptyString.
Proof.
  intros Hne (a & b & H). destruct a as [| c a]; [| discriminate].
  destruct needle; [congruence | discriminate].
Qed.

Lemma trim_empty_input (input : string) :
  JS.truthy input = false -> JS.trim input = EmptyString.
Proof. destruct input; [reflexivity | discriminate]. Qed.

Lemma URL_new_empty : WHATWG.URL_new host_ext EmptyString = None.
Proof. reflexivity. Qed.

(** C5. An input whose trimmed text has the shape [scheme:type:id], with
    a type of letters and underscores and an alphanumeric id, resolves to
    [{type: lowercase(type), id}] when the scheme is [spotify] in any
    letter case, and to no result when the scheme token is any other. *)
Theorem parseSpotifyLink_compact_uri :
  forall (input scheme type id : string),
    JS.trim input = scheme ++ ":" ++ type ++ ":" ++ id ->
    JS.all WHATWG.is_scheme_char scheme = true ->
    type <> EmptyString -> JS.all is_type_char type = true ->
    id <> EmptyString -> JS.all is_id_char id = true ->
    parseSpotifyLink host_ext input
    = if String.eqb (JS.ascii_lowercase scheme) "spotify"
      then Some (Link.mk (JS.toLowerCase type) id)
      else None.
Proof.
  intros input s t i Htrim Hs Hne Ht Hi Hiall.
  unfold parseSpotifyLink.
  destruct (JS.truthy input) eqn:Hin.
  2:{ rewrite (trim_empty_input _ Hin) in Htrim.
      destruct s; discriminate Htrim. }
  cbn [negb]. rewrite Htrim.
  destruct (String.eqb_spec (JS.ascii_lowercase s) "spotify") as [Hp | Hp].
  - rewrite (uri_regex_complete s t i Hp Hne Ht Hi Hiall). reflexivity.
  - destruct (RegExp.exec uri_regex _) as [arr |] eqn:Hex.
    + exfalso. apply uri_regex_sound in Hex.
      destruct Hex as (p & t' & i' & Heq & Hp' & _).
      apply Hp.
      destruct (lowercase_spotify_alpha p Hp') as [Halpha _].
      rewrite (scheme_token_unique s p _ _ Hs
                 (all_impl _ _ _ alpha_scheme_char Halpha) Heq).
      exact Hp'.
    + pose proof (compact_url_host s t i Hs Hne Ht Hi Hiall) as Hhost.
      destruct (WHATWG.URL_new host_ext _) as [url |]; [| reflexivity].
      destruct (RegExp.test host_regex (WHATWG.hostname url)) eqn:Htest;
        [| reflexivity].
      apply host_regex_spec in Htest.
      apply (contains_char "." EmptyString "spotify.") in Htest.
      congruence.
Qed.

(** C6. When [new URL] accepts the trimmed input, the host passes the
    provider check and the path has at least two non-empty segments, the
    resolver returns the first segment in lower case as the type and the
    second segment, cut before its first [?] and otherwise unchanged, as
    the id. When [new URL] rejects the trimmed input the result is
    [null]; nothing is thrown. *)
Theorem parseSpotifyLink_hierarchical_url :
  forall (input : string),
    (forall (url : WHATWG.URL) (seg1 seg2 : string) (more : list string),
        WHATWG.URL_new host_ext (JS.trim input) = Some url ->
        Contains ".spotify." (WHATWG.hostname url) ->
        JS.filter_Boolean (JS.split "/" (WHATWG.pathname url)) = seg1 :: seg2 :: more ->
        exists id,
          parseSpotifyLink host_ext input = Some (Link.mk (JS.toLowerCase seg1) id)
          /\ StrippedOfQuery seg2 id)
    /\ (WHATWG.URL_new host_ext (JS.trim input) = None ->
        parseSpotifyLink host_ext input = None).
Proof.
  intros input. split.
  - intros url seg1 seg2 more Hurl Hhost Hparts.
    unfold parseSpotifyLink.
    destruct (JS.truthy input) eqn:Hin.
    2:{ rewrite (trim_empty_input _ Hin), URL_new_empty in Hurl. discriminate. }
    cbn [negb].
    destruct (RegExp.exec uri_regex (JS.trim input)) as [arr |] eqn:Hex.
    { exfalso. destruct (uri_match_is_a_url _ _ Hex) as [path Hp].
      rewrite Hp in Hurl. inversion Hurl; subst url.
      apply (not_contains_empty ".spotify."); [discriminate | exact Hhost]. }
    rewrite Hurl, (proj2 (host_regex_spec _) Hhost). cbn [negb].
    rewrite Hparts. cbn [List.length Nat.leb nth].
    eexists. split; [reflexivity |].
    destruct (split_first "?" seg2) as [Hno Hcut].
    split; [exact Hno |].
    destruct Hcut as [Hcut | [q Hcut]]; [left; exact Hcut | right; exists q; exact Hcut].
  - intros Hurl. unfold parseSpotifyLink.
    destruct (JS.truthy input); [| reflexivity]. cbn [negb].
    destruct (RegExp.exec uri_regex (JS.trim input)) as [arr |] eqn:Hex.
    + destruct (uri_match_is_a_url _ _ Hex) as [path Hp]. congruence.
    + rewrite Hurl. reflexivity.
Qed.

(** C10. The URL branch returns a result only for a URL whose host name
    contains [.spotify.], a dot on both sides; a URL whose host is the
    apex domain [spotify.com] resolves to no result. *)
Theorem parseSpotifyLink_host_check :
  forall (input : string),
    (forall (link : Link.t),
        RegExp.exec uri_regex (JS.trim input) = None ->
        parseSpotifyLink host_ext input = Some link ->
        exists url,
          WHATWG.URL_new host_ext (JS.trim input) = Some url
          /\ Contains ".spotify." (WHATWG.hostname url))
    /\ (forall (url : WHATWG.URL),
          WHATWG.URL_new host_ext (JS.trim input) = Some url ->
          WHATWG.hostname url = "spotify.com" ->
          parseSpotifyLink host_ext input = None).
Proof.
  intros input. split.
  - intros link Hex. unfold parseSpotifyLink.
    destruct (JS.truthy input); [| discriminate]. cbn [negb]. rewrite Hex.
    destruct (WHATWG.URL_new host_ext (JS.trim input)) as [url |]; [| discriminate].
    destruct (RegExp.test host_regex (WHATWG.hostname url)) eqn:Htest;
      [| discriminate].
    intros _. exists url. split; [reflexivity |].
    apply host_regex_spec. exact Htest.
  - intros url Hurl Hhost. unfold parseSpotifyLink.
    destruct (JS.truthy input); [| reflexivity]. cbn [negb].
    destruct (RegExp.exec uri_regex (JS.trim input)) as [arr |] eqn:Hex.
    + destruct (uri_match_is_a_url _ _ Hex) as [path Hp].
      rewrite Hp in Hurl. inversion Hurl; subst url. discriminate Hhost.
    + rewrite Hurl, Hhost. reflexivity.
Qed.

(* ================================================================== *)
(** * 14. [GET /api/cover]                                             *)
(* ================================================================== *)

Lemma api_cover_answers (url : option string) (w : World) :
  exists r w', api_cover host_ext url w = (Ok r, w').
Proof.
  unfold api_cover, try_catch.
  match goal with |- context [match ?m w with _ => _ end] => destruct (m w) as [[r | e] w'] end;
    do 2 eexists; reflexivity.
Qed.

(** C1, as amended. While the client credentials are absent, a request
    to [GET /api/cover] is always answered and nothing is thrown past the
    handler. When no valid token is cached either, a link that parses is
    answered with status 500 and the message of the missing credentials,
    and a link that does not parse with the 400 of an invalid link; no
    request is sent and the world is left as it was. *)
Theorem api_cover_without_credentials :
  forall (url : option string) (w : World),
    credentials_absent (env w) ->
    (exists r w', api_cover host_ext url w = (Ok r, w'))
    /\ (~ cached_token_valid w ->
        api_cover host_ext url w
        = (Ok (match parseSpotifyLink host_ext (string_or url EmptyString) with
               | Some _ =>
                   json_response 500
                     (ErrorJSON "Missing SPOTIFY_CLIENT_ID or SPOTIFY_CLIENT_SECRET in .env"
                        None)
               | None =>
                   json_response 400
                     (ErrorJSON "Invalid or unsupported Spotify link/URI." None)
               end), w)).
Proof.
  intros url w Habs. split; [apply api_cover_answers |].
  intros Hcache. unfold api_cover, try_catch.
  destruct (parseSpotifyLink host_ext (string_or url EmptyString)) as [parsed |];
    [| reflexivity].
  unfold getImagesFor. unfold bind at 1. unfold bind at 1.
  rewrite (getAccessToken_missing_credentials w Hcache Habs). reflexivity.
Qed.

End Links.

Lemma parseSpotifyLink_compact_uri_witness :
  parseSpotifyLink host_ext_none "  SPOTIFY:Track:3AJwUDP919kvQ9QcozQPxg "
  = Some (Link.mk "track" "3AJwUDP919kvQ9QcozQPxg")
  /\ parseSpotifyLink host_ext_none "deezer:track:3135556" = None.
Proof.
  split.
  - apply (parseSpotifyLink_compact_uri host_ext_none
             "  SPOTIFY:Track:3AJwUDP919kvQ9QcozQPxg "
             "SPOTIFY" "Track" "3AJwUDP919kvQ9QcozQPxg");
      solve [reflexivity | discriminate].
  - apply (parseSpotifyLink_compact_uri host_ext_none "deezer:track:3135556"
             "deezer" "track" "3135556");
      solve [reflexivity | discriminate].
Defined.

Lemma parseSpotifyLink_hierarchical_url_witness :
  exists id,
    parseSpotifyLink host_ext_none
      "https://open.spotify.com/Track/3AJwUDP919kvQ9QcozQPxg?si=abc"
    = Some (Link.mk "track" id)
    /\ StrippedOfQuery "3AJwUDP919kvQ9QcozQPxg" id.
Proof.
  apply (proj1 (parseSpotifyLink_hierarchical_url host_ext_none
                  "https://open.spotify.com/Track/3AJwUDP919kvQ9QcozQPxg?si=abc")
           (WHATWG.mkURL "open.spotify.com" "/Track/3AJwUDP919kvQ9QcozQPxg")
           "Track" "3AJwUDP919kvQ9QcozQPxg" []).
  - reflexivity.
  - exists "open", "com". reflexivity.
  - reflexivity.
Defined.

Lemma parseSpotifyLink_host_check_witness :
  parseSpotifyLink host_ext_none "https://spotify.com/track/3AJwUDP919kvQ9QcozQPxg"
  = None.
Proof.
  apply (proj2 (parseSpotifyLink_host_check host_ext_none
                  "https://spotify.com/track/3AJwUDP919kvQ9QcozQPxg")
           (WHATWG.mkURL "spotify.com" "/track/3AJwUDP919kvQ9QcozQPxg")).
  - reflexivity.
  - reflexivity.
Defined.

Lemma api_cover_without_credentials_witness :
  api_cover host_ext_none (Some "spotify:track:3AJwUDP919kvQ9QcozQPxg")
    world_no_credentials
  = (Ok (json_response 500
           (ErrorJSON "Missing SPOTIFY_CLIENT_ID or SPOTIFY_CLIENT_SECRET in .env"
              None)),
     world_no_credentials).
Proof.
  apply (proj2 (api_cover_without_credentials host_ext_none
                  (Some "spotify:track:3AJwUDP919kvQ9QcozQPxg")
                  world_no_credentials
                  (or_introl eq_refl))).
  intros [H _]. discriminate H.
Defined.

(** C1, as stated, fails for a link that parses: with no credentials and
    an empty cache the answer has status 500, not 400. *)
Lemma api_cover_without_credentials_counterexample :
  credentials_absent (env world_no_credentials)
  /\ fst (api_cover host_ext_none (Some "spotify:track:3AJwUDP919kvQ9QcozQPxg")
            world_no_credentials)
     = Ok (json_response 500
             (ErrorJSON "Missing SPOTIFY_CLIENT_ID or SPOTIFY_CLIENT_SECRET in .env"
                None)).
Proof. split; [left; reflexivity | reflexivity]. Qed.

(* ================================================================== *)
(** * 15. Credential cache: effects                                    *)
(* ================================================================== *)

Ltac unfold_monad :=
  unfold bind, ret, throw, await, try_catch, get_env, get_tokenCache,
    set_tokenCache, get_Date_now, console_log, fetch, sharp, nowSeconds.

Lemma getAccessToken_run (w : World) :
  getAccessToken w
  = if truthy (TokenCache.accessToken (tokenCache w))
       && (TokenCache.expiresAt (tokenCache w) - 30 >? Date_now w / 1000)%Z
    then (Ok (TokenCache.accessToken (tokenCache w)), w)
    else if negb (truthy (Env.SPOTIFY_CLIENT_ID (env w)))
            || negb (truthy (Env.SPOTIFY_CLIENT_SECRET (env w)))
    then (Throw "Missing SPOTIFY_CLIENT_ID or SPOTIFY_CLIENT_SECRET in .env", w)
    else
      let w1 := after_fetch w (credentials_request (env w)) in
      match outcome (network w (credentials_request (env w))) with
      | Throw e => (Throw e, w1)
      | Ok resp =>
          if Response.ok resp then
            match Response.json resp with
            | Throw e => (Throw e, w1)
            | Ok data =>
                (Ok (Data.access_token data),
                 mkWorld (env w)
                   (TokenCache.mk (Data.access_token data)
                      (Date_now w1 / 1000 + declared_lifetime data)%Z)
                   (Date_now w1) (network w) (sharp_resize_jpeg w)
                   (requests w1) (console w))
            end
          else
            match Response.text resp with
            | Throw e => (Throw e, w1)
            | Ok text =>
                (Throw ("Token request failed: "
                        ++ JS.string_of_Z (Response.status resp) ++ " " ++ text), w1)
            end
      end.
Proof.
  unfold getAccessToken, nowSeconds. unfold_monad. cbn beta iota.
  destruct (truthy _ && _); [reflexivity |].
  destruct (negb _ || negb _); [reflexivity |].
  unfold credentials_request, after_fetch. cbv zeta.
  destruct (outcome _) as [resp | e]; [| reflexivity].
  destruct (Response.ok resp); cbn [negb].
  - destruct (Response.json resp); reflexivity.
  - destruct (Response.text resp); reflexivity.
Qed.

Lemma getAccessToken_frame :
  forall (w : World),
    let w' := snd (getAccessToken w) in
    (requests w' = requests w
     \/ requests w' = (requests w ++ [credentials_request (env w)])%list)
    /\ (cached_token_valid w \/ credentials_absent (env w) ->
        requests w' = requests w)
    /\ env w' = env w /\ network w' = network w
    /\ sharp_resize_jpeg w' = sharp_resize_jpeg w
    /\ console w' = console w
    /\ (Date_now w <= Date_now w')%Z.
Proof.
  intros w. cbv zeta. rewrite getAccessToken_run.
  pose proof (N2Z.is_nonneg (latency (network w (credentials_request (env w))))) as Hn.
  destruct (truthy _ && _) eqn:Hc.
  { cbn [snd]. repeat split; auto; lia. }
  destruct (negb _ || negb _) eqn:Ha.
  { cbn [snd]. repeat split; auto; lia. }
  assert (Hno : cached_token_valid w \/ credentials_absent (env w) -> False).
  { intros [Hv | Hv].
    - apply cached_token_valid_test in Hv. congruence.
    - apply orb_false_elim in Ha. destruct Ha as [H1 H2].
      apply negb_false_iff in H1, H2. destruct Hv; congruence. }
  cbv zeta.
  destruct (outcome _) as [resp | e];
    [destruct (Response.ok resp);
     [destruct (Response.json resp) | destruct (Response.text resp)] |];
    cbn [snd after_fetch requests env network sharp_resize_jpeg console Date_now];
    repeat split; auto; try lia; intros H; destruct (Hno H).
Qed.

(** X1. [getAccessToken] sends nothing, or exactly one request: the
    credential exchange. It sends nothing when the cached token is valid
    or the credentials are absent. The configuration, the oracles and the
    log are never touched, and the call never sets the clock back. *)
Theorem getAccessToken_request_discipline :
  forall (w : World),
    let w' := snd (getAccessToken w) in
    (requests w' = requests w
     \/ requests w' = (requests w ++ [credentials_request (env w)])%list)
    /\ (cached_token_valid w \/ credentials_absent (env w) ->
        requests w' = requests w)
    /\ env w' = env w /\ network w' = network w
    /\ sharp_resize_jpeg w' = sharp_resize_jpeg w
    /\ console w' = console w
    /\ (Date_now w <= Date_now w')%Z.
Proof. exact getAccessToken_frame. Qed.

(** X2. A call of [getAccessToken] that fails leaves the token cache as
    it was: an expired token is not dropped by a failed refresh. *)
Theorem getAccessToken_failure_keeps_cache :
  forall (w : World) (e : string) (w' : World),
    getAccessToken w = (Throw e, w') ->
    tokenCache w' = tokenCache w.
Proof.
  intros w e w'. rewrite getAccessToken_run.
  destruct (truthy _ && _); [discriminate |].
  destruct (negb _ || negb _); [intros H; inversion H; reflexivity |].
  cbv zeta.
  destruct (outcome _) as [resp | e0];
    [destruct (Response.ok resp);
     [destruct (Response.json resp) | destruct (Response.text resp)] |];
    intros H; inversion H; reflexivity.
Qed.

Lemma getAccessToken_failure_keeps_cache_witness :
  tokenCache (snd (getAccessToken world_bad_credentials))
  = TokenCache.mk (Some "BQDold") 1700000010.
Proof.
  apply (getAccessToken_failure_keeps_cache world_bad_credentials
           "Token request failed: 401 invalid_client"
           (snd (getAccessToken world_bad_credentials))).
  reflexivity.
Defined.

(** X3. What [getAccessToken] returns is what the cache holds after the
    call. *)
Theorem getAccessToken_returns_cached_value :
  forall (w : World) (tok : option string) (w' : World),
    getAccessToken w = (Ok tok, w') ->
    TokenCache.accessToken (tokenCache w') = tok.
Proof.
  intros w tok w'. rewrite getAccessToken_run.
  destruct (truthy _ && _); [intros H; inversion H; reflexivity |].
  destruct (negb _ || negb _); [discriminate |].
  cbv zeta.
  destruct (outcome _) as [resp | e0];
    [destruct (Response.ok resp);
     [destruct (Response.json resp) | destruct (Response.text resp)] |];
    intros H; inversion H; reflexivity.
Qed.

Lemma getAccessToken_returns_cached_value_witness :
  TokenCache.accessToken (tokenCache (snd (getAccessToken world_default_lifetime)))
  = Some "BQDdefault".
Proof.
  apply (getAccessToken_returns_cached_value world_default_lifetime
           (Some "BQDdefault") (snd (getAccessToken world_default_lifetime))).
  reflexivity.
Defined.

(** X4. Exchange once, then reuse: when the exchange answers with a
    non-empty token whose declared lifetime exceeds 30 seconds, the call
    sends the one exchange request, and a second call made right after it
    returns the same token and changes nothing. *)
Theorem getAccessToken_then_reuse :
  forall (w : World) (resp : Response.t) (data : Data.t),
    ~ cached_token_valid w ->
    credentials_present (env w) ->
    outcome (network w (credentials_request (env w))) = Ok resp ->
    Response.ok resp = true ->
    Response.json resp = Ok data ->
    truthy (Data.access_token data) = true ->
    (30 < declared_lifetime data)%Z ->
    let w1 := snd (getAccessToken w) in
    fst (getAccessToken w) = Ok (Data.access_token data)
    /\ requests w1 = (requests w ++ [credentials_request (env w)])%list
    /\ getAccessToken w1 = (Ok (Data.access_token data), w1).
Proof.
  intros w resp data Hc [Hid Hsec] Hout Hok Hjson Htok Hlife. cbv zeta.
  rewrite cached_token_valid_test in Hc. apply not_true_is_false in Hc.
  rewrite (getAccessToken_run w), Hc, Hid, Hsec. cbn [negb orb]. cbv zeta.
  rewrite Hout, Hok, Hjson. cbn [fst snd requests after_fetch].
  repeat split.
  rewrite getAccessToken_cached; [reflexivity |].
  split; [exact Htok |]. unfold safety_margin.
  cbn [tokenCache Date_now TokenCache.expiresAt after_fetch]. lia.
Qed.

Lemma getAccessToken_then_reuse_witness :
  fst (getAccessToken world_default_lifetime) = Ok (Some "BQDdefault")
  /\ requests (snd (getAccessToken world_default_lifetime))
     = [credentials_request (env world_default_lifetime)]
  /\ getAccessToken (snd (getAccessToken world_default_lifetime))
     = (Ok (Some "BQDdefault"), snd (getAccessToken world_default_lifetime)).
Proof.
  apply (getAccessToken_then_reuse world_default_lifetime
           (ok_json default_lived_token) default_lived_token).
  - intros [H _]. discriminate H.
  - split; reflexivity.
  - reflexivity.
  - reflexivity.
  - reflexivity.
  - reflexivity.
  - reflexivity.
Defined.

(* ================================================================== *)
(** * 16. Resource fetcher and [GET /api/cover]: more properties       *)
(* ================================================================== *)

Lemma fetchJSON_run (url : string) (tok : option string) (w : World) :
  fetchJSON url tok w
  = let rq := Request.mk url "GET"
                [("Authorization", "Bearer " ++ template tok)] NoBody in
    match outcome (network w rq) with
    | Throw e => (Throw e, after_fetch w rq)
    | Ok r =>
        if Response.ok r then (Response.json r, after_fetch w rq)
        else
          match Response.text r with
          | Throw e => (Throw e, after_fetch w rq)
          | Ok txt =>
              (Throw ("Spotify API error: " ++ JS.string_of_Z (Response.status r)
                      ++ " " ++ txt), after_fetch w rq)
          end
    end.
Proof.
  unfold fetchJSON. unfold_monad. cbv zeta. unfold after_fetch.
  destruct (outcome _) as [r | e]; [| reflexivity].
  destruct (Response.ok r); cbn [negb]; [reflexivity |].
  destruct (Response.text r); reflexivity.
Qed.

Lemma is_supported_type_name (t : ResourceType) :
  is_supported_type (type_name t) = true.
Proof. destruct t; reflexivity. Qed.

Lemma supported_type_name (type : string) :
  is_supported_type type = true -> exists t, type = type_name t.
Proof.
  unfold is_supported_type, supported_types. cbn [existsb].
  rewrite !orb_true_iff, !String.eqb_eq.
  intros [H | [H | [H | [H | [H | [H | H]]]]]]; try discriminate H; subst type.
  - exists track. reflexivity.
  - exists album. reflexivity.
  - exists artist. reflexivity.
  - exists playlist. reflexivity.
  - exists episode. reflexivity.
  - exists show. reflexivity.
Qed.

(** A type outside the six reaches the [default] arm, after the token has
    been obtained. *)
Lemma getImagesFor_unsupported (type id : string) (w w1 : World)
    (tok : option string) :
  is_supported_type type = false ->
  getAccessToken w = (Ok tok, w1) ->
  getImagesFor type id w = (Throw ("Unsupported type: " ++ type), w1).
Proof.
  unfold is_supported_type, supported_types. cbn [existsb].
  intros H Htok.
  repeat (apply orb_false_elim in H; destruct H as [? H]).
  unfold getImagesFor. unfold bind at 1. rewrite Htok.
  repeat match goal with E : String.eqb type _ = false |- _ => rewrite E; clear E end.
  reflexivity.
Qed.

(** A result of the fetcher is a row of the table for one of the six
    types. *)
Lemma getImagesFor_inv (type id : string) (w w' : World) (res : Resource.t) :
  getImagesFor type id w = (Ok res, w') ->
  exists t d tok w1,
    type = type_name t
    /\ getAccessToken w = (Ok tok, w1)
    /\ fetchJSON (lookup_url t id) tok w1 = (Ok d, w')
    /\ res = table_row t d.
Proof.
  unfold getImagesFor. unfold bind at 1.
  destruct (getAccessToken w) as [[tok | e] w1]; [| discriminate].
  change (api_base ++ "/tracks/" ++ id) with (lookup_url track id).
  change (api_base ++ "/albums/" ++ id) with (lookup_url album id).
  change (api_base ++ "/artists/" ++ id) with (lookup_url artist id).
  change (api_base ++ "/playlists/" ++ id) with (lookup_url playlist id).
  change (api_base ++ "/episodes/" ++ id) with (lookup_url episode id).
  change (api_base ++ "/shows/" ++ id) with (lookup_url show id).
  cbv zeta.
  destruct (String.eqb_spec type "track") as [-> | _].
  { unfold bind, ret. destruct (fetchJSON _ _ w1) as [[d | e] w2] eqn:Hf; [| discriminate].
    intros H. inversion H; subst. exists track, d, tok, w1. repeat split; exact Hf. }
  destruct (String.eqb_spec type "album") as [-> | _].
  { unfold bind, ret. destruct (fetchJSON _ _ w1) as [[d | e] w2] eqn:Hf; [| discriminate].
    intros H. inversion H; subst. exists album, d, tok, w1. repeat split; exact Hf. }
  destruct (String.eqb_spec type "artist") as [-> | _].
  { unfold bind, ret. destruct (fetchJSON _ _ w1) as [[d | e] w2] eqn:Hf; [| discriminate].
    intros H. inversion H; subst. exists artist, d, tok, w1. repeat split; exact Hf. }
  destruct (String.eqb_spec type "playlist") as [-> | _].
  { unfold bind, ret. destruct (fetchJSON _ _ w1) as [[d | e] w2] eqn:Hf; [| discriminate].
    intros H. inversion H; subst. exists playlist, d, tok, w1. repeat split; [exact Hf |].
    unfold table_row. rewrite <- byline_playlist. reflexivity. }
  destruct (String.eqb_spec type "episode") as [-> | _].
  { unfold bind, ret. destruct (fetchJSON _ _ w1) as [[d | e] w2] eqn:Hf; [| discriminate].
    intros H. inversion H; subst. exists episode, d, tok, w1. repeat split; [exact Hf |].
    unfold table_row. rewrite <- byline_episode. reflexivity. }
  destruct (String.eqb_spec type "show") as [-> | _].
  { unfold bind, ret. destruct (fetchJSON _ _ w1) as [[d | e] w2] eqn:Hf; [| discriminate].
    intros H. inversion H; subst. exists show, d, tok, w1. repeat split; exact Hf. }
  discriminate.
Qed.

(** ** The log line *)

Lemma string_of_640 : template_value (Number 640) = "640".
Proof. reflexivity. Qed.

Lemma all_some_640 (l : list (option Image.t)) :
  exists imgs,
    all_some (filter is_640_square l) = Some imgs
    /\ map (fun i => template_value (Image.width i) ++ "x"
                     ++ template_value (Image.height i)) imgs
       = repeat "640x640" (List.length (filter is_640_square l)).
Proof.
  induction l as [| a l (imgs & Hs & Hm)]; [exists []; split; reflexivity |].
  cbn [filter]. destruct (is_640_square a) eqn:Ha; [| exists imgs; split; assumption].
  apply is_640_square_spec in Ha. destruct Ha as (i & -> & Hw & Hh).
  exists (i :: imgs). cbn [all_some List.length repeat map]. rewrite Hs, Hm, Hw, Hh.
  split; reflexivity.
Qed.

Lemma only640_filter (imgs : option (list (option Image.t))) :
  only640 imgs
  = filter is_640_square (match imgs with Some l => l | None => [] end).
Proof. unfold only640. apply filter_ext. intros a. apply only640_test. Qed.

(** After the filter the log line is always written, with [640x640] once
    per image. *)
Lemma log_cover_row (t : ResourceType) (d : Data.t) (id : string) (w : World) :
  log_cover (table_row t d) id w
  = (Ok tt,
     with_console_line w
       (cover_log_line (type_name t) id
          (List.length (only640 (table_image_source t d))))).
Proof.
  unfold log_cover, table_row. cbn [Resource.images Resource.type].
  rewrite only640_filter.
  destruct (all_some_640 (match table_image_source t d with
                          | Some l => l | None => [] end)) as (imgs & Hs & Hm).
  rewrite Hs, Hm. reflexivity.
Qed.

Lemma only640_all_square (imgs : option (list (option Image.t))) (img : option Image.t) :
  In img (only640 imgs) -> Is640Square img.
Proof.
  rewrite only640_filter, filter_In, is_640_square_spec. intros [_ H]. exact H.
Qed.

Section Cover.

Variable host_ext : bool -> string -> option string.

Lemma api_cover_run (url : option string) (w : World) :
  api_cover host_ext url w
  = match parseSpotifyLink host_ext (string_or url EmptyString) with
    | None =>
        (Ok (json_response 400
               (ErrorJSON "Invalid or unsupported Spotify link/URI." None)), w)
    | Some parsed =>
        match getImagesFor (Link.type parsed) (Link.id parsed) w with
        | (Throw e, w1) => (Ok (json_response 500 (ErrorJSON e None)), w1)
        | (Ok data, w1) =>
            match log_cover data (Link.id parsed) w1 with
            | (Throw e, w2) => (Ok (json_response 500 (ErrorJSON e None)), w2)
            | (Ok _, w2) =>
                (Ok (json_response 200
                       (CoverJSON (Link.id parsed) (Resource.type data)
                          (Resource.title data) (Resource.byline data)
                          (Resource.images data))), w2)
            end
        end
    end.
Proof.
  unfold api_cover, try_catch.
  destruct (parseSpotifyLink host_ext _) as [parsed |]; [| reflexivity].
  unfold bind at 1.
  destruct (getImagesFor _ _ w) as [[data | e] w1]; [| reflexivity].
  unfold bind, ret.
  destruct (log_cover data _ w1) as [[[] | e] w2]; reflexivity.
Qed.

(** X5. A link that parses to a type outside the six is answered with
    status 500 and ["Unsupported type: <type>"]; the type is only looked
    at after the token has been obtained, so the answer comes in the
    world the token call left. *)
Theorem api_cover_unsupported_type :
  forall (url : option string) (w w1 : World) (link : Link.t)
         (tok : option string),
    parseSpotifyLink host_ext (string_or url EmptyString) = Some link ->
    is_supported_type (Link.type link) = false ->
    getAccessToken w = (Ok tok, w1) ->
    api_cover host_ext url w
    = (Ok (json_response 500
             (ErrorJSON ("Unsupported type: " ++ Link.type link) None)), w1).
Proof.
  intros url w w1 link tok Hparse Htype Htok.
  rewrite api_cover_run, Hparse.
  rewrite (getImagesFor_unsupported _ _ _ _ _ Htype Htok). reflexivity.
Qed.

(** X6. When the lookup of the resource is answered with a non-success
    status, the handler answers 500 and its error text carries the
    upstream status and body: ["Spotify API error: <status> <body>"]. *)
Theorem api_cover_lookup_failure :
  forall (url : option string) (w w1 : World) (link : Link.t)
         (t : ResourceType) (tok : option string)
         (resp : Response.t) (body : string),
    parseSpotifyLink host_ext (string_or url EmptyString) = Some link ->
    Link.type link = type_name t ->
    getAccessToken w = (Ok tok, w1) ->
    outcome (network w (lookup_request t (Link.id link) tok)) = Ok resp ->
    Response.ok resp = false ->
    Response.text resp = Ok body ->
    api_cover host_ext url w
    = (Ok (json_response 500
             (ErrorJSON ("Spotify API error: " ++ JS.string_of_Z (Response.status resp)
                         ++ " " ++ body) None)),
       after_fetch w1 (lookup_request t (Link.id link) tok)).
Proof.
  intros url w w1 link t tok resp body Hparse Htype Htok Hout Hok Htext.
  rewrite api_cover_run, Hparse, Htype.
  assert (Hnet : network w1 = network w).
  { pose proof (getAccessToken_frame w) as F. cbv zeta in F.
    rewrite Htok in F. cbn [snd] in F. tauto. }
  assert (Hf : fetchJSON (lookup_url t (Link.id link)) tok w1
               = (Throw ("Spotify API error: "
                         ++ JS.string_of_Z (Response.status resp) ++ " " ++ body),
                  after_fetch w1 (lookup_request t (Link.id link) tok))).
  { rewrite fetchJSON_run. cbv zeta.
    change (Request.mk (lookup_url t (Link.id link)) "GET"
              [("Authorization", "Bearer " ++ template tok)] NoBody)
      with (lookup_request t (Link.id link) tok).
    rewrite Hnet, Hout, Hok, Htext. reflexivity. }
  unfold getImagesFor. unfold bind at 1. rewrite Htok.
  destruct t; unfold type_name; simpl (String.eqb _ _); cbv iota zeta;
    change (api_base ++ "/tracks/" ++ Link.id link) with (lookup_url track (Link.id link));
    change (api_base ++ "/albums/" ++ Link.id link) with (lookup_url album (Link.id link));
    change (api_base ++ "/artists/" ++ Link.id link) with (lookup_url artist (Link.id link));
    change (api_base ++ "/playlists/" ++ Link.id link) with (lookup_url playlist (Link.id link));
    change (api_base ++ "/episodes/" ++ Link.id link) with (lookup_url episode (Link.id link));
    change (api_base ++ "/shows/" ++ Link.id link) with (lookup_url show (Link.id link));
    unfold bind; rewrite Hf; reflexivity.
Qed.

(** X7. With a valid cached token, a link of one of the six types whose
    lookup answers with the object [d] is answered with status 200 and the
    row of [d]; the handler sends the one lookup request with the cached
    bearer token and logs one line. The configuration is not consulted:
    the statement holds with the credentials absent. *)
Theorem api_cover_success :
  forall (url : option string) (w : World) (link : Link.t)
         (t : ResourceType) (resp : Response.t) (d : Data.t),
    parseSpotifyLink host_ext (string_or url EmptyString) = Some link ->
    Link.type link = type_name t ->
    cached_token_valid w ->
    let rq := lookup_request t (Link.id link)
                (TokenCache.accessToken (tokenCache w)) in
    outcome (network w rq) = Ok resp ->
    Response.ok resp = true ->
    Response.json resp = Ok d ->
    api_cover host_ext url w
    = (Ok (json_response 200
             (CoverJSON (Link.id link) (type_name t) (Data.name d)
                (table_byline t d) (only640 (table_image_source t d)))),
       with_console_line (after_fetch w rq)
         (cover_log_line (type_name t) (Link.id link)
            (List.length (only640 (table_image_source t d))))).
Proof.
  intros url w link t resp d Hparse Htype Hvalid rq Hout Hok Hjson.
  rewrite api_cover_run, Hparse, Htype.
  assert (Hf : fetchJSON (lookup_url t (Link.id link))
                 (TokenCache.accessToken (tokenCache w)) w
               = (Ok d, after_fetch w rq)).
  { rewrite fetchJSON_run. cbv zeta.
    change (Request.mk (lookup_url t (Link.id link)) "GET"
              [("Authorization",
                "Bearer " ++ template (TokenCache.accessToken (tokenCache w)))] NoBody)
      with rq.
    rewrite Hout, Hok, Hjson. reflexivity. }
  rewrite (getImagesFor_table_row t (Link.id link) w w (after_fetch w rq) _ d
             (getAccessToken_cached w Hvalid) Hf).
  rewrite log_cover_row. reflexivity.
Qed.

(** X8. Every request to [GET /api/cover] is answered with 200, 400 or
    500. The status is 400 exactly when the link does not parse, and then
    nothing else has happened. A 200 carries the id of the parsed link,
    one of the six type names, and only images of 640x640. *)
Theorem api_cover_answer_shape :
  forall (url : option string) (w : World),
    exists (r : HttpResponse) (w' : World),
      api_cover host_ext url w = (Ok r, w')
      /\ match parseSpotifyLink host_ext (string_or url EmptyString) with
         | None => statusCode r = 400%Z /\ w' = w
         | Some link =>
             statusCode r = 500%Z
             \/ (statusCode r = 200%Z
                 /\ exists t title byline images,
                      Link.type link = type_name t
                      /\ payload r = CoverJSON (Link.id link) (type_name t)
                                       title byline images
                      /\ forall img, In img images -> Is640Square img)
         end.
Proof.
  intros url w. rewrite api_cover_run.
  destruct (parseSpotifyLink host_ext _) as [link |].
  2:{ do 2 eexists. split; [reflexivity |]. split; reflexivity. }
  destruct (getImagesFor _ _ w) as [[data | e] w1] eqn:Hg.
  2:{ do 2 eexists. split; [reflexivity |]. left. reflexivity. }
  destruct (getImagesFor_inv _ _ _ _ _ Hg) as (t & d & tok & w0 & Ht & _ & _ & ->).
  rewrite log_cover_row.
  do 2 eexists. split; [reflexivity |]. right. split; [reflexivity |].
  exists t, (Data.name d), (table_byline t d), (only640 (table_image_source t d)).
  split; [exact Ht |]. split; [reflexivity |].
  intros img. apply only640_all_square.
Qed.

End Cover.

Lemma api_cover_unsupported_type_witness :
  api_cover host_ext_none (Some user_link) world_cached
  = (Ok (json_response 500 (ErrorJSON "Unsupported type: user" None)), world_cached).
Proof.
  apply (api_cover_unsupported_type host_ext_none (Some user_link)
           world_cached world_cached (Link.mk "user" "spotify") (Some "BQDcached")).
  - reflexivity.
  - reflexivity.
  - reflexivity.
Defined.

Lemma api_cover_lookup_failure_witness :
  api_cover host_ext_none (Some "spotify:track:0000000000000000000000")
    world_cached_404
  = (Ok (json_response 500 (ErrorJSON "Spotify API error: 404 Not Found" None)),
     after_fetch world_cached_404
       (lookup_request track "0000000000000000000000" (Some "BQDcached"))).
Proof.
  apply (api_cover_lookup_failure host_ext_none
           (Some "spotify:track:0000000000000000000000")
           world_cached_404 world_cached_404
           (Link.mk "track" "0000000000000000000000") track (Some "BQDcached")
           not_found "Not Found"); reflexivity.
Defined.

Lemma api_cover_success_witness :
  api_cover host_ext_none (Some "spotify:track:4PTG3Z6ehGkBFwjybzWkR8")
    world_cached_no_credentials
  = (Ok (json_response 200
           (CoverJSON "4PTG3Z6ehGkBFwjybzWkR8" "track"
              (Some "Never Gonna Give You Up") (Some "Rick Astley, Guest")
              [Some (Image.mk "https://i.scdn.co/image/large"
                       (Number 640) (Number 640))])),
     with_console_line
       (after_fetch world_cached_no_credentials
          (lookup_request track "4PTG3Z6ehGkBFwjybzWkR8" (Some "BQDcached")))
       "[cover] type=track id=4PTG3Z6ehGkBFwjybzWkR8 sizes=[640x640]").
Proof.
  apply (api_cover_success host_ext_none
           (Some "spotify:track:4PTG3Z6ehGkBFwjybzWkR8")
           world_cached_no_credentials
           (Link.mk "track" "4PTG3Z6ehGkBFwjybzWkR8") track
           (ok_json sample_track) sample_track).
  - reflexivity.
  - reflexivity.
  - split; [reflexivity | vm_compute; reflexivity].
  - reflexivity.
  - reflexivity.
  - reflexivity.
Defined.

(* ================================================================== *)
(** * 17. Enhance pipeline: more properties                            *)
(* ================================================================== *)

(** X9. Whatever the caller sends as [quality], the quality handed to the
    encoder lies in [1,100]. *)
Theorem jpeg_quality_in_range :
  forall (v : JSValue), (1 <= jpeg_quality v <= 100)%Z.
Proof.
  intros v. unfold jpeg_quality.
  destruct (ToNumber v) as [| n]; simpl; [lia |].
  destruct (n =? 0)%Z; lia.
Qed.

Lemma api_enhance_run (body : EnhanceBody.t) (w : World) :
  api_enhance body w
  = if negb (truthy (EnhanceBody.imageUrl body))
    then (Ok (json_response 400 (ErrorJSON "Missing imageUrl" None)), w)
    else if negb (truthy (Env.CUTOUT_API_KEY (env w)))
    then (Ok (json_response 400 (ErrorJSON "Missing CUTOUT_API_KEY in .env" None)), w)
    else
      let failed e w' :=
        (Ok (json_response 500
               (ErrorJSON (string_or (Some e) "Enhance failed") None)), w') in
      let w1 := after_fetch w (enhance_source body) in
      match outcome (network w (enhance_source body)) with
      | Throw e => failed e w1
      | Ok src =>
          if negb (Response.ok src) then
            (Ok (json_response 400
                   (ErrorJSON ("Failed to fetch source image ("
                               ++ JS.string_of_Z (Response.status src) ++ ")")
                      (Some (text_or_empty (Response.text src))))), w1)
          else
            match Response.arrayBuffer src with
            | Throw e => failed e w1
            | Ok arrayBuf =>
                let up := enhance_upload body (env w) src arrayBuf in
                let w2 := after_fetch w1 up in
                match outcome (network w up) with
                | Throw e => failed e w2
                | Ok r =>
                    if negb (Response.ok r) then
                      (Ok (json_response 502
                             (ErrorJSON ("Cutout.pro error: "
                                         ++ JS.string_of_Z (Response.status r))
                                (Some (text_or_empty (Response.text r))))), w2)
                    else
                      match Response.arrayBuffer r with
                      | Throw e => failed e w2
                      | Ok buf =>
                          match sharp_resize_jpeg w buf
                                  (jpeg_quality (EnhanceBody.quality body))
                                  (progressive_flag body) with
                          | Throw e => failed e w2
                          | Ok resized =>
                              (Ok (mkHttpResponse 200
                                     [("Content-Type", "image/jpeg");
                                      ("Content-Length",
                                       JS.string_of_Z (Z.of_nat (List.length resized)));
                                      ("Content-Disposition",
                                       "attachment; filename=" ++ double_quote
                                       ++ "enhanced_3000x3000_"
                                       ++ JS.string_of_Z (Date_now w2) ++ ".jpg"
                                       ++ double_quote)]
                                     (Binary resized)), w2)
                          end
                      end
                end
            end
      end.
Proof.
  unfold api_enhance. unfold_monad. unfold enhance_source, enhance_upload, after_fetch.
  cbv zeta.
  destruct (negb (truthy (EnhanceBody.imageUrl body))); [reflexivity |].
  destruct (negb (truthy (Env.CUTOUT_API_KEY (env w)))); [reflexivity |].
  destruct (outcome (network w (source_request _))) as [src | e]; [| reflexivity].
  destruct (negb (Response.ok src)); [reflexivity |].
  destruct (Response.arrayBuffer src) as [arrayBuf | e]; [| reflexivity].
  cbn [network env].
  destruct (outcome (network w (cutout_request _ _ _ _))) as [r | e]; [| reflexivity].
  destruct (negb (Response.ok r)); [reflexivity |].
  destruct (Response.arrayBuffer r) as [buf | e]; [| reflexivity].
  cbn [sharp_resize_jpeg].
  destruct (sharp_resize_jpeg w buf _ _) as [resized | e]; reflexivity.
Qed.

(** X10. The handler validates before it acts: without an [imageUrl] or
    without the API key it answers 400 and the world is the one it started
    in, so no request has been sent. *)
Theorem api_enhance_validates_first :
  forall (body : EnhanceBody.t) (w : World),
    truthy (EnhanceBody.imageUrl body) = false
    \/ truthy (Env.CUTOUT_API_KEY (env w)) = false ->
    exists e,
      api_enhance body w = (Ok (json_response 400 (ErrorJSON e None)), w).
Proof.
  intros body w H. rewrite api_enhance_run.
  destruct (truthy (EnhanceBody.imageUrl body)); cbn [negb].
  - destruct H as [H | H]; [discriminate |]. rewrite H. cbn [negb].
    eexists. reflexivity.
  - eexists. reflexivity.
Qed.

Lemma api_enhance_validates_first_witness :
  exists e,
    api_enhance enhance_body world_no_credentials
    = (Ok (json_response 400 (ErrorJSON e None)), world_no_credentials).
Proof.
  apply (api_enhance_validates_first enhance_body world_no_credentials).
  right. reflexivity.
Defined.


(** X12. An [endpoint] in the request body wins over the configuration:
    once the source image has been downloaded, the handler posts the image
    and the API key of the server to the endpoint the caller named. *)
Theorem api_enhance_posts_key_to_named_endpoint :
  forall (body : EnhanceBody.t) (w : World) (endpoint key : string)
         (src : Response.t) (buf : bytes),
    truthy (EnhanceBody.imageUrl body) = true ->
    EnhanceBody.endpoint body = Some endpoint -> endpoint <> EmptyString ->
    Env.CUTOUT_API_KEY (env w) = Some key -> key <> EmptyString ->
    outcome (network w (enhance_source body)) = Ok src ->
    Response.ok src = true ->
    Response.arrayBuffer src = Ok buf ->
    exists filename type,
      In (Request.mk endpoint "POST" [("APIKEY", key)]
            (FormFile "file" filename type buf))
         (requests (snd (api_enhance body w))).
Proof.
  intros body w endpoint key src buf Hurl Hend Hne Hkey Hkne Hsrc Hok Hbuf.
  rewrite api_enhance_run, Hurl, Hkey, (truthy_Some key Hkne). cbn [negb]. cbv zeta.
  rewrite Hsrc, Hok, Hbuf. cbn [negb].
  assert (Hup : enhance_upload body (env w) src buf
                = Request.mk endpoint "POST" [("APIKEY", key)]
                    (FormFile "file"
                       ("input." ++ (if includes "png"
                                          (string_or (Response.content_type src) "image/jpeg")
                                     then "png" else "jpg"))
                       (string_or (Response.content_type src) "image/jpeg") buf)).
  { unfold enhance_upload, cutout_request, enhance_endpoint.
    rewrite Hend, Hkey. unfold string_or at 1.
    destruct endpoint; [congruence |]. reflexivity. }
  do 2 eexists. rewrite <- Hup.
  destruct (outcome (network w (enhance_upload _ _ _ _))) as [r | e];
    [destruct (negb (Response.ok r));
     [| destruct (Response.arrayBuffer r) as [b | e];
        [destruct (sharp_resize_jpeg w b _ _) |]] |];
    cbn [snd requests after_fetch]; apply in_or_app; right; left; reflexivity.
Qed.

Lemma api_enhance_posts_key_to_named_endpoint_witness :
  exists filename type,
    In (Request.mk "https://collector.example/upload" "POST"
          [("APIKEY", "cutout-key")] (FormFile "file" filename type png_bytes))
       (requests (snd (api_enhance enhance_body_override world_enhance_ok))).
Proof.
  apply (api_enhance_posts_key_to_named_endpoint enhance_body_override
           world_enhance_ok "https://collector.example/upload" "cutout-key"
           ok_png png_bytes);
    solve [reflexivity | discriminate].
Defined.

(** X13. A 200 from [POST /api/enhance] carries the bytes the encoder
    returned, a [Content-Length] equal to their number and the content
    type [image/jpeg]; both requests were answered with success before
    it. *)
Theorem api_enhance_success_shape :
  forall (body : EnhanceBody.t) (w w' : World) (r : HttpResponse),
    api_enhance body w = (Ok r, w') ->
    statusCode r = 200%Z ->
    exists src arrayBuf up buf resized,
      outcome (network w (enhance_source body)) = Ok src
      /\ Response.ok src = true /\ Response.arrayBuffer src = Ok arrayBuf
      /\ outcome (network w (enhance_upload body (env w) src arrayBuf)) = Ok up
      /\ Response.ok up = true /\ Response.arrayBuffer up = Ok buf
      /\ sharp_resize_jpeg w buf (jpeg_quality (EnhanceBody.quality body))
           (progressive_flag body) = Ok resized
      /\ payload r = Binary resized
      /\ In ("Content-Type", "image/jpeg") (headers r)
      /\ In ("Content-Length", JS.string_of_Z (Z.of_nat (List.length resized)))
            (headers r).
Proof.
  intros body w w' r. rewrite api_enhance_run.
  destruct (negb (truthy (EnhanceBody.imageUrl body)));
    [intros H; inversion H; subst; discriminate |].
  destruct (negb (truthy (Env.CUTOUT_API_KEY (env w))));
    [intros H; inversion H; subst; discriminate |].
  cbv zeta.
  destruct (outcome (network w (enhance_source body))) as [src | e] eqn:H1;
    [| intros H; inversion H; subst; discriminate].
  destruct (Response.ok src) eqn:H2; cbn [negb];
    [| intros H; inversion H; subst; discriminate].
  destruct (Response.arrayBuffer src) as [arrayBuf | e] eqn:H3;
    [| intros H; inversion H; subst; discriminate].
  destruct (outcome (network w (enhance_upload _ _ _ _))) as [up | e] eqn:H4;
    [| intros H; inversion H; subst; discriminate].
  destruct (Response.ok up) eqn:H5; cbn [negb];
    [| intros H; inversion H; subst; discriminate].
  destruct (Response.arrayBuffer up) as [buf | e] eqn:H6;
    [| intros H; inversion H; subst; discriminate].
  destruct (sharp_resize_jpeg w buf _ _) as [resized | e] eqn:Hsharp;
    [| intros H; inversion H; subst; discriminate].
  intros H _. inversion H; subst; clear H.
  exists src, arrayBuf, up, buf, resized.
  repeat split; try reflexivity; try assumption; cbn [headers In]; auto.
Qed.

Lemma api_enhance_success_shape_witness :
  exists src arrayBuf up buf resized,
    outcome (network world_enhance_ok (enhance_source enhance_body_override)) = Ok src
    /\ Response.ok src = true /\ Response.arrayBuffer src = Ok arrayBuf
    /\ outcome (network world_enhance_ok
                  (enhance_upload enhance_body_override (env world_enhance_ok)
                     src arrayBuf)) = Ok up
    /\ Response.ok up = true /\ Response.arrayBuffer up = Ok buf
    /\ sharp_resize_jpeg world_enhance_ok buf
         (jpeg_quality (EnhanceBody.quality enhance_body_override))
         (progressive_flag enhance_body_override) = Ok resized
    /\ payload (mkHttpResponse 200
                  [("Content-Type", "image/jpeg"); ("Content-Length", "4");
                   ("Content-Disposition",
                    "attachment; filename=" ++ double_quote
                    ++ "enhanced_3000x3000_1700000000203.jpg" ++ double_quote)]
                  (Binary png_bytes)) = Binary resized
    /\ In ("Content-Type", "image/jpeg")
          [("Content-Type", "image/jpeg"); ("Content-Length", "4");
           ("Content-Disposition",
            "attachment; filename=" ++ double_quote
            ++ "enhanced_3000x3000_1700000000203.jpg" ++ double_quote)]
    /\ In ("Content-Length", JS.string_of_Z (Z.of_nat (List.length resized)))
          [("Content-Type", "image/jpeg"); ("Content-Length", "4");
           ("Content-Disposition",
            "attachment; filename=" ++ double_quote
            ++ "enhanced_3000x3000_1700000000203.jpg" ++ double_quote)].
Proof.
  apply (api_enhance_success_shape enhance_body_override world_enhance_ok
           (snd (api_enhance enhance_body_override world_enhance_ok))
           (mkHttpResponse 200
              [("Content-Type", "image/jpeg"); ("Content-Length", "4");
               ("Content-Disposition",
                "attachment; filename=" ++ double_quote
                ++ "enhanced_3000x3000_1700000000203.jpg" ++ double_quote)]
              (Binary png_bytes))).
  - reflexivity.
  - reflexivity.
Defined.

Lemma string_or_not_empty (e d : string) :
  d <> EmptyString -> string_or (Some e) d <> EmptyString.
Proof. intros Hd. destruct e; simpl; [exact Hd | discriminate]. Qed.

(** X14. An error answer of [POST /api/enhance] never has an empty error
    text: an exception without a message is reported as
    ["Enhance failed"]. *)
Theorem api_enhance_error_text_not_empty :
  forall (body : EnhanceBody.t) (w : World),
    match fst (api_enhance body w) with
    | Ok r => error_text (payload r) <> Some EmptyString
    | Throw _ => False
    end.
Proof.
  intros body w. rewrite api_enhance_run.
  assert (F : forall e, error_text (payload (json_response 500
                (ErrorJSON (string_or (Some e) "Enhance failed") None)))
              <> Some EmptyString).
  { intros e H. cbn in H. inversion H as [H1].
    apply (string_or_not_empty e "Enhance failed"); [discriminate | exact H1]. }
  destruct (negb (truthy (EnhanceBody.imageUrl body))); [discriminate |].
  destruct (negb (truthy (Env.CUTOUT_API_KEY (env w)))); [discriminate |].
  cbv zeta.
  destruct (outcome (network w (enhance_source body))) as [src | e]; [| apply F].
  destruct (negb (Response.ok src)); [discriminate |].
  destruct (Response.arrayBuffer src) as [arrayBuf | e]; [| apply F].
  destruct (outcome (network w (enhance_upload _ _ _ _))) as [up | e]; [| apply F].
  destruct (negb (Response.ok up)); [discriminate |].
  destruct (Response.arrayBuffer up) as [buf | e]; [| apply F].
  destruct (sharp_resize_jpeg w buf _ _) as [resized | e]; [discriminate | apply F].
Qed.

(* ================================================================== *)
(** * 18. Link parser: more properties                                 *)
(* ================================================================== *)

(** ** Trimming *)

Lemma drop_while_all (p : ascii -> bool) (s : string) :
  JS.all p s = true -> JS.drop_while p s = EmptyString.
Proof.
  induction s as [| c s IH]; simpl; [reflexivity |].
  rewrite andb_true_iff. intros [-> Hs]. auto.
Qed.

Lemma trim_blank (s : string) :
  JS.all JS.is_white_space s = true -> JS.trim s = EmptyString.
Proof. intros H. unfold JS.trim. rewrite (drop_while_all _ _ H). reflexivity. Qed.

Lemma drop_while_end_idempotent (p : ascii -> bool) (s : string) :
  JS.drop_while_end p (JS.drop_while_end p s) = JS.drop_while_end p s.
Proof.
  induction s as [| c s IH]; [reflexivity |]. cbn [JS.drop_while_end]. cbv zeta.
  destruct (p c && JS.is_empty (JS.drop_while_end p s)) eqn:E; [reflexivity |].
  cbn [JS.drop_while_end]. cbv zeta. rewrite IH, E. reflexivity.
Qed.

Lemma drop_while_head (p : ascii -> bool) (s : string) :
  match JS.drop_while p s with
  | EmptyString => True
  | String c _ => p c = false
  end.
Proof.
  induction s as [| c s IH]; simpl; [exact I |].
  destruct (p c) eqn:E; [exact IH | exact E].
Qed.

Lemma drop_while_end_head (p : ascii -> bool) (s : string) :
  match s with
  | EmptyString => True
  | String c _ => p c = false
  end ->
  JS.drop_while p (JS.drop_while_end p s) = JS.drop_while_end p s.
Proof.
  destruct s as [| c s]; [reflexivity |]. intros E.
  cbn [JS.drop_while_end]. cbv zeta. rewrite E. cbn [andb JS.drop_while].
  rewrite E. reflexivity.
Qed.

Lemma trim_idempotent (s : string) : JS.trim (JS.trim s) = JS.trim s.
Proof.
  unfold JS.trim.
  rewrite (drop_while_end_head _ _ (drop_while_head JS.is_white_space s)).
  apply drop_while_end_idempotent.
Qed.

Lemma uri_regex_empty : RegExp.exec uri_regex EmptyString = None.
Proof. reflexivity. Qed.

(** ** No query and no fragment in a path *)

Lemma path_encode_clean (c : ascii) :
  JS.any is_query_or_fragment (WHATWG.percent_encode_char WHATWG.path_set c) = false.
Proof. ascii_cases c. Qed.

Lemma opaque_encode_clean (c : ascii) :
  is_query_or_fragment c = false ->
  JS.any is_query_or_fragment
    (WHATWG.percent_encode_char WHATWG.c0_control_set c) = false.
Proof. ascii_cases c. Qed.

Lemma authority_end_covers (c : ascii) :
  is_query_or_fragment c = true -> WHATWG.is_authority_end true c = true.
Proof. ascii_cases c. Qed.

Lemma Forall_removelast {A : Type} (P : A -> Prop) (l : list A) :
  Forall P l -> Forall P (removelast l).
Proof.
  induction l as [| a l IH]; intros H; [constructor |].
  inversion H; subst. destruct l as [| b l]; [constructor |].
  cbn [removelast]. constructor; auto.
Qed.

Lemma shorten_clean (file : bool) (path : list string) :
  Forall clean path -> Forall clean (WHATWG.shorten file path).
Proof.
  intros H. unfold WHATWG.shorten.
  destruct path as [| p [| q path]]; [constructor | | apply Forall_removelast; exact H].
  destruct (file && WHATWG.is_normalized_drive_letter p); [exact H | constructor].
Qed.

Lemma normalize_clean (buf : string) :
  clean buf -> clean (WHATWG.normalize_drive_letter buf).
Proof.
  unfold clean. destruct buf as [| a buf]; [reflexivity |]. simpl.
  intros H. apply orb_false_elim in H. destruct H as [-> _]. reflexivity.
Qed.

Lemma end_segment_clean (file : bool) (path : list string) (buf : string)
    (at_slash : bool) :
  Forall clean path -> clean buf ->
  Forall clean (WHATWG.end_segment file path buf at_slash).
Proof.
  intros Hp Hb. unfold WHATWG.end_segment.
  assert (He : Forall clean [EmptyString]) by (repeat constructor).
  destruct (WHATWG.is_double_dot buf).
  { destruct at_slash; [apply shorten_clean; exact Hp |].
    apply Forall_app. split; [apply shorten_clean; exact Hp | exact He]. }
  destruct (WHATWG.is_single_dot buf).
  { destruct at_slash; [exact Hp |]. apply Forall_app. split; assumption. }
  apply Forall_app. split; [exact Hp |]. constructor; [| constructor].
  destruct (file && _ && _); [apply normalize_clean |]; exact Hb.
Qed.

Lemma path_state_clean (special file : bool) (s : string) :
  forall (path : list string) (buf : string),
    Forall clean path -> clean buf ->
    Forall clean (WHATWG.path_state special file path buf s).
Proof.
  induction s as [| c s IH]; intros path buf Hp Hb; cbn [WHATWG.path_state].
  - apply end_segment_clean; assumption.
  - destruct (WHATWG.is_slash special c).
    { apply IH; [apply end_segment_clean; assumption | reflexivity]. }
    destruct (WHATWG.is_char "?" c || WHATWG.is_char "#" c).
    { apply end_segment_clean; assumption. }
    apply IH; [exact Hp |]. unfold clean. rewrite any_append, Hb.
    apply path_encode_clean.
Qed.

Lemma path_start_state_clean (special file : bool) (s : string) :
  Forall clean (WHATWG.path_start_state special file s).
Proof.
  unfold WHATWG.path_start_state.
  destruct s as [| c s].
  - destruct special; [| constructor]. apply path_state_clean; [constructor | reflexivity].
  - destruct special.
    + destruct (WHATWG.is_slash true c);
        apply path_state_clean; solve [constructor | reflexivity].
    + destruct (WHATWG.is_char "?" c || WHATWG.is_char "#" c); [constructor |].
      destruct (WHATWG.is_char "/" c);
        apply path_state_clean; solve [constructor | reflexivity].
Qed.

Lemma serialize_path_clean (path : list string) :
  Forall clean path -> clean (WHATWG.serialize_path path).
Proof.
  induction 1 as [| seg path Hs _ IH]; [reflexivity |].
  unfold clean in *. cbn [WHATWG.serialize_path append JS.any].
  rewrite any_append, Hs, IH. reflexivity.
Qed.

Lemma opaque_path_clean (s : string) : clean (WHATWG.opaque_path_state s).
Proof.
  unfold clean. induction s as [| c s IH]; [reflexivity |].
  cbn [WHATWG.opaque_path_state].
  destruct (WHATWG.is_char "?" c || WHATWG.is_char "#" c) eqn:E; [reflexivity |].
  rewrite any_append, IH, (opaque_encode_clean c E). reflexivity.
Qed.

Lemma break_at_prefix (p : ascii -> bool) (s : string) :
  JS.any p (fst (WHATWG.break_at p s)) = false.
Proof.
  induction s as [| c s IH]; [reflexivity |]. cbn [WHATWG.break_at].
  destruct (p c) eqn:E; [reflexivity |].
  destruct (WHATWG.break_at p s) as [a b]. cbn [fst JS.any] in *.
  rewrite E, IH. reflexivity.
Qed.

Section Paths.

Variable host_ext : bool -> string -> option string.

Lemma authority_state_clean (special : bool) (s : string) (url : WHATWG.URL) :
  WHATWG.authority_state host_ext special s = Some url ->
  clean (WHATWG.pathname url).
Proof.
  unfold WHATWG.authority_state.
  destruct (WHATWG.break_at _ s) as [auth rest].
  destruct (WHATWG.after_last_at auth) as [seen hostport].
  destruct (seen && JS.is_empty hostport); [discriminate |].
  destruct (WHATWG.host_state host_ext special hostport); [| discriminate].
  intros H. inversion H; subst. cbn [WHATWG.pathname].
  apply serialize_path_clean, path_start_state_clean.
Qed.

Lemma file_state_clean (s : string) (url : WHATWG.URL) :
  WHATWG.file_state host_ext s = Some url -> clean (WHATWG.pathname url).
Proof.
  assert (P : forall r u,
             Some (WHATWG.mkURL EmptyString
                     (WHATWG.serialize_path
                        (WHATWG.path_state true true [] EmptyString r))) = Some u ->
             clean (WHATWG.pathname u)).
  { intros r u H. inversion H; subst. cbn [WHATWG.pathname].
    apply serialize_path_clean, path_state_clean; [constructor | reflexivity]. }
  unfold WHATWG.file_state. cbv zeta.
  destruct s as [| c1 s1]; [apply P |].
  destruct (WHATWG.is_slash true c1); [| apply P].
  destruct s1 as [| c2 s2]; [apply P |].
  destruct (WHATWG.is_slash true c2); [| apply P].
  unfold WHATWG.file_host_state.
  pose proof (break_at_prefix (WHATWG.is_authority_end true) s2) as Hb.
  destruct (WHATWG.break_at _ s2) as [buf rest]. cbn [fst] in Hb.
  destruct (WHATWG.is_windows_drive_letter buf).
  { intros H. inversion H; subst. cbn [WHATWG.pathname].
    apply serialize_path_clean, path_state_clean; [constructor |].
    exact (any_weaken _ _ _ authority_end_covers Hb). }
  destruct (JS.is_empty buf).
  { intros H. inversion H; subst. cbn [WHATWG.pathname].
    apply serialize_path_clean, path_start_state_clean. }
  destruct (WHATWG.host_parse host_ext false buf); [| discriminate].
  intros H. inversion H; subst. cbn [WHATWG.pathname].
  apply serialize_path_clean, path_start_state_clean.
Qed.

(** The path of a parsed URL holds no [?] and no [#]. *)
Lemma pathname_clean (input : string) (url : WHATWG.URL) :
  WHATWG.URL_new host_ext input = Some url -> clean (WHATWG.pathname url).
Proof.
  unfold WHATWG.URL_new.
  destruct (WHATWG.scheme_start_state _) as [[scheme rest] |]; [| discriminate].
  destruct (String.eqb scheme "file"); [apply file_state_clean |].
  destruct (WHATWG.is_special scheme); [apply authority_state_clean |].
  destruct (JS.starts_with "//" rest); [apply authority_state_clean |].
  destruct (JS.starts_with "/" rest); intros H; inversion H; subst;
    cbn [WHATWG.pathname].
  - apply serialize_path_clean, path_state_clean; [constructor | reflexivity].
  - apply opaque_path_clean.
Qed.

End Paths.

(** ** Pieces of a split *)

Lemma split_pieces (p : ascii -> bool) (sep : ascii) (s : string) :
  JS.any p s = false ->
  Forall (fun piece => JS.any p piece = false) (JS.split sep s).
Proof.
  induction s as [| c s IH]; [repeat constructor |].
  cbn [JS.any JS.split]. intros H. apply orb_false_elim in H. destruct H as [Hc Hs].
  specialize (IH Hs).
  destruct (Ascii.eqb c sep); [constructor; [reflexivity | exact IH] |].
  destruct (JS.split sep s) as [| q qs]; [repeat constructor; simpl; rewrite Hc; reflexivity |].
  inversion IH; subst. constructor; [| assumption].
  cbn [JS.any]. rewrite Hc. assumption.
Qed.

Lemma split_no_separator (sep : ascii) (s : string) :
  Forall (fun piece => JS.any (fun c => Ascii.eqb c sep) piece = false)
         (JS.split sep s).
Proof.
  induction s as [| c s IH]; [repeat constructor |].
  cbn [JS.split]. destruct (Ascii.eqb c sep) eqn:E; [constructor; [reflexivity | exact IH] |].
  destruct (JS.split sep s) as [| q qs];
    [repeat constructor; simpl; rewrite E; reflexivity |].
  inversion IH; subst. constructor; [| assumption].
  cbn [JS.any]. rewrite E. assumption.
Qed.

Lemma Forall_filter {A : Type} (P : A -> Prop) (f : A -> bool) (l : list A) :
  Forall P l -> Forall P (filter f l).
Proof.
  induction 1 as [| a l Ha _ IH]; [constructor |]. cbn [filter].
  destruct (f a); [constructor |]; assumption.
Qed.

Lemma filter_Boolean_truthy (l : list string) :
  Forall (fun s => s <> EmptyString) (JS.filter_Boolean l).
Proof.
  unfold JS.filter_Boolean. induction l as [| a l IH]; [constructor |].
  cbn [filter]. destruct a as [| c a]; [exact IH |].
  constructor; [discriminate | exact IH].
Qed.

Lemma lower_char_idempotent (c : ascii) :
  JS.lower_char (JS.lower_char c) = JS.lower_char c.
Proof. ascii_cases c. Qed.

Lemma toLowerCase_idempotent (s : string) :
  JS.toLowerCase (JS.toLowerCase s) = JS.toLowerCase s.
Proof.
  induction s as [| c s IH]; [reflexivity |].
  cbn [JS.toLowerCase]. rewrite lower_char_idempotent, IH. reflexivity.
Qed.

Lemma toLowerCase_not_empty (s : string) :
  s <> EmptyString -> JS.toLowerCase s <> EmptyString.
Proof. destruct s; [congruence | discriminate]. Qed.

Lemma id_char_not_delimiter (c : ascii) :
  is_id_char c = true -> is_url_delimiter c = false.
Proof. ascii_cases c. Qed.

Lemma delimiter_split (s : string) :
  JS.any (fun c => Ascii.eqb c "/") s = false ->
  JS.any is_query_or_fragment s = false ->
  JS.any is_url_delimiter s = false.
Proof.
  induction s as [| c s IH]; [reflexivity |]. cbn [JS.any].
  intros H1 H2. apply orb_false_elim in H1, H2.
  destruct H1 as [Hc1 Hs1]. destruct H2 as [Hc2 Hs2].
  rewrite (IH Hs1 Hs2), orb_false_r.
  unfold is_url_delimiter, is_query_or_fragment in *. cbn [WHATWG.is_char] in *.
  rewrite Hc1. exact Hc2.
Qed.

Section MoreLinks.

Variable host_ext : bool -> string -> option string.

(** What the URL branch hands back, read off the parsed URL. *)
Lemma url_branch_inv (input : string) (link : Link.t) :
  RegExp.exec uri_regex (JS.trim input) = None ->
  parseSpotifyLink host_ext input = Some link ->
  exists url seg1 seg2 more,
    WHATWG.URL_new host_ext (JS.trim input) = Some url
    /\ JS.filter_Boolean (JS.split "/" (WHATWG.pathname url)) = seg1 :: seg2 :: more
    /\ link = Link.mk (JS.toLowerCase seg1) seg2.
Proof.
  intros Hex. unfold parseSpotifyLink.
  destruct (JS.truthy input); [| discriminate]. cbn [negb]. rewrite Hex.
  destruct (WHATWG.URL_new host_ext (JS.trim input)) as [url |] eqn:Hurl;
    [| discriminate].
  destruct (negb (RegExp.test host_regex (WHATWG.hostname url))); [discriminate |].
  cbv zeta.
  pose proof (pathname_clean host_ext _ _ Hurl) as Hclean.
  pose proof (Forall_filter _ JS.truthy _
                (split_pieces is_query_or_fragment "/" _ Hclean)) as Hparts.
  fold (JS.filter_Boolean (JS.split "/" (WHATWG.pathname url))) in Hparts.
  destruct (JS.filter_Boolean (JS.split "/" (WHATWG.pathname url)))
    as [| seg1 [| seg2 more]] eqn:Hp; cbn [List.length Nat.leb]; try discriminate.
  cbn [nth]. intros H. inversion H; subst link; clear H.
  exists url, seg1, seg2, more. split; [reflexivity |]. split; [exact Hp |].
  inversion Hparts as [| ? ? _ Hrest]; subst.
  inversion Hrest as [| ? ? Hseg2 _]; subst.
  rewrite (split_none "?" seg2); [reflexivity |].
  refine (any_weaken _ _ _ _ Hseg2).
  intros c Hc. unfold is_query_or_fragment. cbn [WHATWG.is_char]. rewrite Hc. reflexivity.
Qed.

(** X15. In the URL branch the id is the whole second path segment: the
    cut at [?] never removes anything, because the path of a parsed URL
    holds no [?]. *)
Theorem parseSpotifyLink_id_is_second_segment :
  forall (input : string) (link : Link.t),
    RegExp.exec uri_regex (JS.trim input) = None ->
    parseSpotifyLink host_ext input = Some link ->
    exists url seg1 seg2 more,
      WHATWG.URL_new host_ext (JS.trim input) = Some url
      /\ JS.filter_Boolean (JS.split "/" (WHATWG.pathname url)) = seg1 :: seg2 :: more
      /\ Link.id link = seg2.
Proof.
  intros input link Hex Hparse.
  destruct (url_branch_inv input link Hex Hparse)
    as (url & seg1 & seg2 & more & Hurl & Hparts & ->).
  exists url, seg1, seg2, more. repeat split; assumption.
Qed.

(** X16. Every link the parser returns, from a compact URI or from a
    URL, has a non-empty type that is already in lower case and a
    non-empty id that holds none of [/], [?] and [#]. *)
Theorem parseSpotifyLink_result_shape :
  forall (input : string) (link : Link.t),
    parseSpotifyLink host_ext input = Some link ->
    Link.type link <> EmptyString
    /\ JS.toLowerCase (Link.type link) = Link.type link
    /\ Link.id link <> EmptyString
    /\ JS.any is_url_delimiter (Link.id link) = false.
Proof.
  intros input link Hparse.
  destruct (RegExp.exec uri_regex (JS.trim input)) as [arr |] eqn:Hex.
  - unfold parseSpotifyLink in Hparse.
    destruct (JS.truthy input); [| discriminate]. cbn [negb] in Hparse.
    rewrite Hex in Hparse. inversion Hparse; subst link; clear Hparse.
    apply uri_regex_sound in Hex.
    destruct Hex as (p & t & i & _ & _ & Ht & _ & Hi & Hiall & -> & ->).
    cbn [Link.type Link.id]. repeat split.
    + apply toLowerCase_not_empty. exact Ht.
    + apply toLowerCase_idempotent.
    + exact Hi.
    + exact (all_excludes _ _ _ id_char_not_delimiter Hiall).
  - destruct (url_branch_inv input link Hex Hparse)
      as (url & seg1 & seg2 & more & Hurl & Hparts & ->).
    cbn [Link.type Link.id].
    pose proof (filter_Boolean_truthy (JS.split "/" (WHATWG.pathname url))) as Hne.
    pose proof (Forall_filter _ JS.truthy _
                  (split_no_separator "/" (WHATWG.pathname url))) as Hsl.
    pose proof (Forall_filter _ JS.truthy _
                  (split_pieces is_query_or_fragment "/" _
                     (pathname_clean host_ext _ _ Hurl))) as Hq.
    fold (JS.filter_Boolean (JS.split "/" (WHATWG.pathname url))) in Hsl, Hq.
    rewrite Hparts in Hne, Hsl, Hq.
    inversion Hne as [| ? ? Hn1 Hne']; subst. inversion Hne' as [| ? ? Hn2 _]; subst.
    inversion Hsl as [| ? ? _ Hsl']; subst. inversion Hsl' as [| ? ? Hs2 _]; subst.
    inversion Hq as [| ? ? _ Hq']; subst. inversion Hq' as [| ? ? Hq2 _]; subst.
    repeat split.
    + apply toLowerCase_not_empty. exact Hn1.
    + apply toLowerCase_idempotent.
    + exact Hn2.
    + apply delimiter_split; assumption.
Qed.

(** X17. Only the trimmed text matters: an input and its trimmed form
    resolve to the same result. *)
Theorem parseSpotifyLink_ignores_padding :
  forall (input : string),
    parseSpotifyLink host_ext input = parseSpotifyLink host_ext (JS.trim input).
Proof.
  intros input. unfold parseSpotifyLink. rewrite trim_idempotent.
  destruct (JS.truthy input) eqn:Hin.
  - cbn [negb]. destruct (JS.truthy (JS.trim input)) eqn:Ht; [reflexivity |].
    cbn [negb]. destruct (JS.trim input); [| discriminate Ht].
    rewrite uri_regex_empty, (URL_new_empty host_ext). reflexivity.
  - rewrite (trim_empty_input _ Hin). reflexivity.
Qed.

Lemma parseSpotifyLink_blank (input : string) :
  JS.all JS.is_white_space input = true ->
  parseSpotifyLink host_ext input = None.
Proof.
  intros H. unfold parseSpotifyLink. rewrite (trim_blank _ H).
  destruct (JS.truthy input); [| reflexivity]. cbn [negb].
  rewrite uri_regex_empty, (URL_new_empty host_ext). reflexivity.
Qed.

(** X18. A request without a [url] parameter, or with one that is empty
    or only white space, is answered with the 400 of an invalid link, and
    nothing else happens: no token is fetched, nothing is logged. *)
Theorem api_cover_blank_url :
  forall (url : option string) (w : World),
    JS.all JS.is_white_space (string_or url EmptyString) = true ->
    api_cover host_ext url w
    = (Ok (json_response 400
             (ErrorJSON "Invalid or unsupported Spotify link/URI." None)), w).
Proof.
  intros url w H. rewrite api_cover_run, (parseSpotifyLink_blank _ H). reflexivity.
Qed.

End MoreLinks.

Lemma parseSpotifyLink_id_is_second_segment_witness :
  exists url seg1 seg2 more,
    WHATWG.URL_new host_ext_none (JS.trim link_with_query) = Some url
    /\ JS.filter_Boolean (JS.split "/" (WHATWG.pathname url)) = seg1 :: seg2 :: more
    /\ Link.id (Link.mk "playlist" "37i9dQZF1DXcBWIGoYBM5M") = seg2.
Proof.
  apply (parseSpotifyLink_id_is_second_segment host_ext_none link_with_query
           (Link.mk "playlist" "37i9dQZF1DXcBWIGoYBM5M")); reflexivity.
Defined.

Lemma parseSpotifyLink_result_shape_witness :
  Link.type (Link.mk "playlist" "37i9dQZF1DXcBWIGoYBM5M") <> EmptyString
  /\ JS.toLowerCase (Link.type (Link.mk "playlist" "37i9dQZF1DXcBWIGoYBM5M"))
     = Link.type (Link.mk "playlist" "37i9dQZF1DXcBWIGoYBM5M")
  /\ Link.id (Link.mk "playlist" "37i9dQZF1DXcBWIGoYBM5M") <> EmptyString
  /\ JS.any is_url_delimiter (Link.id (Link.mk "playlist" "37i9dQZF1DXcBWIGoYBM5M"))
     = false.
Proof.
  apply (parseSpotifyLink_result_shape host_ext_none link_with_query
           (Link.mk "playlist" "37i9dQZF1DXcBWIGoYBM5M")).
  reflexivity.
Defined.

Lemma api_cover_blank_url_witness :
  api_cover host_ext_none (Some "   ") world_no_credentials
  = (Ok (json_response 400
           (ErrorJSON "Invalid or unsupported Spotify link/URI." None)),
     world_no_credentials).
Proof.
  apply (api_cover_blank_url host_ext_none (Some "   ") world_no_credentials).
  reflexivity.
Defined.

(* ================================================================== *)
(** * 19. The page script                                              *)
(* ================================================================== *)

Lemma name_class_spec (c : ascii) :
  RegExp.atom_match true Page.name_class c = is_name_char c.
Proof. ascii_cases c. Qed.

Lemma remove_keeps (q : ascii -> bool) (s : string) :
  JS.all (fun c => negb (q c)) (WHATWG.remove q s) = true.
Proof.
  induction s as [| c s IH]; [reflexivity |]. cbn [WHATWG.remove].
  destruct (q c) eqn:E; [exact IH |]. cbn [JS.all]. rewrite E, IH. reflexivity.
Qed.

Lemma strip_unsafe_safe (s : string) :
  JS.all is_name_char (Page.strip_unsafe s) = true.
Proof.
  unfold Page.strip_unsafe.
  refine (all_impl _ _ _ _ (remove_keeps _ s)).
  intros c. rewrite negb_involutive, name_class_spec. auto.
Qed.

Lemma string_or_suffix (n : string) (c : ascii) (r : string) :
  string_or (Some (n ++ String c r)) EmptyString = n ++ String c r.
Proof. destruct n; reflexivity. Qed.

(** X19. The name the page derives from a result holds only letters,
    digits, [_] and [-], whatever the title; it is the name both click
    handlers capture, and the original cover is offered for download
    under that name followed by [_640x640.jpg]. *)
Theorem download_name_is_safe :
  forall (data : Page.Data.t) (b : Page.Browser) (img : Image.t),
    Page.first_image data = Some img ->
    let b' := Page.downloadOriginal_click (Page.renderResult data b) in
    JS.all is_name_char (Page.safe_name data) = true
    /\ Page.enhanceBtn_onclick (Page.renderResult data b)
       = Some (Page.mkCapture (Image.url img) (Page.safe_name data))
    /\ Page.downloads b'
       = (Page.downloads b
          ++ [(Image.url img, (Page.safe_name data ++ "_640x640.jpg")%string)])%list.
Proof.
  intros data b img Himg. cbv zeta.
  split; [apply strip_unsafe_safe |].
  split; [unfold Page.renderResult; rewrite Himg; reflexivity |].
  unfold Page.renderResult. rewrite Himg. cbv zeta.
  generalize (Page.safe_name data). intros n.
  rewrite <- (string_or_suffix n "_" "640x640.jpg"). reflexivity.
Qed.

Lemma download_name_is_safe_witness :
  JS.all is_name_char (Page.safe_name sample_page_data) = true
  /\ Page.enhanceBtn_onclick (Page.renderResult sample_page_data sample_page)
     = Some (Page.mkCapture "https://i.scdn.co/image/large"
               (Page.safe_name sample_page_data))
  /\ Page.downloads
       (Page.downloadOriginal_click (Page.renderResult sample_page_data sample_page))
     = [("https://i.scdn.co/image/large", "Never_Gonna_Give_You_Up_2022_640x640.jpg")].
Proof.
  exact (download_name_is_safe sample_page_data sample_page
           (Image.mk "https://i.scdn.co/image/large" (Number 640) (Number 640))
           eq_refl).
Defined.

(** The browser in which [fetchCover] awaits the answer differs from
    the one it started in by element properties and the request log
    only. *)
Ltac fetchCover_start b link :=
  unfold Page.fetchCover; cbv zeta;
  change (Page.server (Page.record_sent _ _) (Page.cover_request link))
    with (Page.server b (Page.cover_request link)).

Ltac dom_is v :=
  match goal with
  | |- context [Page.dom ?X ?k] => change (Page.dom X k) with v
  end.

Ltac page_cases b link :=
  fetchCover_start b link;
  destruct (Page.server b (Page.cover_request link)) as [res | e];
  [destruct (Page.Response.json res) as [data | e];
   [destruct (Page.Response.ok res);
    [destruct (Page.no_images data) eqn:Hno;
     [| unfold Page.renderResult; destruct (Page.first_image data) as [img |] eqn:Himg]
    |] |] |].

(** X20. Whatever the server does, [fetchCover] sends exactly one
    request, the GET of [/api/cover] with the link form-encoded, starts no
    download, and leaves the button enabled and labelled ["Get Cover"]. *)
Theorem fetchCover_restores_button :
  forall (link : string) (b : Page.Browser),
    let b' := Page.fetchCover link b in
    Page.dom b' "fetchBtn.disabled" = Page.Flag false
    /\ Page.dom b' "fetchBtn.textContent" = Page.Str "Get Cover"
    /\ Page.sent b' = (Page.sent b ++ [Page.cover_request link])%list
    /\ Page.downloads b' = Page.downloads b.
Proof.
  intros link b. cbv zeta.
  split; [reflexivity |]. split; [reflexivity |].
  page_cases b link; split; reflexivity.
Qed.


Lemma string_or_cases (o : option string) (d : string) :
  string_or o d = d \/ (exists m, o = Some m /\ m <> EmptyString /\ string_or o d = m).
Proof.
  destruct o as [[| c m] |]; [left | right | left]; try reflexivity.
  eexists. split; [reflexivity |]. split; [discriminate | reflexivity].
Qed.

(** X22. A failure of the request is never silent: when the call
    rejects, the body is not JSON or the status is not a success,
    [fetchCover] hides the card and shows a non-empty text as an error,
    the text of the server's [error] where there is one. *)
Theorem fetchCover_reports_failure :
  forall (link : string) (b : Page.Browser),
    (forall res, Page.server b (Page.cover_request link) = Ok res ->
                 Page.Response.ok res = false
                 \/ exists e, Page.Response.json res = Throw e) ->
    let b' := Page.fetchCover link b in
    Page.dom b' "statusEl.className" = Page.Str "status error"
    /\ Page.dom b' "cardEl.style.display" = Page.Str "none"
    /\ exists text,
         Page.dom b' "statusEl.textContent" = Page.Str text
         /\ text <> EmptyString
         /\ (forall res data msg,
               Page.server b (Page.cover_request link) = Ok res ->
               Page.Response.json res = Ok data ->
               Page.Data.error data = Some msg -> msg <> EmptyString ->
               text = msg).
Proof.
  intros link b Hfail. cbv zeta. fetchCover_start b link.
  destruct (Page.server b (Page.cover_request link)) as [res | e].
  - destruct (Hfail res eq_refl) as [Ho | [e He]].
    + destruct (Page.Response.json res) as [data | e] eqn:Hj.
      * rewrite Ho.
        split; [reflexivity |]. split; [reflexivity |].
        exists (string_or
                  (Some (string_or (Some (string_or (Page.Data.error data) "Request failed"))
                           "Error fetching images")) EmptyString).
        split; [reflexivity |]. split.
        -- destruct (Page.Data.error data) as [[| c m] |]; discriminate.
        -- intros r d msg Hr Hd Hm Hne.
           assert (r = res) by congruence. subst r.
           assert (d = data) by congruence. subst d.
           rewrite Hm. destruct msg; [congruence | reflexivity].
      * split; [reflexivity |]. split; [reflexivity |].
        exists (string_or (Some (string_or (Some e) "Error fetching images")) EmptyString).
        split; [reflexivity |]. split.
        -- destruct e; discriminate.
        -- intros r d msg Hr Hd. assert (r = res) by congruence. subst r.
           congruence.
    + rewrite He. split; [reflexivity |]. split; [reflexivity |].
      exists (string_or (Some (string_or (Some e) "Error fetching images")) EmptyString).
      split; [reflexivity |]. split.
      * destruct e; discriminate.
      * intros r d msg Hr Hd. inversion Hr; subst. congruence.
  - split; [reflexivity |]. split; [reflexivity |].
    exists (string_or (Some (string_or (Some e) "Error fetching images")) EmptyString).
    split; [reflexivity |]. split.
    + destruct e; discriminate.
    + intros r d msg Hr. discriminate Hr.
Qed.

(** X23. The message ['No 640x640 cover found for this item.'] of
    [renderResult] never survives [fetchCover]: an empty image list is
    reported as ["No images available for this item."] before
    [renderResult] runs, and when the first entry of the list is [null]
    the status that [renderResult] set is cleared right after it, which
    leaves the card hidden and the status empty and not an error. *)
Theorem fetchCover_drops_no_cover_message :
  forall (link : string) (b : Page.Browser) (res : Page.Response.t)
         (data : Page.Data.t),
    Page.server b (Page.cover_request link) = Ok res ->
    Page.Response.ok res = true ->
    Page.Response.json res = Ok data ->
    let b' := Page.fetchCover link b in
    (Page.no_images data = true ->
     Page.dom b' "statusEl.textContent" = Page.Str "No images available for this item."
     /\ Page.dom b' "statusEl.className" = Page.Str "status error")
    /\ (Page.no_images data = false -> Page.first_image data = None ->
        Page.dom (Page.renderResult data b) "statusEl.textContent"
        = Page.Str Page.no_cover_message
        /\ Page.dom b' "cardEl.style.display" = Page.Str "none"
        /\ Page.dom b' "statusEl.textContent" = Page.Str EmptyString
        /\ Page.dom b' "statusEl.className" = Page.Str "status").
Proof.
  intros link b res data Hs Ho Hj. cbv zeta.
  fetchCover_start b link. rewrite Hs, Hj, Ho. split.
  - intros Hno. rewrite Hno. split; reflexivity.
  - intros Hno Hi. rewrite Hno. unfold Page.renderResult. rewrite Hi.
    split; [reflexivity |]. split; [reflexivity |]. split; reflexivity.
Qed.

Lemma fetchCover_reports_failure_witness :
  Page.dom (Page.fetchCover "spotify:track:4PTG3Z6ehGkBFwjybzWkR8" page_offline)
    "statusEl.className" = Page.Str "status error"
  /\ Page.dom (Page.fetchCover "spotify:track:4PTG3Z6ehGkBFwjybzWkR8" page_offline)
       "cardEl.style.display" = Page.Str "none".
Proof.
  destruct (fetchCover_reports_failure "spotify:track:4PTG3Z6ehGkBFwjybzWkR8"
              page_offline) as (H1 & H2 & _).
  - intros res H. discriminate H.
  - split; [exact H1 | exact H2].
Defined.

Lemma fetchCover_drops_no_cover_message_witness :
  Page.dom (Page.renderResult null_first_data page_null_first) "statusEl.textContent"
  = Page.Str Page.no_cover_message
  /\ Page.dom (Page.fetchCover "spotify:track:4PTG3Z6ehGkBFwjybzWkR8" page_null_first)
       "statusEl.textContent" = Page.Str EmptyString.
Proof.
  destruct (fetchCover_drops_no_cover_message "spotify:track:4PTG3Z6ehGkBFwjybzWkR8"
              page_null_first
              (Page.Response.mk true 200 (Ok null_first_data) (Ok []))
              null_first_data eq_refl eq_refl eq_refl) as [_ H].
  destruct (H eq_refl eq_refl) as (H1 & _ & H3 & _).
  split; [exact H1 | exact H3].
Defined.

Section Served.

Variable host_ext : bool -> string -> option string.

Lemma api_cover_200 (url : option string) (w w' : World) (r : HttpResponse) :
  api_cover host_ext url w = (Ok r, w') ->
  statusCode r = 200%Z ->
  exists id type title byline images,
    payload r = CoverJSON id type title byline images
    /\ forall img, In img images -> Is640Square img.
Proof.
  rewrite api_cover_run.
  destruct (parseSpotifyLink host_ext _) as [link |].
  2:{ intros H Hst. inversion H; subst. discriminate Hst. }
  destruct (getImagesFor _ _ w) as [[data | e] w1] eqn:Hg.
  2:{ intros H Hst. inversion H; subst. discriminate Hst. }
  destruct (getImagesFor_inv _ _ _ _ _ Hg) as (t & d & tok & w0 & Ht & _ & _ & ->).
  rewrite log_cover_row. intros H _. inversion H; subst.
  do 5 eexists. split; [reflexivity |].
  intros img. apply only640_all_square.
Qed.

(** X24. For the answers of this server the branch of [renderResult]
    that reports a missing cover is dead: the images of a 200 answer of
    [GET /api/cover] have all passed the 640x640 filter, so when the list
    is not empty its first entry is an image of 640x640 and
    [renderResult] shows the card with it. *)
Theorem served_cover_is_rendered :
  forall (url : option string) (w w' : World) (r : HttpResponse)
         (d : Page.Data.t),
    api_cover host_ext url w = (Ok r, w') ->
    statusCode r = 200%Z ->
    cover_json (payload r) = Some d ->
    Page.no_images d = false ->
    exists img,
      Page.first_image d = Some img
      /\ Is640Square (Some img)
      /\ forall b,
           Page.dom (Page.renderResult d b) "cardEl.style.display" = Page.Str "block"
           /\ Page.dom (Page.renderResult d b) "imgEl.src" = Page.Str (Image.url img).
Proof.
  intros url w w' r d Hrun Hst Hd Hno.
  destruct (api_cover_200 url w w' r Hrun Hst)
    as (id & ty & title & byline & images & Hp & Hall).
  rewrite Hp in Hd. cbn [cover_json] in Hd. inversion Hd; subst d. clear Hd.
  unfold Page.no_images in Hno. cbn [Page.Data.images] in Hno.
  destruct images as [| first rest]; [discriminate Hno |].
  destruct (Hall first (or_introl eq_refl)) as (img & -> & Hw & Hh).
  exists img. split; [reflexivity |]. split.
  - exists img. repeat split; assumption.
  - intros b. unfold Page.renderResult.
    change (Page.first_image _) with (Some img). split; reflexivity.
Qed.

End Served.

Lemma served_cover_is_rendered_witness :
  exists img,
    Page.first_image
      (Page.Data.mk None (Some "Never Gonna Give You Up") (Some "Rick Astley, Guest")
         (Some "track")
         (Some [Some (Image.mk "https://i.scdn.co/image/large"
                        (Number 640) (Number 640))])) = Some img
    /\ Is640Square (Some img).
Proof.
  destruct (served_cover_is_rendered host_ext_none
              (Some "spotify:track:4PTG3Z6ehGkBFwjybzWkR8") world_cached
              (snd (api_cover host_ext_none
                      (Some "spotify:track:4PTG3Z6ehGkBFwjybzWkR8") world_cached))
              (json_response 200
                 (CoverJSON "4PTG3Z6ehGkBFwjybzWkR8" "track"
                    (Some "Never Gonna Give You Up") (Some "Rick Astley, Guest")
                    [Some (Image.mk "https://i.scdn.co/image/large"
                             (Number 640) (Number 640))]))
              (Page.Data.mk None (Some "Never Gonna Give You Up")
                 (Some "Rick Astley, Guest") (Some "track")
                 (Some [Some (Image.mk "https://i.scdn.co/image/large"
                                (Number 640) (Number 640))])))
    as (img & H1 & H2 & _).
  - vm_compute. reflexivity.
  - reflexivity.
  - reflexivity.
  - reflexivity.
  - exists img. split; [exact H1 | exact H2].
Defined.

Lemma drop_while_empty (p : ascii -> bool) (s : string) :
  JS.drop_while p s = EmptyString -> JS.all p s = true.
Proof.
  induction s as [| c s IH]; simpl; [reflexivity |].
  destruct (p c); [exact IH | discriminate].
Qed.

Lemma trim_truthy (s : string) :
  JS.truthy (JS.trim s) = negb (JS.all JS.is_white_space s).
Proof.
  destruct (JS.all JS.is_white_space s) eqn:E.
  - rewrite (trim_blank s E). reflexivity.
  - unfold JS.trim.
    pose proof (drop_while_head JS.is_white_space s) as Hh.
    pose proof (drop_while_empty JS.is_white_space s) as He.
    destruct (JS.drop_while JS.is_white_space s) as [| c r].
    + rewrite (He eq_refl) in E. discriminate E.
    + cbn [JS.drop_while_end]. rewrite Hh. reflexivity.
Qed.

(** X25. A click on the button with a blank input box sends nothing and
    asks for a link; with any other content it sends one request, for the
    content without its surrounding white space. *)
Theorem fetchBtn_click_sends_trimmed :
  forall (b : Page.Browser),
    let b' := Page.fetchBtn_click b in
    if JS.all JS.is_white_space (Page.urlInput_value b)
    then Page.sent b' = Page.sent b
         /\ Page.dom b' "statusEl.textContent"
            = Page.Str "Please paste a Spotify link or URI."
         /\ Page.dom b' "statusEl.className" = Page.Str "status error"
    else Page.sent b'
         = (Page.sent b
            ++ [Page.cover_request (JS.trim (Page.urlInput_value b))])%list.
Proof.
  intros b. cbv zeta. unfold Page.fetchBtn_click. cbv zeta.
  rewrite trim_truthy, negb_involutive.
  destruct (JS.all JS.is_white_space (Page.urlInput_value b)).
  - split; [reflexivity |]. split; reflexivity.
  - generalize (JS.trim (Page.urlInput_value b)). intros link.
    page_cases b link; reflexivity.
Qed.

Lemma fetchCover_sent (link : string) (b : Page.Browser) :
  Page.sent (Page.fetchCover link b)
  = (Page.sent b ++ [Page.cover_request link])%list.
Proof. page_cases b link; reflexivity. Qed.

Lemma paste_needs_text (v : string) :
  JS.truthy v && (includes "spotify.com" v || JS.starts_with "spotify:" v)
  = includes "spotify.com" v || JS.starts_with "spotify:" v.
Proof. destruct v; reflexivity. Qed.

(** X26. The disabled button does not stop a paste. Enter in the input
    box calls [fetchBtn.click()], which dispatches nothing on a disabled
    button: while the button is disabled, as it is while a fetch is in
    flight, or the box is blank, Enter sends nothing, and otherwise it
    sends the one request for the trimmed content. A paste calls
    [fetchCover] itself: whether the button is disabled or not, it sends
    the request for the trimmed content when that holds [spotify.com] or
    starts with [spotify:], and changes nothing otherwise. *)
Theorem paste_bypasses_disabled_button :
  forall (b : Page.Browser),
    let v := JS.trim (Page.urlInput_value b) in
    let accepted := includes "spotify.com" v || JS.starts_with "spotify:" v in
    Page.sent (Page.urlInput_keydown "Enter" b)
    = (if Page.fetchBtn_disabled b
          || JS.all JS.is_white_space (Page.urlInput_value b)
       then Page.sent b
       else (Page.sent b ++ [Page.cover_request v])%list)
    /\ Page.sent (Page.urlInput_paste b)
       = (if accepted
          then (Page.sent b ++ [Page.cover_request v])%list
          else Page.sent b)
    /\ Page.urlInput_paste b = (if accepted then Page.fetchCover v b else b).
Proof.
  intros b. cbv zeta. split; [| split].
  - unfold Page.urlInput_keydown. cbn [String.eqb Ascii.eqb Bool.eqb].
    unfold Page.fetchBtn_click_method.
    destruct (Page.fetchBtn_disabled b); cbn [orb]; [reflexivity |].
    unfold Page.fetchBtn_click. cbv zeta.
    rewrite trim_truthy, negb_involutive.
    destruct (JS.all JS.is_white_space (Page.urlInput_value b)); [reflexivity |].
    apply fetchCover_sent.
  - unfold Page.urlInput_paste. cbv zeta. rewrite paste_needs_text.
    destruct (includes "spotify.com" _ || JS.starts_with "spotify:" _);
      [apply fetchCover_sent | reflexivity].
  - unfold Page.urlInput_paste. cbv zeta. rewrite paste_needs_text. reflexivity.
Qed.

Ltac enhance_start b :=
  cbv zeta;
  repeat match goal with
         | |- context [Page.server (Page.record_sent ?rq ?x) ?r] =>
             change (Page.server (Page.record_sent rq x) r) with (Page.server b r)
         | |- context [Page.createObjectURL (Page.record_sent ?rq ?x) ?bl] =>
             change (Page.createObjectURL (Page.record_sent rq x) bl)
               with (Page.createObjectURL b bl)
         end.

(** X27. A click on the enhance button, once [renderResult] has
    installed its handler, sends one POST of the image's address to
    [/api/enhance] and always leaves the button enabled and labelled
    ["Enhance & Download"]. A file is downloaded only when the answer is
    a success whose body can be read: one file, named after the result
    with [_enhanced_3000x3000.jpg], whose object URL is revoked after the
    click. Every other outcome downloads nothing and shows a non-empty
    error. *)
Theorem enhanceBtn_click_outcome :
  forall (b : Page.Browser) (c : Page.Capture),
    Page.enhanceBtn_onclick b = Some c ->
    let rq := Page.Request.mk "/api/enhance" (Page.PostJSON (Page.img_url c)) in
    let b' := Page.enhanceBtn_click b in
    Page.dom b' "enhanceBtn.disabled" = Page.Flag false
    /\ Page.dom b' "enhanceBtn.textContent" = Page.Str "Enhance & Download"
    /\ Page.sent b' = (Page.sent b ++ [rq])%list
    /\ ((exists r blob,
           Page.server b rq = Ok r
           /\ Page.Response.ok r = true
           /\ Page.Response.blob r = Ok blob
           /\ Page.downloads b'
              = (Page.downloads b
                 ++ [(Page.createObjectURL b blob,
                      (Page.safeName c ++ "_enhanced_3000x3000.jpg")%string)])%list
           /\ Page.revoked b' = (Page.revoked b ++ [Page.createObjectURL b blob])%list
           /\ Page.dom b' "statusEl.className" = Page.Str "status")
        \/ (Page.downloads b' = Page.downloads b
            /\ Page.revoked b' = Page.revoked b
            /\ Page.dom b' "statusEl.className" = Page.Str "status error"
            /\ Page.dom b' "statusEl.textContent" <> Page.Str EmptyString)).
Proof.
  intros b c Hc. cbv zeta. unfold Page.enhanceBtn_click. rewrite Hc.
  enhance_start b.
  generalize (Page.safeName c). intros n.
  destruct (Page.server b _) as [r | e] eqn:Hs.
  - destruct (Page.Response.ok r) eqn:Ho.
    + destruct (Page.Response.blob r) as [blob | e] eqn:Hb.
      * split; [reflexivity |]. split; [reflexivity |]. split; [reflexivity |].
        left. exists r, blob.
        split; [reflexivity |]. split; [exact Ho |]. split; [exact Hb |].
        enhance_start b.
        split; [| split; reflexivity].
        match goal with
        | |- Page.downloads ?X = _ =>
            change (Page.downloads X)
              with (Page.downloads b
                    ++ [(Page.createObjectURL b blob,
                         string_or (Some (n ++ "_enhanced_3000x3000.jpg")%string)
                           EmptyString)])%list
        end.
        rewrite (string_or_suffix n "_" "enhanced_3000x3000.jpg"). reflexivity.
      * split; [reflexivity |]. split; [reflexivity |]. split; [reflexivity |].
        right. split; [reflexivity |]. split; [reflexivity |]. split; [reflexivity |].
        dom_is (Page.Str (string_or (Some (string_or (Some e) "Enhance failed")) EmptyString)).
        destruct e; discriminate.
    + split; [reflexivity |]. split; [reflexivity |]. split; [reflexivity |].
      right. split; [reflexivity |]. split; [reflexivity |]. split; [reflexivity |].
      match goal with
      | |- context [Page.dom ?X ?k] =>
          assert (E : exists m, Page.dom X k
                       = Page.Str (string_or (Some (string_or (Some m) "Enhance failed"))
                                     EmptyString))
            by (eexists; reflexivity)
      end.
      destruct E as [m E]. rewrite E. destruct m; discriminate.
  - split; [reflexivity |]. split; [reflexivity |]. split; [reflexivity |].
    right. split; [reflexivity |]. split; [reflexivity |]. split; [reflexivity |].
    dom_is (Page.Str (string_or (Some (string_or (Some e) "Enhance failed")) EmptyString)).
    destruct e; discriminate.
Qed.

Lemma enhanceBtn_click_outcome_witness :
  Page.sent (Page.enhanceBtn_click (Page.renderResult sample_page_data sample_page))
  = [Page.Request.mk "/api/enhance" (Page.PostJSON "https://i.scdn.co/image/large")].
Proof.
  destruct (enhanceBtn_click_outcome
              (Page.renderResult sample_page_data sample_page)
              (Page.mkCapture "https://i.scdn.co/image/large"
                 (Page.safe_name sample_page_data)) eq_refl)
    as (_ & _ & H & _).
  exact H.
Defined.
